(** * MIO-KITCHEN: unpack / repack orchestration engine (tkui/tool.py)

    A shallow embedding of the parts of [tool.py] that decide the size
    estimate of a directory tree ([GetFolderSize]), the super-image
    packaging command ([PackSuper], [pack_super]), the loose-partition
    unpack loop ([unpack]) and the format conversion chain
    ([FormatConversion.conversion], [datbr], [img2simg]).

    Conventions of the embedding.
    - Python [int] is [Z]; a Python [float] is modelled by its exact
      rational value in [Q].  Every float that occurs below is an integer
      scaled by a power of two (sizes over 64, multiples of 2^28), so the
      IEEE double arithmetic of the source is exact as long as the byte
      counts stay below 2^46; the theorems about floats carry that bound.
    - [str] is [string]; f-strings are written with [+:+] and [str_int].
    - The working directory is a finite map from entry name to node.  In
      [unpack] and the conversion chain the paths are formed as
      [work + name] or [f"{work}/{name}"] where [work] comes from
      [ProjectManager] and always ends with the path separator, so both
      spellings denote the entry [name] of that directory.  [pack_super]
      takes [work] as an argument: there [work + name] is a file of its
      own unless [work] ends with the separator ([PackSuper.beside]).
    - A function that carries the [@animation] decorator is given as
      its body and as the decorated call; the decorator catches every
      [Exception] the body raises, logs it, and returns [None].
    - External collaborators (codecs, subprocesses) are fields of an
      environment record: the engine only sees their effect on the
      directory and their exit status. *)

From Stdlib Require Import ZArith QArith Qround Lia Lqa.
From Stdlib Require Import String Ascii List DecimalString.
From Stdlib Require Import Strings.Byte DecimalPos DecimalZ.
From stdpp Require Import base gmap strings list.

Import ListNotations.
Set Warnings "-register-all".
Local Open Scope string_scope.
Local Open Scope list_scope.
Local Open Scope Z_scope.

(** ** Python primitives shared by all modules *)

(** [str(n)] / [f"{n}"] for an integer. *)
Definition str_int (n : Z) : string := NilZero.string_of_int (Z.to_int n).

(** A text as a list of characters, and the characters of a [str]. *)
Abbreviation text := (list ascii).

Definition chars (s : string) : text := list_ascii_of_string s.

(** [t.startswith(p)] on character lists. *)
Fixpoint is_prefix (p t : text) : bool :=
  match p, t with
  | [], _ => true
  | _ :: _, [] => false
  | a :: p', b :: t' => if Ascii.eqb a b then is_prefix p' t' else false
  end.

(** [s.endswith(suffix)] and [s[:-2]]. *)
Definition endswith (s suffix : string) : bool :=
  (String.length suffix <=? String.length s)%nat
  && String.eqb (substring (String.length s - String.length suffix)
                           (String.length suffix) s) suffix.

Definition drop_last2 (s : string) : string :=
  substring 0 (String.length s - 2) s.

(** [pat in t]: [pat] occurs somewhere in [t]. *)
Fixpoint contains (pat t : text) : bool :=
  is_prefix pat t
  || match t with
     | [] => false
     | _ :: t' => contains pat t'
     end.

(** [s.replace(old, new)] for a non-empty [old]: every occurrence found
    by a left-to-right scan is replaced; [skip] counts the characters of
    the current occurrence that are still to be consumed. *)
Fixpoint replace_go (old new : text) (skip : nat) (t : text) : text :=
  match t with
  | [] => []
  | c :: t' =>
      match skip with
      | S k => replace_go old new k t'
      | O =>
          if is_prefix old t
          then new ++ replace_go old new (Nat.pred (length old)) t'
          else c :: replace_go old new O t'
      end
  end.

Definition str_replace (s old new : string) : string :=
  string_of_list_ascii (replace_go (chars old) (chars new) O (chars s)).

(** [s.split('.')[0]]: the part before the first dot. *)
Fixpoint before_dot (s : string) : string :=
  match s with
  | EmptyString => EmptyString
  | String c s' => if Ascii.eqb c "." then EmptyString else String c (before_dot s')
  end.

(** [os.path.basename(p)]: the part after the last [/]. *)
Fixpoint basename (p : string) : string :=
  match p with
  | EmptyString => EmptyString
  | String c p' =>
      if Ascii.eqb c "/" then basename p'
      else if existsb (Ascii.eqb "/") (chars p') then basename p'
      else p
  end.

(** [int(x)] for a float: truncation toward zero. *)
Definition py_int (x : Q) : Z := Z.quot (Qnum x) (Z.pos (Qden x)).

(** A Python number keeps track of whether it is an [int] or a [float]. *)
Inductive pynum : Type :=
  | PInt (z : Z)
  | PFloat (q : Q).

Definition pynum_value (x : pynum) : Q :=
  match x with
  | PInt z => inject_Z z
  | PFloat q => q
  end.

(** ** The Size Estimator: class [GetFolderSize] *)

Module SizeEstimator.

(** What [os.walk] and the [os.path] probes show of one name listed in
    [files]: its name, whether [os.path.isfile] holds, and the result of
    [os.path.getsize] ([None] when it raises, e.g. on a dangling link). *)
Record entry : Type := Entry {
  ename : string;
  isfile : bool;
  getsize : option N
}.

(** A directory as [os.walk] traverses it: the non-directory names it
    lists and the sub-directories it descends into. *)
Inductive tree : Type :=
  | Dir (files : list entry) (subdirs : list tree).

(** [os.walk(path)], top-down: the [files] list of every visited
    directory. *)
Fixpoint os_walk (t : tree) : list (list entry) :=
  match t with
  | Dir files subdirs => files :: List.flat_map os_walk subdirs
  end.

(** Body of the inner [for name in files] loop, on [self.size]. *)
Definition add_entry (size : Z) (e : entry) : Z :=
  let size := if isfile e then size
              else size + Z.of_nat (String.length (ename e)) in
  match getsize e with
  | Some s => size + Z.of_N s
  | None => size + 1
  end.

(** The two nested loops of [get_dir_size]: the content total. *)
Definition walk_total (t : tree) : Z :=
  fold_left (fun size files => fold_left add_entry files size) (os_walk t) 0.

(** [self.size += (self.size / 16384) * 256], then the 16 MiB slack. *)
Definition add_overhead (size : Z) : Q :=
  let size := (inject_Z size + (inject_Z size / 16384) * 256)%Q in
  if Qlt_le_dec (inject_Z (100 * 1024 * 1024)) size
  then (size + inject_Z (16 * 1024 ^ 2))%Q
  else size.

Definition get_dir_size (t : tree) : Q := add_overhead (walk_total t).

(** The quantisation of [rsize], before the optional list patch and the
    division by [num]. *)
Definition rsize_quantize (size : Q) : Z :=
  if Qle_bool size (inject_Z 2097152) then 2097152
  else if Qle_bool size (inject_Z 1048576) then 1048576
  else
    let size_ := py_int size in
    if negb (size_ mod 4096 =? 0) then size_ + (4096 - size_ mod 4096)
    else size_.

(** *** Text substitution used by [rsizelist]

    The file is opened with [encoding='utf-8'] and the partition name is
    interpolated into the pattern.  The model covers the calls in which
    the file holds ASCII characters only and the name is made of
    letters, digits and [_] ([ascii_text], [name_ok]).  There a
    character is a byte, decoding and encoding change nothing, the
    pattern handed to [re.sub] has the shape [<literal> \d+] (a literal
    prefix followed by one or more decimal digits), and [\d] matches the
    ten digits [0] ... [9] only.  [re.sub] replaces the leftmost match,
    resumes the scan right after it, and copies everything else. *)

Definition LF : ascii := ascii_of_nat 10.
Definition CR : ascii := ascii_of_nat 13.

(** A character below U+0080, and a text made of such characters. *)
Definition is_ascii (c : ascii) : bool := (nat_of_ascii c <? 128)%nat.

Definition ascii_text (t : text) : bool := forallb is_ascii t.

(** The characters a partition name is made of: letters, digits, [_].
    For such names the interpolated pattern is a literal. *)
Definition is_word_char (c : ascii) : bool :=
  let n := nat_of_ascii c in
  (((48 <=? n) && (n <=? 57)) || ((65 <=? n) && (n <=? 90))
   || ((97 <=? n) && (n <=? 122)) || (n =? 95))%nat.

Definition name_ok (part_name : string) : bool :=
  forallb is_word_char (chars part_name).

(** [\d] on an ASCII character. *)
Definition is_digit (c : ascii) : bool :=
  ((48 <=? nat_of_ascii c) && (nat_of_ascii c <=? 57))%nat.

(** Length of the greedy [\d+] run at the head of [t]. *)
Fixpoint digit_run (t : text) : nat :=
  match t with
  | c :: t' => if is_digit c then S (digit_run t') else O
  | [] => O
  end.

(** Length of the match of [lit \d+] anchored at the head of [t]. *)
Definition match_at (lit t : text) : option nat :=
  if is_prefix lit t then
    match digit_run (skipn (length lit) t) with
    | O => None
    | S d => Some (length lit + S d)%nat
    end
  else None.

(** The scan of [re.sub]; [skip] counts the characters of the current
    match that are still to be consumed. *)
Fixpoint re_sub_go (lit repl : text) (skip : nat) (t : text) : text :=
  match t with
  | [] => []
  | c :: t' =>
      match skip with
      | S k => re_sub_go lit repl k t'
      | O =>
          match match_at lit t with
          | Some n => repl ++ re_sub_go lit repl (Nat.pred n) t'
          | None => c :: re_sub_go lit repl O t'
          end
      end
  end.

Definition re_sub (lit repl t : text) : text := re_sub_go lit repl O t.

(** Reading an ASCII file opened with [open(file, 'r')]: universal
    newlines turn CR LF and a lone CR into LF. *)
Fixpoint universal_newlines (t : text) : text :=
  match t with
  | [] => []
  | c :: t' =>
      if Ascii.eqb c CR then
        match t' with
        | c' :: t'' =>
            if Ascii.eqb c' LF then LF :: universal_newlines t''
            else LF :: universal_newlines t'
        | [] => [LF]
        end
      else c :: universal_newlines t'
  end.

(** The four [re.sub] calls of [rsizelist], in source order. *)
Definition patch_text (part_name : string) (size : Z) (content : text) : text :=
  let content := re_sub (chars ("resize " +:+ part_name +:+ " "))
                        (chars ("resize " +:+ part_name +:+ " " +:+ str_int size))
                        content in
  let content := re_sub (chars ("resize " +:+ part_name +:+ "_a "))
                        (chars ("resize " +:+ part_name +:+ "_a " +:+ str_int size))
                        content in
  let content := re_sub (chars ("# Grow partition " +:+ part_name +:+ " from 0 to "))
                        (chars ("# Grow partition " +:+ part_name +:+ " from 0 to "
                                +:+ str_int size))
                        content in
  let content := re_sub (chars ("# Grow partition " +:+ part_name +:+ "_a from 0 to "))
                        (chars ("# Grow partition " +:+ part_name +:+ "_a from 0 to "
                                +:+ str_int size))
                        content in
  content.

(** Text files by path, as stored on disk (bytes). *)
Abbreviation textfs := (gmap string text).

(** [rsizelist(part_name, size, file)]: read with universal newlines,
    substitute, write back with [newline='\n'] (no translation).  A
    missing file is left alone.  [None] marks a call outside the
    modelled domain, about which nothing is said: a file with a byte of
    0x80 or more (Python decodes it as UTF-8, where [\d] also matches
    other decimal digits, or raises [UnicodeDecodeError]) and a name
    with a character that is special in a regular expression. *)
Definition rsizelist (part_name : string) (size : Z) (file : string)
    (fs : textfs) : option textfs :=
  match fs !! file with
  | Some raw =>
      if name_ok part_name && ascii_text raw
      then Some (<[file := patch_text part_name size (universal_newlines raw)]> fs)
      else None
  | None => Some fs
  end.

(** [rsize(size, num)] followed by reading [self.rsize_v].  [None] stands
    for an escaping exception ([TypeError] from [os.access(None, ...)]
    when mode 3 is given no list file, [ZeroDivisionError] for
    [num = 0]) and for a list patch outside the modelled domain. *)
Definition rsize (dname : string) (get : Z) (list_f : option string)
    (size : Q) (num : Z) (fs : textfs) : option (pynum * textfs) :=
  let rsize_v := rsize_quantize size in
  let patched :=
    if get =? 3 then
      match list_f with
      | Some file => rsizelist dname rsize_v file fs
      | None => None
      end
    else Some fs in
  match patched with
  | Some fs' =>
      if num =? 0 then None
      else Some (PInt (py_int (inject_Z rsize_v / inject_Z num)), fs')
  | None => None
  end.

(** [GetFolderSize(dir_, num, get, list_f).rsize_v], where [dname] is
    [os.path.basename(dir_)] and [t] is the tree found at [dir_]. *)
Definition GetFolderSize (dname : string) (t : tree) (num get : Z)
    (list_f : option string) (fs : textfs) : option (pynum * textfs) :=
  let size := get_dir_size t in
  if get =? 1 then Some (PFloat size, fs)
  else rsize dname get list_f size num fs.

(** The estimate in the default mode ([get = 2]), which touches no file. *)
Definition estimate (t : tree) (num : Z) : option pynum :=
  fst <$> GetFolderSize "" t num 2 None ∅.

(** The quantisation as the specification words it: totals up to 2 MiB
    give 2 MiB, any larger total is rounded up to the next multiple of
    4096. *)
Definition quantize_spec (total : Q) : Z :=
  if Qle_bool total (inject_Z 2097152) then 2097152
  else 4096 * Qceiling (total / inject_Z 4096).

(** The total of the specification: content, plus [T/16384*256], plus the
    16 MiB slack past 100 MiB. *)
Definition total_spec (T : Z) : Q :=
  let base := (inject_Z T + inject_Z T / inject_Z 16384 * inject_Z 256)%Q in
  (base + (if Qlt_le_dec (inject_Z 104857600) base then inject_Z 16777216 else 0))%Q.

(** What the estimator guarantees about its result [r] for a content
    total [T]. *)
Definition estimate_post (T r : Z) : Prop :=
  let total := total_spec T in
  ((total <= inject_Z 2097152)%Q -> r = 2097152) /\
  ((inject_Z 2097152 < total)%Q ->
     r mod 4096 = 0 /\ Qfloor total <= r < Qfloor total + 4096) /\
  r <> 1048576 /\
  (T = 1500000 -> r = 2097152).

(** A tree holding one regular file of 2,101,185 bytes: its total is
    2,134,016 + 1/64, a hair above a 4096-byte boundary. *)
Definition tree_above_boundary : tree :=
  Dir [Entry "system.bin" true (Some 2101185%N)] [].

(** A tree totalling 1,500,000 bytes of content over two directories. *)
Definition tree_1500000 : tree :=
  Dir [Entry "build.prop" true (Some 1000000%N)]
      [Dir [Entry "libc.so" true (Some 500000%N)] []].

(** *** Vocabulary for the statements about the list patch *)

(** Lines of a text, split at LF; [join_lines] puts them back. *)
Fixpoint split_lines (t : text) : list text :=
  match t with
  | [] => [[]]
  | c :: t' =>
      if Ascii.eqb c LF then [] :: split_lines t'
      else match split_lines t' with
           | l :: ls => (c :: l) :: ls
           | [] => [[c]]
           end
  end.

Fixpoint join_lines (ls : list text) : text :=
  match ls with
  | [] => []
  | l :: ls' =>
      match ls' with
      | [] => l
      | _ :: _ => l ++ LF :: join_lines ls'
      end
  end.

(** The literal prefixes of the four patterns. *)
Definition patterns (part_name : string) : list text :=
  [ chars ("resize " +:+ part_name +:+ " ");
    chars ("resize " +:+ part_name +:+ "_a ");
    chars ("# Grow partition " +:+ part_name +:+ " from 0 to ");
    chars ("# Grow partition " +:+ part_name +:+ "_a from 0 to ") ].

(** [lit \d+] matches somewhere in [l]. *)
Definition occurs (lit l : text) : Prop :=
  exists pre suf n, l = pre ++ suf /\ match_at lit suf = Some n.

(** Decidable form of [occurs]. *)
Fixpoint occursb (lit l : text) : bool :=
  match match_at lit l with
  | Some _ => true
  | None => match l with
            | [] => false
            | _ :: l' => occursb lit l'
            end
  end.

(** *** Vocabulary for the lines of the four shapes *)

Definition SP : ascii := " "%char.

(** A run of decimal digits. *)
Definition digits (t : text) : bool := forallb is_digit t.

(** The two shapes of a pattern, word by word, without the space that
    ends it; [Q] is the partition name with or without [_a]. *)
Definition resize_body (Q : text) : text := chars "resize" ++ SP :: Q.

Definition grow_body (Q : text) : text :=
  chars "#" ++ SP :: chars "Grow" ++ SP :: chars "partition" ++ SP :: Q
  ++ SP :: chars "from" ++ SP :: chars "0" ++ SP :: chars "to".

(** The bodies of the four patterns of a partition name. *)
Definition bodies (part_name : string) : list text :=
  [ resize_body (chars part_name);
    resize_body (chars part_name ++ chars "_a");
    grow_body (chars part_name);
    grow_body (chars part_name ++ chars "_a") ].

(** Every match of [lit \d+] in [B ++ N] is the literal followed by the
    final digits [N]. *)
Definition tail_only (lit B : text) : Prop :=
  forall N, digits N = true -> N <> [] ->
  forall p s n, B ++ N = p ++ s -> match_at lit s = Some n -> s = lit ++ N.

(** One substitution of [rsizelist]: the digits after [lit] become [R]. *)
Definition sub_size (R : text) (content lit : text) : text :=
  re_sub lit (lit ++ R) content.

(** A resize list with Windows line ends, as shipped in some firmware
    packages. *)
Definition op_list_crlf : text :=
  chars "remove_all_groups" ++ [CR; LF]
  ++ chars "resize system 100" ++ [CR; LF].

(** A resize list with LF line ends. *)
Definition op_list_lf : text :=
  chars "# Grow partition system from 0 to 100" ++ [LF]
  ++ chars "resize system 100" ++ [LF]
  ++ chars "resize system_ext 200" ++ [LF]
  ++ chars "resize system_a 300" ++ [LF].

End SizeEstimator.

(** ** The Dynamic-Partition Synthesizer: [PackSuper] and [pack_super] *)

Module PackSuper.

(** What [pack_super] and [verify_size] see of the file system: which
    files exist ([os.path.exists]) and their byte length
    ([os.path.getsize]).  An entry of the work directory, the path
    [f"{work}/{name}"], is held under its name; a file elsewhere is
    held under its path, which has a [/] in it. *)
Abbreviation imgfs := (gmap string N).

(** [work + name], the path built without a separator.  When [work]
    ends with [/], as the paths of the project manager do, this is the
    entry [name] of the work directory.  Otherwise it is a file beside
    that directory, whose name starts with the last component of
    [work]. *)
Definition beside (work name : string) : string :=
  if endswith work "/" then name
  else (if existsb (Ascii.eqb "/") (chars work) then work else "./" +:+ work)
       +:+ name.

(** The argument vector handed to [lpmake]. *)
Abbreviation command := (list string).

(** *** [PackSuper.verify_size] *)

Definition GiB : Z := 1024 ^ 3.

(** [sum([os.path.getsize(f"{work}/{i}.img") for i in selected])];
    [None] when a size cannot be read ([getsize] raises). *)
Fixpoint sum_sizes (fs : imgfs) (selected : list string) : option Z :=
  match selected with
  | [] => Some 0
  | i :: rest =>
      sz ← fs !! (i +:+ ".img");
      total ← sum_sizes fs rest;
      Some (Z.of_N sz + total)
  end.

(** The loop variables of [verify_size]; [vs_break] is set by [break]. *)
Record vs_state : Type := VsState {
  vs_size : Q;
  vs_diff : Q;
  vs_break : bool
}.

(** One iteration of [for i in range(20)]. *)
Definition verify_step (st : vs_state) (i : Z) : vs_state :=
  if vs_break st then st
  else if i =? 0 then st
  else
    let i := (inject_Z i - (1 # 4))%Q in
    let t := (inject_Z GiB * i - vs_size st)%Q in
    if Qlt_le_dec t 0 then st
    else if Qlt_le_dec t (vs_diff st)
         then VsState (vs_size st) t false
         else VsState (i * inject_Z GiB)%Q (vs_diff st) true.

Definition range20 : list Z := map Z.of_nat (seq 0 20).

(** The whole [for] loop, started with [size] and [diff_size] equal to
    the content total. *)
Definition verify_loop (size : Z) : vs_state :=
  fold_left verify_step range20 (VsState (inject_Z size) (inject_Z size) false).

(** [verify_size]: the verdict and the value left in [self.super_size]. *)
Definition verify_size (fs : imgfs) (selected : list string) (super_size : Z)
    : option (bool * Z) :=
  size ← sum_sizes fs selected;
  if super_size <? size then
    Some (false, py_int (vs_size (verify_loop size)))
  else Some (true, super_size).

(** *** [pack_super] *)

(** The first loop: strip a slot suffix, keep first occurrences. *)
Definition strip_slot (part : string) : string :=
  if endswith part "_b" || endswith part "_a" then drop_last2 part else part.

Fixpoint canonical_go (lb_c part_list : list string) : list string :=
  match part_list with
  | [] => lb_c
  | part :: rest =>
      let part := strip_slot part in
      canonical_go (if bool_decide (part ∈ lb_c) then lb_c else lb_c ++ [part]) rest
  end.

Definition canonical (part_list : list string) : list string :=
  canonical_go [] part_list.

(** The second loop: a canonical image that is missing is taken from
    its [_a] image. *)
Definition rename_slot (fs : imgfs) (part : string) : imgfs :=
  match fs !! (part +:+ ".img"), fs !! (part +:+ "_a.img") with
  | None, Some sz => <[part +:+ ".img" := sz]> (delete (part +:+ "_a.img") fs)
  | _, _ => fs
  end.

Definition rename_slots (fs : imgfs) (part_list : list string) : imgfs :=
  fold_left rename_slot part_list fs.

Section Command.

Variables (group_name attrib work : string) (fs : imgfs).

(** The partition arguments of the A-only branch. *)
Fixpoint partitions_single (part_list : list string) : option command :=
  match part_list with
  | [] => Some []
  | part :: rest =>
      sz ← fs !! (part +:+ ".img");
      tl ← partitions_single rest;
      Some ([ "--partition";
              part +:+ ":" +:+ attrib +:+ ":" +:+ str_int (Z.of_N sz)
                   +:+ ":" +:+ group_name;
              "--image";
              part +:+ "=" +:+ work +:+ "/" +:+ part +:+ ".img" ] ++ tl)
  end.

(** The [_a] partition arguments of the two-slot branch. *)
Fixpoint partitions_a (part_list : list string) : option command :=
  match part_list with
  | [] => Some []
  | part :: rest =>
      sz ← fs !! (part +:+ ".img");
      tl ← partitions_a rest;
      Some ([ "--partition";
              part +:+ "_a:" +:+ attrib +:+ ":" +:+ str_int (Z.of_N sz)
                   +:+ ":" +:+ group_name +:+ "_a";
              "--image";
              part +:+ "_a=" +:+ work +:+ part +:+ ".img" ] ++ tl)
  end.

(** The [_b] partition arguments of the two-slot branch.  The test is
    made on [work + part + "_b.img"], the size is read from
    [f"{work}/{part}_b.img"]. *)
Fixpoint partitions_b (part_list : list string) : option command :=
  match part_list with
  | [] => Some []
  | part :: rest =>
      match fs !! beside work (part +:+ "_b.img") with
      | None =>
          tl ← partitions_b rest;
          Some ([ "--partition";
                  part +:+ "_b:" +:+ attrib +:+ ":0:" +:+ group_name +:+ "_b" ] ++ tl)
      | Some _ =>
          sz ← fs !! (part +:+ "_b.img");
          tl ← partitions_b rest;
          Some ([ "--partition";
                  part +:+ "_b:" +:+ attrib +:+ ":" +:+ str_int (Z.of_N sz)
                       +:+ ":" +:+ group_name +:+ "_b";
                  "--image";
                  part +:+ "_b=" +:+ work +:+ "/" +:+ part +:+ "_b.img" ] ++ tl)
      end
  end.

End Command.

(** [if not block_device_name: block_device_name = 'super']. *)
Definition effective_name (block_device_name : string) : string :=
  if String.eqb block_device_name "" then "super" else block_device_name.

(** The part of [pack_super] that builds [command]: the directory after
    the renames, and the command ([None] if [os.path.getsize] raises). *)
Definition pack_super_command (sparse : bool) (group_name : string) (size : Z)
    (super_type : Z) (part_list : list string) (attrib output_dir work : string)
    (block_device_name : string) (fs : imgfs) : imgfs * option command :=
  let block_device_name := effective_name block_device_name in
  let part_list := canonical part_list in
  let fs := rename_slots fs part_list in
  let command := [ "lpmake"; "--metadata-size"; "65536"; "-super-name";
                   block_device_name; "-metadata-slots" ] in
  let body :=
    if super_type =? 1 then
      ps ← partitions_single group_name attrib work fs part_list;
      Some ([ "2"; "-device"; block_device_name +:+ ":" +:+ str_int size;
              "--group"; group_name +:+ ":" +:+ str_int size ] ++ ps)
    else
      pa ← partitions_a group_name attrib work fs part_list;
      pb ← partitions_b group_name attrib work fs part_list;
      Some ([ "3"; "-device"; "super:" +:+ str_int size;
              "--group"; group_name +:+ "_a:" +:+ str_int size ] ++ pa
            ++ [ "--group"; group_name +:+ "_b:" +:+ str_int size ] ++ pb
            ++ (if super_type =? 2 then [ "--virtual-ab" ] else [])) in
  (fs,
   body ← body;
   Some (command ++ body ++ (if sparse then [ "--sparse" ] else [])
         ++ [ "--out"; output_dir +:+ "/super.img" ])).

(** How a call of [pack_super] ends.  Only the first case returns a
    value; in the others the call returns [None]. *)
Inductive pack_outcome : Type :=
  | ReturnedCommand (c : command)   (* [return_cmd == 1] *)
  | Packed (c : command)            (* lpmake exited 0 and super.img exists *)
  | PackFailed (c : command)        (* [win.message_pop(lang.warn10)] *)
  | Swallowed.                      (* an exception left the body; [@animation]
                                       logged it *)

(** How a click on the pack button ([start_]) ends. *)
Inductive start_outcome : Type :=
  | AskedToConfirm (shown_size : Z) (* [ask_win(lang.t10.format(size))]; [return False] *)
  | NoProject                       (* [warn_win(lang.warn1)]; [return False] *)
  | Ran (o : pack_outcome)          (* [pack_super(...)] was called *)
  | StartRaised.                    (* [verify_size] raised *)

(** The variables of the [PackSuper] dialog that [start_] reads.
    [super_size] is [None] when the entry does not hold an integer. *)
Record dialog : Type := Dialog {
  super_size : option Z;
  is_sparse : bool;
  super_type : Z;
  attrib : string;
  group_name : string;
  delete_source_file : Z;
  block_device_name : string;
  selected : list string
}.

Definition set_super_size (d : dialog) (v : Z) : dialog :=
  Dialog (Some v) (is_sparse d) (super_type d) (attrib d) (group_name d)
         (delete_source_file d) (block_device_name d) (selected d).

Section Run.

(** The packaging tool: its effect on the directory and its exit status;
    and whether [output_dir + "super.img"] exists afterwards. *)
Variable lpmake : command -> imgfs -> imgfs * Z.
Variable output_present : imgfs -> bool.

(** The loop run when [del_ == 1]: it removes [work + img + ".img"]
    where that file exists. *)
Definition remove_sources (work : string) (fs : imgfs) (part_list : list string)
    : imgfs :=
  fold_left (fun fs img => delete (beside work (img +:+ ".img")) fs) part_list fs.

(** The body of [pack_super]; [None] when an exception leaves it
    ([os.path.getsize] on a missing image). *)
Definition pack_super_body (sparse : bool) (group_name : string) (size : Z)
    (super_type : Z) (part_list : list string) (del_ return_cmd : Z)
    (attrib output_dir work block_device_name : string) (fs : imgfs)
    : imgfs * option pack_outcome :=
  let '(fs, command) :=
    pack_super_command sparse group_name size super_type part_list attrib
                       output_dir work block_device_name fs in
  match command with
  | None => (fs, None)
  | Some command =>
      if return_cmd =? 1 then (fs, Some (ReturnedCommand command))
      else
        let '(fs, rc) := lpmake command fs in
        if rc =? 0 then
          if output_present fs then
            ((if del_ =? 1 then remove_sources work fs (canonical part_list)
              else fs),
             Some (Packed command))
          else (fs, Some (PackFailed command))
        else (fs, Some (PackFailed command))
  end.

(** [pack_super] as callers see it: the [@animation] decorator catches
    what the body raises, and the call then returns [None]. *)
Definition pack_super (sparse : bool) (group_name : string) (size : Z)
    (super_type : Z) (part_list : list string) (del_ return_cmd : Z)
    (attrib output_dir work block_device_name : string) (fs : imgfs)
    : imgfs * pack_outcome :=
  let '(fs, o) :=
    pack_super_body sparse group_name size super_type part_list del_ return_cmd
                    attrib output_dir work block_device_name fs in
  (fs, default Swallowed o).

(** [PackSuper.start_], with [project_exists] for [project_manger.exist()]
    and [work], [output_dir] for the paths of the current project. *)
Definition start_ (d : dialog) (project_exists : bool) (work output_dir : string)
    (fs : imgfs) : dialog * imgfs * start_outcome :=
  let d := match super_size d with
           | Some _ => d
           | None => set_super_size d 0
           end in
  let requested := default 0 (super_size d) in
  match verify_size fs (selected d) requested with
  | None => (d, fs, StartRaised)
  | Some (false, adjusted) =>
      (set_super_size d adjusted, fs, AskedToConfirm adjusted)
  | Some (true, _) =>
      if negb project_exists then (d, fs, NoProject)
      else
        let '(fs, o) :=
          pack_super (is_sparse d) (group_name d) requested (super_type d)
                     (selected d) (delete_source_file d) 0 (attrib d)
                     output_dir work (block_device_name d) fs in
        (d, fs, Ran o)
  end.

End Run.

(** The sizes [verify_size] can select: [(k - 0.25)] GiB for
    [k = 1 .. 19]. *)
Definition candidate (k : Z) : Z := (4 * k - 1) * 2 ^ 28.

(** Loop invariant: until [break], [size] is still the content total;
    after it, [size] is a candidate that holds the content. *)
Definition verify_inv (content : Z) (st : vs_state) : Prop :=
  if vs_break st
  then exists k, 1 <= k <= 19 /\ (vs_size st == inject_Z (candidate k))%Q
                 /\ content <= candidate k
  else (vs_size st == inject_Z content)%Q.

(** The size the loop of [verify_size] settles on when [k] is the first
    candidate that holds [content]. *)
Definition chosen_size (content k : Z) : Z :=
  if candidate k - content <? content
  then (if k <? 19 then candidate (k + 1) else content)
  else candidate k.

(** *** Vocabulary for the statements about the synthesizer *)

(** The arguments emitted for one partition in the A-only branch. *)
Definition single_args (group_name attrib work : string) (entry : string * N)
    : command :=
  let '(part, sz) := entry in
  [ "--partition";
    part +:+ ":" +:+ attrib +:+ ":" +:+ str_int (Z.of_N sz) +:+ ":" +:+ group_name;
    "--image";
    part +:+ "=" +:+ work +:+ "/" +:+ part +:+ ".img" ].

(** The arguments emitted for one partition in the [_a] group of the
    two-slot branch. *)
Definition slot_a_args (group_name attrib work : string) (entry : string * N)
    : command :=
  let '(part, sz) := entry in
  [ "--partition";
    part +:+ "_a:" +:+ attrib +:+ ":" +:+ str_int (Z.of_N sz) +:+ ":" +:+ group_name
         +:+ "_a";
    "--image";
    part +:+ "_a=" +:+ work +:+ part +:+ ".img" ].

(** The arguments emitted for one partition in the [_b] group: without
    an image and with size 0, or with the size of its [_b] image. *)
Definition slot_b_args (group_name attrib work : string)
    (entry : string * option N) : command :=
  let '(part, sz) := entry in
  match sz with
  | None =>
      [ "--partition"; part +:+ "_b:" +:+ attrib +:+ ":0:" +:+ group_name +:+ "_b" ]
  | Some sz =>
      [ "--partition";
        part +:+ "_b:" +:+ attrib +:+ ":" +:+ str_int (Z.of_N sz) +:+ ":" +:+ group_name
             +:+ "_b";
        "--image";
        part +:+ "_b=" +:+ work +:+ "/" +:+ part +:+ "_b.img" ]
  end.

(** What the [_b] loop looks up for a partition: nothing when
    [work + part + "_b.img"] is missing, else the size of
    [f"{work}/{part}_b.img"]. *)
Definition slot_b_entry (work : string) (fs : imgfs) (part : string)
    : string * option N :=
  (part, match fs !! beside work (part +:+ "_b.img") with
         | None => None
         | Some _ => fs !! (part +:+ "_b.img")
         end).

(** The head of every command, up to the slot count. *)
Definition command_head (block_device_name : string) : command :=
  [ "lpmake"; "--metadata-size"; "65536"; "-super-name";
    effective_name block_device_name; "-metadata-slots" ].

(** Sample data: a well-behaved packaging tool, a directory holding a
    100 MiB and a 50 MiB image, a dialog asking for a 100 MiB super. *)
Definition lpmake_ok : command -> imgfs -> imgfs * Z := fun _ fs => (fs, 0).
Definition output_ok : imgfs -> bool := fun _ => true.

Definition MiB : N := 1048576%N.

Definition fs_150MiB : imgfs :=
  {[ "system.img" := (100 * MiB)%N; "vendor.img" := (50 * MiB)%N ]}.

Definition dialog_100MiB : dialog :=
  Dialog (Some 104857600) false 1 "readonly" "qti_dynamic_partitions" 0 "super"
         [ "system"; "vendor" ].

(** A two-slot directory: both slots of [boot], and [system] shipped
    as [system_a.img] only. *)
Definition fs_two_slots : imgfs :=
  {[ "boot.img" := (10 * MiB)%N; "boot_b.img" := (12 * MiB)%N;
     "system_a.img" := (500 * MiB)%N ]}.

(** The directory of the A-only example of the specification. *)
Definition fs_boot_system : imgfs :=
  {[ "boot.img" := (10 * MiB)%N; "system_a.img" := (500 * MiB)%N ]}.

End PackSuper.


(** ** The engine's view of a project directory *)

Module Engine.

(** An entry of the working directory: a regular file with its bytes, or
    a sub-directory (extraction output, [config]). *)
Inductive node : Type :=
  | File (data : list byte)
  | Folder.

Abbreviation dir := (gmap string node).

(** The [super_info] block of the registry, as [lpunpack.get_info]
    returns it. *)
Record super_info : Type := SuperInfo {
  block_devices : list (string * Z);
  group_table : list string;
  partition_table : list (string * string)
}.

(** A value of the [parts_info] dictionary: a format tag, the
    [super_info] block, or the transfer-list version ([dat_ver]). *)
Inductive regval : Type :=
  | RType (tag : string)
  | RSuper (info : super_info)
  | RDatVer (version : Z).

Abbreviation registry := (gmap string regval).

(** What an operation shows to the outside: lines printed to the log,
    pop-up messages, and the collaborators it invokes. *)
Inductive event : Type :=
  | Printed (line : string)
  | Popup (message : string)
  | Invoked (tool : string) (args : list string).

(** The state an orchestration call works on: the directory, the
    in-memory dictionary [parts], the registry file
    [config/parts_info] ([None] until first written) and the events so
    far, oldest first. *)
Record state : Type := State {
  fs : dir;
  parts : registry;
  parts_info : option registry;
  events : list event
}.

(** The external collaborators.  Subprocesses run through [call] and
    yield an exit status; library codecs are functions on the
    directory.  [lang] is the table of localized texts and [fmt] the
    [%] / [.format] substitution into such a text. *)
Record env : Type := Env {
  call : list string -> dir -> dir * Z;
  Unxz : string -> dir -> dir;
  Sdat2img : string -> string -> string -> dir -> dir * Z;
  img2sdat : string -> Z -> string -> dir -> dir;
  simg2img : string -> dir -> option dir;
  gettype : dir -> string -> string;
  listdir : dir -> list string;
  un_dtbo : string -> dir -> dir;
  unpack_boot : string -> dir -> dir;
  logo_check : dir -> string -> bool;
  logo_dump : string -> dir -> dir;
  disavb : string -> dir -> dir;
  get_info : dir -> string -> super_info;
  lpunpack : string -> option (list string) -> dir -> dir;
  mount_point : dir -> string -> string;
  imgextractor : string -> dir -> dir;
  romfs_extract : string -> dir -> dir;
  guoke_unpack : string -> dir -> dir;
  is_empty_img : dir -> string -> bool;
  payload_dump : list string -> bool -> dir -> option dir;
  splituapp : list string -> dir -> dir;
  folder_size : Z;
  lang : string -> string;
  fmt : string -> list string -> string
}.

(** *** A monad for the control flow of the source

    A computation either yields a value, or leaves the current loop
    iteration ([continue]), or leaves the function ([return b]), or
    raises an exception that nothing has caught yet. *)
Inductive result (A : Type) : Type :=
  | Val (a : A) (s : state)
  | Skip (s : state)
  | Done (b : bool) (s : state)
  | Raised (s : state).

Arguments Val {A} a s.
Arguments Skip {A} s.
Arguments Done {A} b s.
Arguments Raised {A} s.

Definition M (A : Type) : Type := state -> result A.

Definition ret {A : Type} (a : A) : M A := fun s => Val a s.

Definition bind {A B : Type} (m : M A) (k : A -> M B) : M B :=
  fun s =>
    match m s with
    | Val a s' => k a s'
    | Skip s' => Skip s'
    | Done b s' => Done b s'
    | Raised s' => Raised s'
    end.

#[export] Instance M_ret : MRet M := @ret.
#[export] Instance M_bind : MBind M := fun A B k m => bind m k.

Definition continue_ {A : Type} : M A := fun s => Skip s.
Definition return_ {A : Type} (b : bool) : M A := fun s => Done b s.
Definition raise {A : Type} : M A := fun s => Raised s.

(** [try: m except ...: pass] for a handler that catches everything
    raised by [m]. *)
Definition try_ (m : M unit) : M unit :=
  fun s =>
    match m s with
    | Raised s' => Val tt s'
    | r => r
    end.

(** [if c: m]. *)
Definition when (c : bool) (m : M unit) : M unit := if c then m else ret tt.

(** [for x in l: body x]; a [continue] in the body moves on to the next
    element. *)
Fixpoint for_each {A : Type} (body : A -> M unit) (l : list A) : M unit :=
  match l with
  | [] => ret tt
  | x :: rest =>
      fun s =>
        match body x s with
        | Val _ s' => for_each body rest s'
        | Skip s' => for_each body rest s'
        | Done b s' => Done b s'
        | Raised s' => Raised s'
        end
  end.

(** State access. *)
Definition with_fs (d : dir) (s : state) : state :=
  State d (parts s) (parts_info s) (events s).
Definition with_parts (p : registry) (s : state) : state :=
  State (fs s) p (parts_info s) (events s).
Definition with_event (e : event) (s : state) : state :=
  State (fs s) (parts s) (parts_info s) (events s ++ [e]).

Definition get_fs : M dir := fun s => Val (fs s) s.
Definition get_parts : M registry := fun s => Val (parts s) s.
Definition set_parts (p : registry) : M unit := fun s => Val tt (with_parts p s).
Definition emit (e : event) : M unit := fun s => Val tt (with_event e s).
Definition print (line : string) : M unit := emit (Printed line).
Definition message_pop (message : string) : M unit := emit (Popup message).

(** A library collaborator acting on the directory. *)
Definition collab (tool : string) (args : list string) (f : dir -> dir) : M unit :=
  fun s => Val tt (with_event (Invoked tool args) (with_fs (f (fs s)) s)).

(** [os.access(path, os.F_OK)] / [os.path.exists(path)]. *)
Definition exists_ (name : string) : M bool :=
  fun s => Val (bool_decide (is_Some (fs s !! name))) s.

(** [os.path.getsize(path)]; raises when the entry is missing. *)
Definition getsize (E : env) (name : string) : M Z :=
  fun s =>
    match fs s !! name with
    | Some (File data) => Val (Z.of_nat (length data)) s
    | Some Folder => Val (folder_size E) s
    | None => Raised s
    end.

(** [os.remove(path)]; raises on a missing entry and on a directory. *)
Definition remove (name : string) : M unit :=
  fun s =>
    match fs s !! name with
    | Some (File _) => Val tt (with_fs (delete name (fs s)) s)
    | _ => Raised s
    end.

(** [os.rename(src, dst)] (POSIX): raises when [src] is missing or when
    a file and a directory would replace one another. *)
Definition rename (src dst : string) : M unit :=
  fun s =>
    match fs s !! src, fs s !! dst with
    | None, _ => Raised s
    | Some (File _), Some Folder => Raised s
    | Some Folder, Some (File _) => Raised s
    | Some n, _ => Val tt (with_fs (<[dst := n]> (delete src (fs s))) s)
    end.

(** [open(path, 'rb').read()]. *)
Definition read_file (name : string) : M (list byte) :=
  fun s =>
    match fs s !! name with
    | Some (File data) => Val data s
    | _ => Raised s
    end.

(** [open(path, 'ab')]: creates the file when it is missing. *)
Definition open_append (name : string) : M unit :=
  fun s =>
    match fs s !! name with
    | Some (File _) => Val tt s
    | Some Folder => Raised s
    | None => Val tt (with_fs (<[name := File []]> (fs s)) s)
    end.

(** [ofd.write(data)] on a file opened for appending. *)
Definition append_file (name : string) (data : list byte) : M unit :=
  fun s =>
    match fs s !! name with
    | Some (File old) => Val tt (with_fs (<[name := File (old ++ data)]> (fs s)) s)
    | _ => Raised s
    end.

(** Modelled from the spec: [JsonEdit] (core/utils.py) is not part of
    tool.py; the registry file is "read fully ... written fully back".
    Writing needs the [config] directory to exist. *)
Definition json_read : M registry :=
  fun s => Val (default ∅ (parts_info s)) s.

Definition json_write (p : registry) : M unit :=
  fun s =>
    match fs s !! "config" with
    | Some Folder => Val tt (State (fs s) (parts s) (Some p) (events s))
    | _ => Raised s
    end.

(** [os.makedirs(path)] for an entry of the working directory. *)
Definition makedirs (name : string) : M unit :=
  fun s =>
    match fs s !! name with
    | None => Val tt (with_fs (<[name := Folder]> (fs s)) s)
    | Some _ => Raised s
    end.

End Engine.

(** ** The Unpack Orchestrator: [unpack] *)

Module Unpack.
Import Engine.

(** [try: m except ...: handler]. *)
Definition try_catch (m handler : M unit) : M unit :=
  fun s =>
    match m s with
    | Raised s' => handler s'
    | r => r
    end.

Definition set_part (key : string) (v : regval) : M unit :=
  p ← get_parts; set_parts (<[key := v]> p).

Section WithEnv.

Variable E : env.

(** [work] is [project_manger.current_work_path()]; it ends with the
    path separator, so [os.path.join(work, x)] is [work + x]. *)
Variable work : string.

(** [f"{work}/{name}"], as it appears in messages and argument vectors. *)
Definition path (name : string) : string := work +:+ "/" +:+ name.

(** [call(argv)]: run a subprocess, yield its exit status. *)
Definition run_call (argv : list string) : M Z :=
  fun s =>
    let '(d, rc) := call E argv (fs s) in
    Val rc (with_event (Invoked "call" argv) (with_fs d s)).

(** [gettype(f"{work}/{name}")]. *)
Definition type_of (name : string) : M string :=
  fun s => Val (gettype E (fs s) name) s.

(** [try: utils.simg2img(path) except ...: handler]. *)
Definition run_simg2img (name : string) (handler : M unit) : M unit :=
  fun s =>
    let s := with_event (Invoked "simg2img" [path name]) s in
    match simg2img E name (fs s) with
    | Some d => Val tt (with_fs d s)
    | None => handler s
    end.

(** The size test and removal applied to every [_b.img] entry. *)
Definition drop_empty_b (file_name : string) : M unit :=
  when (endswith file_name "_b.img")
       (sz ← getsize E file_name; when (sz =? 0) (remove file_name)).

(** One iteration of the listing loop of the [form == 'super'] branch. *)
Definition normalize_super (file_name : string) : M unit :=
  let target := str_replace file_name "_a" "" in
  target_exists ← exists_ target;
  when (endswith file_name "_a.img" && negb target_exists)
       (rename file_name target);;
  drop_empty_b file_name.

(** One iteration of the listing loop run for a nested super image.
    When both images exist the next test evaluates [pathlib.Path(...)];
    tool.py binds no name [pathlib], so that a [NameError] is raised
    there and neither the removal nor the rename that follow is
    reached. *)
Definition normalize_nested (file_name : string) : M unit :=
  let target := str_replace file_name "_a" "" in
  when (endswith file_name "_a.img")
       (src_exists ← exists_ file_name;
        dst_exists ← exists_ target;
        if src_exists && dst_exists then raise
        else rename file_name target);;
  drop_empty_b file_name.

(** [for file_name in os.listdir(work)]: the listing is taken once. *)
Definition for_listing (body : string -> M unit) : M unit :=
  names ← (fun s => Val (listdir E (fs s)) s);
  for_each body names.

(** The branch [form == 'super']. *)
Definition unpack_super (chose : list string) : M unit :=
  file_type ← type_of "super.img";
  when (String.eqb file_type "sparse")
       (print (lang E "text79" +:+ "super.img [" +:+ file_type +:+ "]");;
        run_simg2img "super.img"
          (message_pop (fmt E (lang E "warn11") [ "super.img" ])));;
  t ← type_of "super.img";
  when (String.eqb t "super")
       (info ← (fun s => Val (get_info E (fs s) "super.img") s);
        set_part "super_info" (RSuper info);;
        collab "lpunpack.unpack" ((work +:+ "super.img") :: work :: chose)
               (lpunpack E "super.img" (Some chose));;
        for_listing normalize_super;;
        p ← get_parts; json_write p;;
        set_parts ∅);;
  return_ true.

(** Step (a): a [.zst] sidecar ends the whole call. *)
Definition step_zst (i : string) : M unit :=
  b ← exists_ (i +:+ ".zst");
  when b
       (print (lang E "text79" +:+ " " +:+ i +:+ ".zst");;
        _ ← run_call [ "zstd"; "--rm"; "-d"; path (i +:+ ".zst") ];
        return_ true).

(** Step (b): [.new.dat.xz] and [.new.dat.br] sidecars. *)
Definition step_xz (i : string) : M unit :=
  b ← exists_ (i +:+ ".new.dat.xz");
  when b
       (print (lang E "text79" +:+ i +:+ ".new.dat.xz");;
        collab "Unxz" [ path (i +:+ ".new.dat.xz") ]
               (Unxz E (i +:+ ".new.dat.xz"))).

Definition step_br (i : string) : M unit :=
  b ← exists_ (i +:+ ".new.dat.br");
  when b
       (print (lang E "text79" +:+ i +:+ ".new.dat.br");;
        _ ← run_call [ "brotli"; "-dj"; path (i +:+ ".new.dat.br") ];
        mret tt).

(** Step (c): multi-part transfer files.  [segment i n] is
    [f"{i}.new.dat.{n}"]. *)
Definition segment (i : string) (n : Z) : string :=
  i +:+ ".new.dat." +:+ str_int n.

Definition append_segment (i : string) (n : Z) : M unit :=
  b ← exists_ (segment i n);
  when b
       (print (fmt E (lang E "text83") [ segment i n; i +:+ ".new.dat" ]);;
        data ← read_file (segment i n);
        append_file (i +:+ ".new.dat") data;;
        remove (segment i n)).

Definition range100 : list Z := map Z.of_nat (seq 0 100).

Definition reassemble (i : string) : M unit :=
  b ← exists_ (i +:+ ".new.dat.1");
  when b
       (open_append (i +:+ ".new.dat");;
        for_each (append_segment i) range100).

(** Step (d): transfer-list replay. *)
Definition replay_transfer (i : string) : M unit :=
  let dat := i +:+ ".new.dat" in
  let transferfile := i +:+ ".transfer.list" in
  let img := i +:+ ".img" in
  b ← exists_ dat;
  when b
       (print (lang E "text79" +:+ path dat);;
        sz ← getsize E dat;
        when (negb (sz =? 0))
             (has_list ← exists_ transferfile;
              if has_list : bool then
                version ← (fun s =>
                   let '(d, v) := Sdat2img E transferfile dat img (fs s) in
                   Val v (with_event (Invoked "Sdat2img"
                                        [ path transferfile; path dat; path img ])
                                     (with_fs d s)));
                set_part "dat_ver" (RDatVer version);;
                has_img ← exists_ img;
                if has_img : bool then
                  remove dat;;
                  remove transferfile;;
                  try_ (remove (i +:+ ".patch.dat"))
                else print "File May Not Extracted."
              else print ("transferfile" +:+ lang E "text84"))).

(** The nested-super branch of the image processing. *)
Definition nested_super (i : string) : M unit :=
  let img := i +:+ ".img" in
  info ← (fun s => Val (get_info E (fs s) img) s);
  set_part "super_info" (RSuper info);;
  collab "lpunpack.unpack" [ path img; work ] (lpunpack E img None);;
  for_listing normalize_nested;;
  p ← get_parts; json_write p;;
  set_parts ∅.

(** The [ext] branch: mount-point sniffing, extraction, removal of the
    image when the output directory exists. *)
Definition extract_ext (i : string) : M unit :=
  let img := i +:+ ".img" in
  mount ← (fun s => Val (mount_point E (fs s) img) s);
  let mount := match mount with
               | String "/" rest => rest
               | _ => mount
               end in
  let mount := if existsb (Ascii.eqb "/") (chars mount) then basename mount
               else mount in
  when (negb (String.eqb mount i) && negb (String.eqb mount "")
        && negb (String.eqb i "mi_ext"))
       (set_part mount (RType "ext"));;
  collab "imgextractor" [ work +:+ img; path i; work ] (imgextractor E i);;
  extracted ← exists_ i;
  when extracted
       (try_catch (remove img)
                  (message_pop (fmt E (lang E "warn11") [ img ]))).

(** The [erofs] and [f2fs] branches: a non-zero exit status prints a
    line and moves on to the next partition. *)
Definition extract_by_tool (i : string) (argv : list string) : M unit :=
  let img := i +:+ ".img" in
  rc ← run_call argv;
  if negb (rc =? 0) then print "Unpack failed...";; continue_
  else
    extracted ← exists_ i;
    when extracted
         (try_catch (remove img)
                    (message_pop (fmt E (lang E "warn11") [ img ]))).

(** Everything done once [f"{work}/{i}.img"] exists. *)
Definition process_image (i : string) : M unit :=
  let img := i +:+ ".img" in
  p ← get_parts; set_parts (delete i p);;
  t ← type_of img;
  when (negb (String.eqb t "sparse")) (set_part i (RType t));;
  t ← type_of img;
  when (String.eqb t "dtbo") (collab "un_dtbo" [ i ] (un_dtbo E i));;
  t ← type_of img;
  when (String.eqb t "boot" || String.eqb t "vendor_boot")
       (collab "unpack_boot" [ i ] (unpack_boot E i));;
  when (String.eqb i "logo")
       (ok ← (fun s => Val (logo_check E (fs s) img) s);
        when ok (collab "logo_dump" [ path img; i ] (logo_dump E i)));;
  t ← type_of img;
  when (String.eqb t "vbmeta")
       (print (lang E "text85" +:+ "AVB:" +:+ i);;
        collab "Vbpatch.disavb" [ path img ] (disavb E img));;
  file_type ← type_of img;
  when (String.eqb file_type "sparse")
       (print (lang E "text79" +:+ i +:+ ".img[" +:+ file_type +:+ "]");;
        run_simg2img img (message_pop (fmt E (lang E "warn11") [ img ])));;
  p ← get_parts;
  when (negb (bool_decide (is_Some (p !! i))))
       (t ← type_of img; set_part i (RType t));;
  print (lang E "text79" +:+ i +:+ ".img[" +:+ file_type +:+ "]");;
  t ← type_of img;
  when (String.eqb t "super") (nested_super i);;
  file_type ← type_of img;
  when (String.eqb file_type "ext") (extract_ext i);;
  when (String.eqb file_type "romfs")
       (collab "RomfsParse.extract" [ work +:+ img; work ] (romfs_extract E img));;
  when (String.eqb file_type "guoke_logo")
       (collab "GuoKeLogo.unpack" [ work +:+ img; path i ] (guoke_unpack E i));;
  when (String.eqb file_type "erofs")
       (extract_by_tool i [ "extract.erofs"; "-i"; work +:+ img; "-o"; work; "-x" ]);;
  when (String.eqb file_type "f2fs")
       (extract_by_tool i [ "extract.f2fs"; "-o"; work; work +:+ img ]);;
  empty ← (fun s => Val (is_empty_img E (fs s) img) s);
  when (String.eqb file_type "unknown" && empty) (print (lang E "text141")).

(** The body of [for i in chose]. *)
Definition unpack_one (i : string) : M unit :=
  step_zst i;;
  step_xz i;;
  step_br i;;
  reassemble i;;
  replay_transfer i;;
  has_img ← exists_ (i +:+ ".img");
  when has_img (process_image i).

(** What follows the loop. *)
Definition finish : M unit :=
  has_config ← exists_ "config";
  when (negb has_config) (makedirs "config");;
  p ← get_parts; json_write p;;
  set_parts ∅;;
  print (lang E "text8");;
  return_ true.

(** The body of [unpack(chose, form)], given what its two guards
    evaluate to: [project_exists] is the value of
    [project_manger.exist()] and [work_exists] that of
    [os.path.exists(project_manger.current_work_path())]; see
    [unpack_project] for the guards themselves. *)
Definition unpack_body (project_exists work_exists : bool) (chose : list string)
    (form : string) : M unit :=
  if negb project_exists then message_pop (lang E "warn1");; return_ false
  else if negb work_exists then message_pop (lang E "warn1");; return_ false
  else
    p ← json_read; set_parts p;;
    match chose with
    | [] => return_ false
    | _ :: _ =>
        if String.eqb form "payload" then
          print (lang E "text79" +:+ "payload");;
          ((fun s =>
              let s := with_event (Invoked "Dumper.run" chose) s in
              match payload_dump E chose false (fs s) with
              | Some d => Done true (with_fs d s)
              | None =>
                  match payload_dump E chose true (fs s) with
                  | Some d => Done true (with_fs d s)
                  | None => Raised s
                  end
              end) : M unit)
        else if String.eqb form "super" then
          print (lang E "text79" +:+ "Super");;
          unpack_super chose
        else if String.eqb form "update.app" then
          collab "splituapp.extract" ((work +:+ "/UPDATE.APP") :: work :: chose)
                 (splituapp E chose);;
          return_ true
        else
          for_each unpack_one chose;;
          finish
    end.

(** [unpack] as callers see it: the [@animation] decorator catches what
    the body raises, and the call then returns [None]. *)
Definition unpack (project_exists work_exists : bool) (chose : list string)
    (form : string) : M unit :=
  try_ (unpack_body project_exists work_exists chose form).

(** *** The guards of [unpack]

    [project_manger.exist()] and [project_manger.current_work_path()],
    on a host where [os.name] is not ['nt'] (there nothing runs before
    the guards). *)

(** [settings.project_struct]: ['single'] or anything else. *)
Inductive project_struct : Type := Single | Split.

(** What the project manager works on: the selected project
    ([current_project_name.get()]), the layout, and whether the
    directory named by [current_work_path()] exists. *)
Record project : Type := Project {
  project_name : string;
  struct : project_struct;
  work_dir_exists : bool
}.

(** [current_work_path()]: in the split layout a missing [Source]
    directory is created when a project is selected. *)
Definition current_work_path (p : project) : project :=
  match struct p with
  | Single => p
  | Split =>
      if negb (work_dir_exists p) && negb (String.eqb (project_name p) "")
      then Project (project_name p) Split true
      else p
  end.

(** [exist()] without an argument. *)
Definition exist (p : project) : bool * project :=
  if String.eqb (project_name p) "" then (false, p)
  else let p := current_work_path p in (work_dir_exists p, p).

(** [unpack(chose, form)] on a project: the project as the guards leave
    it, and the call with the values the guards had. *)
Definition unpack_project (p : project) (chose : list string) (form : string)
    : project * M unit :=
  let '(project_exists, p) := exist p in
  if negb project_exists then (p, unpack false false chose form)
  else
    let p := current_work_path p in
    (p, unpack true (work_dir_exists p) chose form).

End WithEnv.

(** *** A sample environment

    A toy instance of the collaborators, used to run the engine on
    concrete directories.  A file's format tag is the text before the
    first dot of its content ([erofs.<data>] is an erofs image); the
    extractors create the partition's directory and exit 0 unless the
    partition is listed in [failing], in which case they exit 1 and
    touch nothing; [lpunpack] writes the images listed in
    [super_parts]. *)

Definition bytes (s : string) : list byte := list_byte_of_string s.

Definition sample_gettype (d : dir) (name : string) : string :=
  match d !! name with
  | Some (File data) => before_dot (string_of_list_byte data)
  | Some Folder => "unknown"
  | None => "fne"
  end.

(** The partition an image path belongs to: [/rom/system.img] gives
    [system]. *)
Definition part_of (p : string) : string := before_dot (basename p).

Definition sample_extract (failing : list string) (img_path : string) (d : dir)
    : dir * Z :=
  if bool_decide (part_of img_path ∈ failing) then (d, 1)
  else (<[part_of img_path := Folder]> d, 0).

Definition sample_call (failing : list string) (argv : list string) (d : dir)
    : dir * Z :=
  match argv with
  | [ "extract.erofs"; "-i"; img_path; "-o"; _; "-x" ] =>
      sample_extract failing img_path d
  | [ "extract.f2fs"; "-o"; _; img_path ] =>
      sample_extract failing img_path d
  | [ "zstd"; "--rm"; "-d"; zst_path ] =>
      if bool_decide (part_of zst_path ∈ failing) then (d, 1)
      else
        match d !! basename zst_path with
        | Some n => (<[part_of zst_path +:+ ".img" := n]> (delete (basename zst_path) d), 0)
        | None => (d, 1)
        end
  | [ "img2simg"; src; dst ] =>
      match d !! basename src with
      | Some (File data) => (<[basename dst := File (bytes "sparse." ++ data)]> d, 0)
      | _ => (d, 1)
      end
  | _ => (d, 0)
  end.

Definition sample_simg2img (name : string) (d : dir) : option dir :=
  match d !! name with
  | Some (File data) => Some (<[name := File (skipn 7 data)]> d)
  | _ => None
  end.

Definition sample_Sdat2img (transferfile dat img : string) (d : dir) : dir * Z :=
  match d !! dat with
  | Some n => (<[img := n]> d, 4)
  | None => (d, 4)
  end.

Definition sample_img2sdat (img : string) (version : Z) (name : string) (d : dir)
    : dir :=
  match d !! img with
  | Some n => <[name +:+ ".transfer.list" := File (bytes (str_int version))]>
              (<[name +:+ ".new.dat" := n]> d)
  | None => d
  end.

Definition sample_lpunpack (super_parts : list (string * list byte))
    (name : string) (chose : option (list string)) (d : dir) : dir :=
  fold_left (fun d '(part, data) => <[part +:+ ".img" := File data]> d)
            super_parts d.

Definition sample_env (failing : list string)
    (super_parts : list (string * list byte)) : env :=
  {| call := sample_call failing;
     Unxz := fun _ d => d;
     Sdat2img := sample_Sdat2img;
     img2sdat := sample_img2sdat;
     simg2img := sample_simg2img;
     gettype := sample_gettype;
     listdir := fun d => (map_to_list d).*1;
     un_dtbo := fun _ d => d;
     unpack_boot := fun _ d => d;
     logo_check := fun _ _ => true;
     logo_dump := fun _ d => d;
     disavb := fun _ d => d;
     get_info := fun _ _ => SuperInfo [] [] [];
     lpunpack := sample_lpunpack super_parts;
     mount_point := fun _ name => "/" +:+ before_dot name;
     imgextractor := fun i d => <[i := Folder]> d;
     romfs_extract := fun _ d => d;
     guoke_unpack := fun _ d => d;
     is_empty_img := fun _ _ => false;
     payload_dump := fun _ _ d => Some d;
     splituapp := fun _ d => d;
     folder_size := 4096;
     lang := fun key => "<" +:+ key +:+ ">";
     fmt := fun template args => template +:+ String.concat "," args |}.

(** The same environment with a sparse-to-raw codec that always
    raises. *)
Definition broken_codec_env : env :=
  let E := sample_env [] [] in
  {| call := call E;
     Unxz := Unxz E;
     Sdat2img := Sdat2img E;
     img2sdat := img2sdat E;
     simg2img := fun _ _ => None;
     gettype := gettype E;
     listdir := listdir E;
     un_dtbo := un_dtbo E;
     unpack_boot := unpack_boot E;
     logo_check := logo_check E;
     logo_dump := logo_dump E;
     disavb := disavb E;
     get_info := get_info E;
     lpunpack := lpunpack E;
     mount_point := mount_point E;
     imgextractor := imgextractor E;
     romfs_extract := romfs_extract E;
     guoke_unpack := guoke_unpack E;
     is_empty_img := is_empty_img E;
     payload_dump := payload_dump E;
     splituapp := splituapp E;
     folder_size := folder_size E;
     lang := lang E;
     fmt := fmt E |}.

Definition start_state (d : dir) : state := State d ∅ None [].

(** *** Vocabulary for the statements about [unpack] *)

(** The bytes of segment [n] of partition [i] in directory [d] (nothing
    when there is no such file). *)
Definition segment_data (d : dir) (i : string) (n : Z) : list byte :=
  match d !! segment i n with
  | Some (File data) => data
  | _ => []
  end.

(** The bytes of an entry that is a file, nothing otherwise. *)
Definition file_data (d : dir) (name : string) : list byte :=
  match d !! name with
  | Some (File data) => data
  | _ => []
  end.

(** A partition of the loose path that comes as a plain image: no
    [.zst], [.new.dat.xz], [.new.dat.br], [.new.dat.1] or [.new.dat]
    entry beside it. *)
Definition no_sidecars (d : dir) (i : string) : Prop :=
  d !! (i +:+ ".zst") = None /\
  d !! (i +:+ ".new.dat.xz") = None /\
  d !! (i +:+ ".new.dat.br") = None /\
  d !! (i +:+ ".new.dat.1") = None /\
  d !! (i +:+ ".new.dat") = None.

(** The argument vector of the extractor for an [erofs] or [f2fs]
    image. *)
Definition extractor_argv (work file_type i : string) : list string :=
  if String.eqb file_type "erofs"
  then [ "extract.erofs"; "-i"; work +:+ i +:+ ".img"; "-o"; work; "-x" ]
  else [ "extract.f2fs"; "-o"; work; work +:+ i +:+ ".img" ].

(** Three images; the extractor of [vendor] will fail. *)
Definition dir_three : dir :=
  {[ "system.img" := File (bytes "erofs.s");
     "vendor.img" := File (bytes "erofs.v");
     "product.img" := File (bytes "f2fs.p") ]}.

(** A sparse image of an [erofs] file system. *)
Definition dir_sparse : dir :=
  {[ "system.img" := File (bytes "sparse.erofs.s") ]}.


(** The images of an A/B super image as [lpunpack] leaves them: a
    filled [_a] slot and an empty [_b] slot. *)
Definition dir_slots : dir :=
  {[ "system_a.img" := File (bytes "erofs.s");
     "system_b.img" := File [] ]}.

(** A directory holding a transfer-list pair with an empty patch file. *)
Definition dir_transfer : dir :=
  {[ "system.new.dat" := File (bytes "erofs.blocks");
     "system.transfer.list" := File (bytes "4");
     "system.patch.dat" := File [] ]}.

(** The same pair without its transfer list. *)
Definition dir_no_list : dir :=
  {[ "system.new.dat" := File (bytes "erofs.blocks") ]}.

(** A directory with three segments of [system], a segment numbered 100
    and an earlier partial [system.new.dat]. *)
Definition dir_segments : dir :=
  {[ "system.new.dat" := File (bytes "head");
     "system.new.dat.0" := File (bytes "s0");
     "system.new.dat.1" := File (bytes "s1");
     "system.new.dat.2" := File (bytes "s2");
     "system.new.dat.100" := File (bytes "s100") ]}.

End Unpack.

(** ** The Compressed-Transfer Pipeline: [img2simg], [datbr],
       [FormatConversion.conversion] *)

Module Conversion.
Import Engine Unpack.

(** [s.rsplit(sep, 1)[0]]: the part before the last occurrence of
    [sep], the whole of [s] when there is none. *)
Fixpoint rsplit_go (sep t : text) : option text :=
  match t with
  | [] => None
  | c :: t' =>
      match rsplit_go sep t' with
      | Some pre => Some (c :: pre)
      | None => if is_prefix sep t then Some [] else None
      end
  end.

Definition rsplit_head (s sep : string) : string :=
  match rsplit_go (chars sep) (chars s) with
  | Some pre => string_of_list_ascii pre
  | None => s
  end.

Section WithEnv.

Variable E : env.

(** [work] is [project_manger.current_work_output_path()]. *)
Variable work : string.

(** [img2simg(path)] for the entry [name]: the codec writes
    [<path>s]; only when that file exists is the source removed and
    the new file moved over it. *)
Definition img2simg (name : string) : M unit :=
  _ ← run_call E [ "img2simg"; path work name; path work name +:+ "s" ];
  made ← exists_ (name +:+ "s");
  when made (try_ (remove name;; rename (name +:+ "s") name)).

(** The body of [datbr(work, name, brl, dat_ver)]; [brl] is [None] for
    ["dat"] and the brotli level otherwise. *)
Definition datbr_body (name : string) (brl : option Z) (dat_ver : Z) : M unit :=
  let img := name +:+ ".img" in
  let dat := name +:+ ".new.dat" in
  print (fmt E (lang E "text86") [ name; name ]);;
  has_img ← exists_ img;
  if negb has_img then print (path work img +:+ lang E "text84")
  else
    collab "img2sdat" [ path work img; work; str_int dat_ver; name ]
           (img2sdat E img dat_ver name);;
    has_dat ← exists_ dat;
    when has_dat (try_catch (remove img) (remove img));;
    match brl with
    | None => print (fmt E (lang E "text87") [ name ])
    | Some level =>
        print (fmt E (lang E "text88") [ name; "br" ]);;
        _ ← run_call E [ "brotli"; "-q"; str_int level; "-j"; "-w"; "24";
                         path work dat; "-o"; path work dat +:+ ".br" ];
        still ← exists_ dat;
        when still (try_ (remove dat));;
        print (fmt E (lang E "text89") [ name; "br" ])
    end.

(** [datbr] carries the [@animation] decorator, which swallows what the
    body raises. *)
Definition datbr (name : string) (brl : option Z) (dat_ver : Z) : M unit :=
  try_ (datbr_body name brl dat_ver).

(** The transfer-list replay of the [raw] target: the patch file is
    removed only when it is empty. *)
Definition replay_to_raw (i basename : string) : M unit :=
  let transferfile := basename +:+ ".transfer.list" in
  let img := basename +:+ ".img" in
  print (lang E "text79" +:+ path work i);;
  has_list ← exists_ transferfile;
  sz ← (if has_list : bool then getsize E i else ret 0);
  if has_list && negb (sz =? 0) then
    collab "Sdat2img" [ path work transferfile; path work i; path work img ]
           (fun d => fst (Sdat2img E transferfile i img d));;
    has_img ← exists_ img;
    when has_img
         (try_ (remove i;;
                remove transferfile;;
                psz ← getsize E (basename +:+ ".patch.dat");
                when (psz =? 0) (remove (basename +:+ ".patch.dat"))))
  else print ("transferfile" +:+ lang E "text84").

(** The transfer-list replay of the [sparse] target: the patch file is
    removed whatever its size. *)
Definition replay_to_sparse (i basename : string) : M unit :=
  let transferfile := basename +:+ ".transfer.list" in
  let img := basename +:+ ".img" in
  print (lang E "text79" +:+ path work i);;
  has_list ← exists_ transferfile;
  sz ← (if has_list : bool then getsize E i else ret 0);
  if has_list && negb (sz =? 0) then
    collab "Sdat2img" [ path work transferfile; path work i; path work img ]
           (fun d => fst (Sdat2img E transferfile i img d));;
    has_img ← exists_ img;
    when has_img
         (remove i;;
          remove transferfile;;
          try_ (remove (basename +:+ ".patch.dat")))
  else print ("transferpath" +:+ lang E "text84").

(** [call(['brotli', '-dj', path])] and [Unxz(path)] guarded by
    [os.access]. *)
Definition unbrotli (i : string) : M unit :=
  print (lang E "text79" +:+ i);;
  _ ← run_call E [ "brotli"; "-dj"; path work i ];
  ret tt.

Definition unxz (i : string) : M unit :=
  print (lang E "text79" +:+ i);;
  collab "Unxz" [ path work i ] (Unxz E i).

(** The body of the loop of [conversion] for one selected entry [i];
    [hget] is the source format, [f_get] the target format,
    [work_exists] is [os.path.exists(work)]. *)
Definition convert_one (work_exists : bool) (hget f_get i : string) : M unit :=
  print ("[" +:+ hget +:+ "->" +:+ f_get +:+ "]" +:+ i);;
  if String.eqb f_get "sparse" then
    let basename := before_dot (basename i) in
    when (String.eqb hget "br") (b ← exists_ i; when b (unbrotli i));;
    when (String.eqb hget "xz") (b ← exists_ i; when b (unxz i));;
    when (String.eqb hget "dat")
         (b ← exists_ i;
          when b (replay_to_sparse i basename);;
          has_img ← exists_ (basename +:+ ".img");
          when has_img (img2simg (basename +:+ ".img")));;
    when (String.eqb hget "raw")
         (has_img ← exists_ (basename +:+ ".img");
          when has_img (img2simg (basename +:+ ".img")))
  else if String.eqb f_get "raw" then
    let basename := before_dot (basename i) in
    when (String.eqb hget "br") (b ← exists_ i; when b (unbrotli i));;
    when (String.eqb hget "xz") (b ← exists_ i; when b (unxz i));;
    when ((String.eqb hget "dat" || String.eqb hget "br" || String.eqb hget "xz")
          && work_exists)
         (let i := if String.eqb hget "br" then str_replace i ".br" "" else i in
          let i := if String.eqb hget "xz" then str_replace i ".xz" "" else i in
          replay_to_raw i basename);;
    when (String.eqb hget "sparse")
         (fun s =>
            let s := with_event (Invoked "simg2img" [ path work i ]) s in
            match simg2img E i (fs s) with
            | Some d => Val tt (with_fs d s)
            | None => Raised s
            end)
  else if String.eqb f_get "dat" then
    when (String.eqb hget "raw") (img2simg i);;
    when (String.eqb hget "raw" || String.eqb hget "sparse")
         (datbr (before_dot (basename i)) None 4);;
    when (String.eqb hget "br") (unbrotli i);;
    when (String.eqb hget "xz") (unxz i)
  else if String.eqb f_get "br" then
    when (String.eqb hget "raw") (img2simg i);;
    when (String.eqb hget "raw" || String.eqb hget "sparse")
         (datbr (before_dot (basename i)) (Some 0) 4);;
    when (String.eqb hget "dat" || String.eqb hget "xz")
         (let j := if String.eqb hget "xz" then rsplit_head i ".xz" else i in
          when (String.eqb hget "xz") (unxz i);;
          print (fmt E (lang E "text88") [ before_dot (basename j); "br" ]);;
          _ ← run_call E [ "brotli"; "-q"; "0"; "-j"; "-w"; "24"; path work j;
                           "-o"; path work j +:+ ".br" ];
          made ← exists_ (j +:+ ".br");
          when made (try_ (remove j)))
  else ret tt.

(** The body of [FormatConversion.conversion] on the selection: nothing
    at all when source and target format coincide. *)
Definition conversion_body (work_exists : bool) (hget f_get : string)
    (selection : list string) : M unit :=
  if String.eqb f_get hget then ret tt
  else
    for_each (convert_one work_exists hget f_get) selection;;
    print (lang E "text8").

(** [conversion] as callers see it: like [datbr] it carries the
    [@animation] decorator, which catches what the body raises. *)
Definition conversion (work_exists : bool) (hget f_get : string)
    (selection : list string) : M unit :=
  try_ (conversion_body work_exists hget f_get selection).

End WithEnv.

(** *** Vocabulary for the statements about the pipeline *)

(** The state a computation stops in. *)
Definition final_state {A : Type} (r : result A) : state :=
  match r with
  | Val _ s => s
  | Skip s => s
  | Done _ s => s
  | Raised s => s
  end.

(** [m] only appends events, and every event it appends satisfies [P]. *)
Definition emits {A : Type} (P : event -> Prop) (m : M A) : Prop :=
  forall s, exists l, events (final_state (m s)) = events s ++ l /\ Forall P l.

(** An event that is not a run of the sparse-to-raw codec. *)
Definition not_simg2img (e : event) : Prop :=
  match e with
  | Invoked tool _ => tool <> "simg2img"
  | _ => True
  end.

(** An event that is not a subprocess ([call]). *)
Definition not_subprocess (e : event) : Prop :=
  match e with
  | Invoked tool _ => tool <> "call"
  | _ => True
  end.

(** A name without dot and slash, such as a partition name. *)
Definition plain_name (name : string) : bool :=
  forallb (fun c => negb (Ascii.eqb c ".") && negb (Ascii.eqb c "/")) (chars name).

(** A raw image, and a transfer-list pair with a patch file that holds
    data. *)
Definition dir_raw : dir := {[ "system.img" := File (bytes "erofs.s") ]}.

Definition dir_patch : dir :=
  {[ "system.new.dat" := File (bytes "erofs.blocks");
     "system.transfer.list" := File (bytes "4");
     "system.patch.dat" := File (bytes "delta") ]}.

End Conversion.

(** * Theorems *)

(** ** Python numbers and strings *)

Lemma str_length_app (a b : string) :
  String.length (a +:+ b) = (String.length a + String.length b)%nat.
Proof. induction a as [|c a IH]; simpl; [reflexivity|]. now rewrite IH. Qed.

Lemma substring_all (b : string) : substring 0 (String.length b) b = b.
Proof. induction b as [|c b IH]; simpl; [reflexivity|]. now rewrite IH. Qed.

Lemma substring_app_r (a b : string) :
  substring (String.length a) (String.length b) (a +:+ b) = b.
Proof. induction a as [|c a IH]; simpl; [apply substring_all|exact IH]. Qed.

(** [(a + b).endswith(c)] for a [c] as long as [b]. *)
Lemma endswith_app (a b c : string) :
  String.length c = String.length b -> endswith (a +:+ b) c = String.eqb b c.
Proof.
  intros Hlen. unfold endswith. rewrite str_length_app, Hlen.
  replace (String.length a + String.length b - String.length b)%nat
    with (String.length a) by lia.
  rewrite substring_app_r.
  now replace (String.length b <=? String.length a + String.length b)%nat
    with true by (symmetry; apply Nat.leb_le; lia).
Qed.

Lemma chars_append (a b : string) : chars (a +:+ b) = chars a ++ chars b.
Proof. induction a as [|c a IH]; simpl; [reflexivity|]. now rewrite <- IH. Qed.

Lemma string_of_chars_app (a b : string) :
  string_of_list_ascii (chars a ++ chars b) = a +:+ b.
Proof.
  rewrite <- chars_append. apply string_of_list_ascii_of_string.
Qed.

(** Dropping the slot suffix by [replace('_a', '')] gives the stem when
    the stem itself holds no [_a]. *)
Lemma replace_go_clean (stem : text) :
  contains (chars "_a") stem = false ->
  replace_go (chars "_a") [] O (stem ++ chars "_a.img") = stem ++ chars ".img".
Proof.
  induction stem as [|c rest IH]; intros Hclean; [reflexivity|].
  cbn [contains] in Hclean. apply orb_false_iff in Hclean as [Hhere Hrest].
  change ((c :: rest) ++ chars "_a.img") with (c :: (rest ++ chars "_a.img")).
  cbn [replace_go].
  assert (is_prefix (chars "_a") (c :: rest ++ chars "_a.img") = false) as ->.
  { destruct rest as [|x rest]; [|exact Hhere].
    unfold chars. cbn [list_ascii_of_string is_prefix app].
    destruct (Ascii.eqb "_" c); reflexivity. }
  now rewrite IH.
Qed.

Lemma str_replace_slot (stem : string) :
  contains (chars "_a") (chars stem) = false ->
  str_replace (stem +:+ "_a.img") "_a" "" = stem +:+ ".img".
Proof.
  intros Hclean. unfold str_replace. rewrite chars_append.
  change (chars "") with (@nil ascii).
  rewrite (replace_go_clean _ Hclean).
  apply (string_of_chars_app stem ".img").
Qed.

Lemma str_int_inj (a b : Z) : str_int a = str_int b -> a = b.
Proof.
  unfold str_int. intros H.
  assert (forall z, NilZero.int_of_string (NilZero.string_of_int (Z.to_int z))
                    = Some (Z.to_int z)) as Hparse.
  { intros z. apply NilZero.isi; destruct z; simpl; try discriminate;
      intros [= Hnil]; now apply DecimalPos.Unsigned.to_uint_nonnil in Hnil. }
  pose proof (Hparse a) as Ha. rewrite H, Hparse in Ha.
  injection Ha as Ha. rewrite <- (DecimalZ.of_to a), <- (DecimalZ.of_to b).
  now rewrite Ha.
Qed.


Lemma py_int_floor (x : Q) : (0 <= x)%Q -> py_int x = Qfloor x.
Proof.
  destruct x as [n d]. unfold Qle, py_int, Qfloor. simpl. intros H.
  apply Z.quot_div_nonneg; lia.
Qed.

Lemma py_int_whole (z : Z) : py_int (inject_Z z / inject_Z 1) = z.
Proof.
  unfold py_int, Qdiv, Qmult, Qinv, inject_Z. simpl.
  rewrite Z.mul_1_r. apply Z.quot_1_r.
Qed.

Lemma py_int_of_Z (x : Q) (z : Z) : 0 <= z -> (x == inject_Z z)%Q -> py_int x = z.
Proof.
  intros Hz Hx. rewrite py_int_floor.
  - rewrite Hx. apply Qfloor_Z.
  - rewrite Hx. change 0%Q with (inject_Z 0). now rewrite <- Zle_Qle.
Qed.

Module SizeEstimatorProofs.
Import SizeEstimator.

(** *** Facts about the estimator *)

Lemma add_entry_mono (size : Z) (e : entry) : size <= add_entry size e.
Proof.
  unfold add_entry. destruct (isfile e), (getsize e); lia.
Qed.

Lemma fold_add_entry_mono (files : list entry) (size : Z) :
  size <= fold_left add_entry files size.
Proof.
  revert size. induction files as [|e files IH]; intros size; simpl.
  - lia.
  - specialize (IH (add_entry size e)). pose proof (add_entry_mono size e). lia.
Qed.

Lemma fold_dirs_mono (dirs : list (list entry)) (size : Z) :
  size <= fold_left (fun sz files => fold_left add_entry files sz) dirs size.
Proof.
  revert size. induction dirs as [|d dirs IH]; intros size; simpl.
  - lia.
  - specialize (IH (fold_left add_entry d size)).
    pose proof (fold_add_entry_mono d size). lia.
Qed.

Lemma walk_total_nonneg (t : tree) : 0 <= walk_total t.
Proof. apply fold_dirs_mono. Qed.

Lemma add_overhead_spec (T : Z) : (add_overhead T == total_spec T)%Q.
Proof.
  unfold add_overhead, total_spec.
  change (inject_Z (100 * 1024 * 1024)) with (inject_Z 104857600).
  change (inject_Z (16 * 1024 ^ 2)) with (inject_Z 16777216).
  change (inject_Z 16384) with (16384 # 1)%Q.
  change (inject_Z 256) with (256 # 1)%Q.
  destruct (Qlt_le_dec _ _); lra.
Qed.

Lemma add_overhead_ge (T : Z) : 0 <= T -> (inject_Z T <= add_overhead T)%Q.
Proof.
  intros HT. unfold add_overhead.
  assert (0 <= inject_Z T)%Q as H0 by (unfold Qle; simpl; lia).
  change (inject_Z (16 * 1024 ^ 2)) with (16777216 # 1)%Q.
  unfold Qdiv. change (/ 16384)%Q with (1 # 16384)%Q.
  destruct (Qlt_le_dec _ _) as [_|_]; lra.
Qed.

(** What [rsize_quantize] returns, case by case. *)
Lemma rsize_quantize_small (size : Q) :
  (size <= inject_Z 2097152)%Q -> rsize_quantize size = 2097152.
Proof.
  intros H. unfold rsize_quantize.
  apply Qle_bool_iff in H. now rewrite H.
Qed.

Lemma rsize_quantize_large (size : Q) :
  (inject_Z 2097152 < size)%Q ->
  let r := rsize_quantize size in
  r mod 4096 = 0 /\ Qfloor size <= r < Qfloor size + 4096.
Proof.
  intros H. unfold rsize_quantize.
  destruct (Qle_bool size (inject_Z 2097152)) eqn:E1.
  { apply Qle_bool_iff in E1. lra. }
  destruct (Qle_bool size (inject_Z 1048576)) eqn:E2.
  { apply Qle_bool_iff in E2. change (inject_Z 1048576) with (1048576 # 1)%Q in E2.
    change (inject_Z 2097152) with (2097152 # 1)%Q in H. lra. }
  rewrite py_int_floor
    by (change (inject_Z 2097152) with (2097152 # 1)%Q in H; lra).
  set (f := Qfloor size).
  pose proof (Z.mod_pos_bound f 4096 ltac:(lia)) as Hm.
  destruct (f mod 4096 =? 0) eqn:E3; simpl.
  - apply Z.eqb_eq in E3. lia.
  - apply Z.eqb_neq in E3. split; [|lia].
    replace (f + (4096 - f mod 4096)) with (4096 * (f / 4096 + 1)).
    + rewrite Z.mul_comm. apply Z.mod_mul. lia.
    + pose proof (Z.div_mod f 4096 ltac:(lia)). lia.
Qed.

(** The [size <= 1048576] branch can never be taken. *)
Lemma rsize_quantize_never_1MiB (size : Q) : rsize_quantize size <> 1048576.
Proof.
  unfold rsize_quantize.
  destruct (Qle_bool size (inject_Z 2097152)) eqn:E1; [lia|].
  destruct (Qle_bool size (inject_Z 1048576)) eqn:E2.
  { apply Qle_bool_iff in E2.
    assert (~ (size <= inject_Z 2097152)%Q) as Hn
      by (intros Hle; apply Qle_bool_iff in Hle; congruence).
    change (inject_Z 1048576) with (1048576 # 1)%Q in E2.
    change (inject_Z 2097152) with (2097152 # 1)%Q in Hn. lra. }
  assert (inject_Z 2097152 < size)%Q as Hlt.
  { apply Qnot_le_lt. intros Hle. apply Qle_bool_iff in Hle. congruence. }
  pose proof (rsize_quantize_large size Hlt) as [_ [Hlo _]].
  unfold rsize_quantize in Hlo. rewrite E1, E2 in Hlo.
  assert (2097152 <= Qfloor size).
  { change 2097152 with (Qfloor (inject_Z 2097152)).
    apply Qfloor_resp_le. lra. }
  lia.
Qed.

Lemma estimate_eq (t : tree) :
  estimate t 1 = Some (PInt (rsize_quantize (get_dir_size t))).
Proof.
  unfold estimate, GetFolderSize, rsize. simpl.
  now rewrite py_int_whole.
Qed.

(** C1 (as stated, refuted): for the tree [tree_above_boundary] the total
    is 2,134,016.015625, which rounded up to the next 4096-byte boundary
    is 2,138,112; [GetFolderSize] truncates the total first and returns
    2,134,016, a value below the total. *)
Lemma C1_counterexample :
  estimate tree_above_boundary 1 = Some (PInt 2134016) /\
  (inject_Z 2134016 < total_spec (walk_total tree_above_boundary))%Q /\
  quantize_spec (total_spec (walk_total tree_above_boundary)) = 2138112 /\
  estimate tree_above_boundary 1
    <> Some (PInt (quantize_spec (total_spec (walk_total tree_above_boundary)))).
Proof.
  assert (estimate tree_above_boundary 1 = Some (PInt 2134016)) as E
    by (vm_compute; reflexivity).
  assert (quantize_spec (total_spec (walk_total tree_above_boundary)) = 2138112)
    as Q by (vm_compute; reflexivity).
  repeat split; try assumption.
  rewrite E, Q. intros H. inversion H.
Qed.

(** C1 (amended): with divisor 1 the estimator returns an [int] [r]
    computed from the total [T + T/16384*256 (+ 16 MiB past 100 MiB)] of
    the content sum [T]: totals up to 2 MiB give exactly 2,097,152, the
    1 MiB result never occurs, and for larger totals [r] is the least
    multiple of 4096 not below the integer part of the total; a content
    sum of 1,500,000 gives 2,097,152. *)
Theorem C1_estimate_quantized (t : tree) :
  walk_total t < 2 ^ 46 ->
  (get_dir_size t == total_spec (walk_total t))%Q /\
  exists r : Z,
    estimate t 1 = Some (PInt r) /\ estimate_post (walk_total t) r.
Proof.
  intros _. split; [apply add_overhead_spec|].
  exists (rsize_quantize (get_dir_size t)). split; [apply estimate_eq|].
  pose proof (add_overhead_spec (walk_total t)) as Heq.
  fold (get_dir_size t) in Heq.
  unfold estimate_post; cbv zeta.
  split; [|split; [|split]].
  - intros H. apply rsize_quantize_small. now rewrite Heq.
  - intros H. rewrite <- Heq. apply rsize_quantize_large. now rewrite Heq.
  - apply rsize_quantize_never_1MiB.
  - intros HT. apply rsize_quantize_small. rewrite Heq, HT.
    vm_compute. discriminate.
Qed.

Lemma C1_estimate_quantized_witness :
  walk_total tree_1500000 < 2 ^ 46 /\
  (get_dir_size tree_1500000 == total_spec (walk_total tree_1500000))%Q /\
  exists r : Z,
    estimate tree_1500000 1 = Some (PInt r) /\
    estimate_post (walk_total tree_1500000) r.
Proof.
  split; [vm_compute; reflexivity|].
  apply (C1_estimate_quantized tree_1500000). vm_compute. reflexivity.
Defined.

Lemma split_lines_cons (t : text) : exists l ls, split_lines t = l :: ls.
Proof.
  induction t as [|c t [l [ls IH]]]; simpl; [eauto|].
  destruct (Ascii.eqb c LF); [eauto|]. rewrite IH. eauto.
Qed.

Lemma join_split_lines (t : text) : join_lines (split_lines t) = t.
Proof.
  induction t as [|c t IH]; [reflexivity|]. simpl.
  destruct (Ascii.eqb c LF) eqn:E.
  - apply Ascii.eqb_eq in E. subst c.
    destruct (split_lines_cons t) as [l [ls Hs]].
    change (join_lines ([] :: split_lines t)) with
      (match split_lines t with [] => [] | _ :: _ => [] ++ LF :: join_lines (split_lines t) end).
    rewrite Hs at 1. simpl. now rewrite IH.
  - destruct (split_lines t) as [|l ls]; simpl in *; [now subst|].
    destruct ls; simpl in *; now subst.
Qed.

Lemma split_lines_no_LF (t : text) : Forall (fun l => LF ∉ l) (split_lines t).
Proof.
  induction t as [|c t IH]; simpl.
  - repeat constructor. apply not_elem_of_nil.
  - destruct (Ascii.eqb c LF) eqn:E.
    + constructor; [apply not_elem_of_nil|exact IH].
    + apply Ascii.eqb_neq in E.
      destruct (split_lines t) as [|l ls].
      * repeat constructor. apply not_elem_of_cons. split; [congruence|apply not_elem_of_nil].
      * inversion IH; subst. constructor; [|assumption].
        apply not_elem_of_cons. split; [congruence|assumption].
Qed.

Lemma is_prefix_app_LF (lit l rest : text) :
  LF ∉ lit -> is_prefix lit (l ++ LF :: rest) = is_prefix lit l.
Proof.
  revert l. induction lit as [|a lit IH]; intros l H; [now destruct l|].
  apply not_elem_of_cons in H as [Ha Hl].
  destruct l as [|b l]; simpl.
  - destruct (Ascii.eqb a LF) eqn:E; [|reflexivity].
    apply Ascii.eqb_eq in E. congruence.
  - destruct (Ascii.eqb a b); [now apply IH|reflexivity].
Qed.

Lemma is_prefix_length (lit l : text) :
  is_prefix lit l = true -> (length lit <= length l)%nat.
Proof.
  revert l. induction lit as [|a lit IH]; intros [|b l] H; simpl in *;
    try lia; try discriminate.
  destruct (Ascii.eqb a b); [|discriminate]. apply IH in H. lia.
Qed.

Lemma digit_run_app_LF (l rest : text) :
  digit_run (l ++ LF :: rest) = digit_run l.
Proof.
  induction l as [|c l IH]; simpl; [reflexivity|].
  destruct (is_digit c); congruence.
Qed.

Lemma digit_run_le (t : text) : (digit_run t <= length t)%nat.
Proof.
  induction t as [|c t IH]; simpl; [lia|]. destruct (is_digit c); lia.
Qed.

Lemma match_at_app_LF (lit l rest : text) :
  LF ∉ lit -> match_at lit (l ++ LF :: rest) = match_at lit l.
Proof.
  intros H. unfold match_at. rewrite is_prefix_app_LF by assumption.
  destruct (is_prefix lit l) eqn:E; [|reflexivity].
  apply is_prefix_length in E.
  rewrite drop_app_le by assumption. now rewrite digit_run_app_LF.
Qed.

Lemma match_at_bound (lit l : text) (n : nat) :
  match_at lit l = Some n -> (1 <= n <= length l)%nat.
Proof.
  unfold match_at. destruct (is_prefix lit l) eqn:E; [|discriminate].
  apply is_prefix_length in E.
  pose proof (digit_run_le (drop (length lit) l)) as Hd.
  rewrite length_drop in Hd.
  destruct (digit_run (drop (length lit) l)); [discriminate|].
  intros [= <-]. lia.
Qed.

Lemma re_sub_go_app_LF (lit repl l rest : text) (skip : nat) :
  LF ∉ lit -> (skip <= length l)%nat ->
  re_sub_go lit repl skip (l ++ LF :: rest)
  = re_sub_go lit repl skip l ++ LF :: re_sub_go lit repl O rest.
Proof.
  intros Hlit. revert skip. induction l as [|c l IH]; intros skip Hs.
  - simpl in Hs. assert (skip = O) as -> by lia.
    change ([] ++ LF :: rest) with (LF :: rest).
    cbn [re_sub_go]. rewrite <- (app_nil_l (LF :: rest)) at 1.
    rewrite match_at_app_LF by assumption.
    unfold match_at at 1.
    destruct lit; simpl; reflexivity.
  - destruct skip as [|k].
    + change ((c :: l) ++ LF :: rest) with (c :: (l ++ LF :: rest)).
      cbn [re_sub_go].
      change (c :: (l ++ LF :: rest)) with ((c :: l) ++ LF :: rest).
      rewrite match_at_app_LF by assumption.
      destruct (match_at lit (c :: l)) as [n|] eqn:E.
      * apply match_at_bound in E. simpl in E.
        rewrite IH by lia. now rewrite app_assoc.
      * rewrite IH by lia. reflexivity.
    + simpl in *. apply IH. lia.
Qed.

Lemma re_sub_go_no_LF (lit repl l : text) (skip : nat) :
  LF ∉ repl -> LF ∉ l -> LF ∉ re_sub_go lit repl skip l.
Proof.
  intros Hr. revert skip. induction l as [|c l IH]; intros skip Hl.
  - apply not_elem_of_nil.
  - apply not_elem_of_cons in Hl as [Hc Hl]. cbn [re_sub_go].
    destruct skip; [|now apply IH].
    destruct (match_at lit (c :: l)).
    + apply not_elem_of_app. split; [assumption|now apply IH].
    + apply not_elem_of_cons. split; [assumption|now apply IH].
Qed.

Lemma re_sub_join (lit repl : text) (ls : list text) :
  LF ∉ lit -> Forall (fun l => LF ∉ l) ls ->
  re_sub lit repl (join_lines ls) = join_lines (map (re_sub lit repl) ls).
Proof.
  intros Hlit Hls. induction Hls as [|l ls Hl Hls IH]; [reflexivity|].
  destruct ls as [|l' ls']; [reflexivity|].
  change (join_lines (l :: l' :: ls')) with (l ++ LF :: join_lines (l' :: ls')).
  unfold re_sub in *. rewrite re_sub_go_app_LF by (assumption || lia).
  rewrite IH. reflexivity.
Qed.

Lemma re_sub_unchanged (lit repl l : text) :
  ~ occurs lit l -> re_sub lit repl l = l.
Proof.
  unfold re_sub. induction l as [|c l IH]; intros Hno; [reflexivity|].
  cbn [re_sub_go].
  destruct (match_at lit (c :: l)) as [n|] eqn:E.
  - exfalso. apply Hno. exists [], (c :: l), n. split; [reflexivity|assumption].
  - f_equal. apply IH. intros (pre & suf & n & -> & Hm).
    apply Hno. exists (c :: pre), suf, n. split; [reflexivity|assumption].
Qed.

Lemma occursb_spec (lit l : text) : occurs lit l <-> occursb lit l = true.
Proof.
  split.
  - intros (pre & suf & n & -> & Hm). induction pre as [|c pre IH].
    + destruct suf; simpl in *; now rewrite Hm.
    + change ((c :: pre) ++ suf) with (c :: (pre ++ suf)).
      cbn [occursb]. now destruct (match_at lit (c :: pre ++ suf)).
  - induction l as [|c l IH]; cbn [occursb].
    + destruct (match_at lit []) as [n|] eqn:E; [|discriminate].
      intros _. exists [], [], n. split; [reflexivity|assumption].
    + destruct (match_at lit (c :: l)) as [n|] eqn:E.
      * intros _. exists [], (c :: l), n. split; [reflexivity|assumption].
      * intros H. destruct (IH H) as (pre & suf & n & -> & Hm).
        exists (c :: pre), suf, n. split; [reflexivity|assumption].
Qed.

Lemma name_ok_no_LF (part_name : string) :
  name_ok part_name = true -> LF ∉ chars part_name.
Proof.
  unfold name_ok. induction (chars part_name) as [|c l IH]; simpl; intros H.
  - apply not_elem_of_nil.
  - apply andb_true_iff in H as [Hc Hl]. apply not_elem_of_cons. split.
    + intros <-. discriminate.
    + now apply IH.
Qed.

Lemma uint_no_LF (d : Decimal.uint) : LF ∉ chars (NilEmpty.string_of_uint d).
Proof.
  induction d; simpl;
    try (apply not_elem_of_cons; split; [discriminate|assumption]).
  apply not_elem_of_nil.
Qed.

Lemma str_int_no_LF (z : Z) : LF ∉ chars (str_int z).
Proof.
  unfold str_int, NilZero.string_of_int.
  destruct (Z.to_int z) as [d|d]; unfold NilZero.string_of_uint.
  - destruct d; try apply uint_no_LF.
    simpl. apply not_elem_of_cons. split; [discriminate|apply not_elem_of_nil].
  - change (LF ∉ chars ("-" +:+ match d with
                               | Decimal.Nil => "0"
                               | _ => NilEmpty.string_of_uint d end)).
    rewrite chars_append. apply not_elem_of_app. split.
    + simpl. apply not_elem_of_cons. split; [discriminate|apply not_elem_of_nil].
    + destruct d; try apply uint_no_LF.
      simpl. apply not_elem_of_cons. split; [discriminate|apply not_elem_of_nil].
Qed.

(** No pattern and no replacement of [rsizelist] contains a line feed. *)
Ltac no_LF :=
  repeat (rewrite chars_append);
  repeat (apply not_elem_of_app; split);
  first [ now apply name_ok_no_LF
        | apply str_int_no_LF
        | simpl; repeat (apply not_elem_of_cons; split; [discriminate|]);
          apply not_elem_of_nil ].

Lemma Forall_re_sub_no_LF (lit repl : text) (ls : list text) :
  LF ∉ repl -> Forall (fun l => LF ∉ l) ls ->
  Forall (fun l => LF ∉ l) (map (re_sub lit repl) ls).
Proof.
  intros Hr Hls. apply Forall_map. eapply Forall_impl; [exact Hls|].
  intros l Hl. simpl. now apply re_sub_go_no_LF.
Qed.

(** The patch works line by line. *)
Lemma patch_text_lines (part_name : string) (size : Z) (ls : list text) :
  name_ok part_name = true -> Forall (fun l => LF ∉ l) ls ->
  patch_text part_name size (join_lines ls)
  = join_lines (map (patch_text part_name size) ls).
Proof.
  intros Hn Hls. unfold patch_text.
  rewrite re_sub_join by (assumption || no_LF).
  rewrite re_sub_join
    by (first [no_LF | apply Forall_re_sub_no_LF; [no_LF|assumption]]).
  rewrite re_sub_join
    by (first [no_LF | repeat (apply Forall_re_sub_no_LF; [no_LF|]); assumption]).
  rewrite re_sub_join
    by (first [no_LF | repeat (apply Forall_re_sub_no_LF; [no_LF|]); assumption]).
  rewrite !map_map. reflexivity.
Qed.

(** A line in which none of the four patterns matches is copied. *)
Lemma patch_text_unchanged (part_name : string) (size : Z) (l : text) :
  (forall lit, lit ∈ patterns part_name -> ~ occurs lit l) ->
  patch_text part_name size l = l.
Proof.
  intros H. unfold patch_text, patterns in *.
  rewrite (re_sub_unchanged _ _ l) by (apply H; set_solver).
  rewrite (re_sub_unchanged _ _ l) by (apply H; set_solver).
  rewrite (re_sub_unchanged _ _ l) by (apply H; set_solver).
  rewrite (re_sub_unchanged _ _ l) by (apply H; set_solver).
  reflexivity.
Qed.

Lemma universal_newlines_no_CR (t : text) : CR ∉ t -> universal_newlines t = t.
Proof.
  induction t as [|c t IH]; intros H; [reflexivity|].
  apply not_elem_of_cons in H as [Hc Ht]. cbn [universal_newlines].
  destruct (Ascii.eqb c CR) eqn:E.
  - apply Ascii.eqb_eq in E. congruence.
  - now rewrite IH.
Qed.

(** *** Lines of the four shapes *)

Lemma is_prefix_spec (lit s : text) :
  is_prefix lit s = true <-> exists r, s = lit ++ r.
Proof.
  revert s. induction lit as [|a lit IH]; intros s.
  - split; [intros _; now exists s|reflexivity].
  - destruct s as [|b s]; cbn [is_prefix].
    + split; [discriminate|]. intros [r Hr]. discriminate.
    + destruct (Ascii.eqb_spec a b) as [->|Hne].
      * rewrite IH. split; intros [r Hr]; exists r.
        -- now rewrite Hr.
        -- now injection Hr.
      * split; [discriminate|]. intros [r Hr]. injection Hr as Hab _. congruence.
Qed.

Lemma digit_run_digits (N rest : text) :
  digits N = true ->
  digit_run (N ++ rest) = (length N + digit_run rest)%nat.
Proof.
  unfold digits. induction N as [|c N IH]; cbn [forallb app digit_run length]; intros H.
  - reflexivity.
  - apply andb_true_iff in H as [Hc HN]. rewrite Hc, IH by assumption. reflexivity.
Qed.

(** A match is the literal followed by a digit. *)
Lemma match_at_inv (lit s : text) (n : nat) :
  match_at lit s = Some n ->
  exists d rest, s = lit ++ d :: rest /\ is_digit d = true.
Proof.
  unfold match_at. destruct (is_prefix lit s) eqn:E; [|discriminate].
  apply is_prefix_spec in E as [r ->].
  rewrite drop_app_length. destruct r as [|d rest]; [discriminate|].
  cbn [digit_run]. destruct (is_digit d) eqn:Hd; [|discriminate].
  intros _. now exists d, rest.
Qed.

Lemma match_at_whole (lit N : text) :
  digits N = true -> N <> [] ->
  match_at lit (lit ++ N) = Some (length lit + length N)%nat.
Proof.
  intros HN Hne. unfold match_at.
  assert (is_prefix lit (lit ++ N) = true) as -> by (apply is_prefix_spec; now exists N).
  rewrite drop_app_length.
  rewrite <- (app_nil_r N) at 1. rewrite digit_run_digits by assumption.
  cbn [digit_run]. rewrite Nat.add_0_r.
  destruct N as [|c N]; [contradiction|]. reflexivity.
Qed.

Lemma re_sub_go_skip_all (lit repl t : text) :
  re_sub_go lit repl (length t) t = [].
Proof. induction t as [|c t IH]; [reflexivity|]. exact IH. Qed.

(** The pattern's own line: the digits are replaced. *)
Lemma re_sub_own (lit R N : text) :
  lit <> [] -> digits N = true -> N <> [] ->
  re_sub lit (lit ++ R) (lit ++ N) = lit ++ R.
Proof.
  intros Hlit HN Hne. unfold re_sub.
  destruct lit as [|c lit]; [contradiction|].
  change ((c :: lit) ++ N) with (c :: (lit ++ N)). cbn [re_sub_go].
  change (c :: (lit ++ N)) with ((c :: lit) ++ N).
  rewrite match_at_whole by assumption.
  cbn [length Nat.add Nat.pred]. rewrite <- length_app.
  rewrite re_sub_go_skip_all. now rewrite app_nil_r.
Qed.

(** When every match in [X] is the literal followed by the final digits
    [N], the substitution changes at most those digits. *)
Lemma re_sub_tail (lit repl N X : text) :
  digits N = true -> N <> [] ->
  (forall p s n, X = p ++ s -> match_at lit s = Some n -> s = lit ++ N) ->
  re_sub lit repl X = X \/
  exists p, X = p ++ lit ++ N /\ re_sub lit repl X = p ++ repl.
Proof.
  intros HN Hne. unfold re_sub. induction X as [|c X IH]; intros Hall.
  - now left.
  - cbn [re_sub_go]. destruct (match_at lit (c :: X)) as [n|] eqn:E.
    + right. exists []. pose proof (Hall [] (c :: X) n eq_refl E) as HX.
      split; [exact HX|]. cbn [app].
      rewrite HX, match_at_whole in E by assumption. injection E as <-.
      assert (length X = Nat.pred (length lit + length N)) as <-.
      { apply (f_equal (@length ascii)) in HX. rewrite length_app in HX.
        cbn [length] in HX. lia. }
      rewrite re_sub_go_skip_all. now rewrite app_nil_r.
    + destruct IH as [IH|(p & HX & IH)].
      * intros p s n -> Hm. apply (Hall (c :: p) s n eq_refl Hm).
      * left. now rewrite IH.
      * right. exists (c :: p). split; [now rewrite HX|]. now rewrite IH.
Qed.

(** The same, for a line [B ++ N] and a replacement that ends in the
    digits [R]. *)
Lemma re_sub_line (lit B R N : text) :
  digits N = true -> N <> [] ->
  (forall p s n, B ++ N = p ++ s -> match_at lit s = Some n -> s = lit ++ N) ->
  re_sub lit (lit ++ R) (B ++ N) = B ++ N \/
  re_sub lit (lit ++ R) (B ++ N) = B ++ R.
Proof.
  intros HN Hne Hall.
  destruct (re_sub_tail lit (lit ++ R) N (B ++ N) HN Hne Hall) as [H|(p & HX & H)].
  - now left.
  - right. rewrite H. rewrite (app_assoc p lit N) in HX.
    apply app_inv_tail in HX. rewrite HX. now rewrite <- app_assoc.
Qed.

(** Where a word without space ends. *)
Lemma split_at_space (w x u y : text) :
  SP ∉ w -> w ++ SP :: x = u ++ SP :: y ->
  (u = w /\ y = x) \/ (exists u', u = w ++ SP :: u' /\ x = u' ++ SP :: y).
Proof.
  revert u. induction w as [|a w IH]; intros u Hw H.
  - destruct u as [|c u]; cbn [app] in H.
    + left. now injection H.
    + right. injection H as <- ->. now exists u.
  - apply not_elem_of_cons in Hw as [Ha Hw].
    destruct u as [|c u]; cbn [app] in H.
    + injection H as -> _. contradiction.
    + injection H as <- H. destruct (IH u Hw H) as [[-> ->]|(u' & -> & ->)].
      * now left.
      * right. now exists u'.
Qed.

Lemma last_token (x a y b : text) :
  SP ∉ a -> SP ∉ b -> x ++ SP :: a = y ++ SP :: b -> x = y /\ a = b.
Proof.
  intros Ha Hb H. apply (f_equal (@rev ascii)) in H.
  rewrite !rev_app_distr in H. cbn [rev] in H. rewrite <- !app_assoc in H.
  cbn [app] in H.
  apply split_at_space in H;
    [|intros Hin; apply Ha, list_elem_of_In, in_rev; now apply list_elem_of_In].
  destruct H as [[H1 H2]|(u' & H1 & _)].
  - split; [now apply rev_inj|]. symmetry. now apply rev_inj.
  - exfalso. apply Hb. apply (f_equal (@rev ascii)) in H1.
    rewrite rev_involutive, rev_app_distr in H1. cbn [rev] in H1.
    rewrite H1. apply elem_of_app. left. apply elem_of_app. right.
    apply list_elem_of_singleton. reflexivity.
Qed.

Lemma last_char (x y : text) (a b : ascii) : x ++ [a] = y ++ [b] -> a = b.
Proof. intros H. apply app_inj_tail in H as [_ H]. exact H. Qed.

Lemma digits_no_space (N : text) : digits N = true -> SP ∉ N.
Proof.
  unfold digits. induction N as [|c N IH]; cbn [forallb]; intros H.
  - apply not_elem_of_nil.
  - apply andb_true_iff in H as [Hc HN]. apply not_elem_of_cons. split.
    + intros <-. discriminate.
    + now apply IH.
Qed.

Lemma name_ok_no_space (part_name : string) :
  name_ok part_name = true -> SP ∉ chars part_name.
Proof.
  unfold name_ok. induction (chars part_name) as [|c l IH]; cbn [forallb]; intros H.
  - apply not_elem_of_nil.
  - apply andb_true_iff in H as [Hc Hl]. apply not_elem_of_cons. split.
    + intros <-. discriminate.
    + now apply IH.
Qed.

Ltac flatten_goal := repeat first [rewrite <- app_assoc | progress (cbn [app])].
Ltac flatten H :=
  repeat first [rewrite <- app_assoc in H | progress (cbn [app] in H)].

Lemma patterns_bodies (part_name : string) :
  patterns part_name = map (fun body => body ++ [SP]) (bodies part_name).
Proof.
  unfold patterns, bodies, resize_body, grow_body. cbn [map].
  rewrite !chars_append. flatten_goal. reflexivity.
Qed.

Ltac nosp :=
  first [ assumption
        | cbn [chars list_ascii_of_string];
          repeat (apply not_elem_of_cons; split; [discriminate|]);
          apply not_elem_of_nil ].

(** One step along the words of a line: either the space before the
    digit is the one after this word, or it lies further on. *)
Ltac walk H Hu Hy :=
  apply split_at_space in H; [|nosp];
  destruct H as [[Hu Hy] | (?u & Hu & H)].

(** The digit after the space would be the first letter of a word. *)
Ltac not_a_digit Hy Hd :=
  cbn [chars list_ascii_of_string app] in Hy; injection Hy as -> _; discriminate Hd.

Lemma last_app_last (l a : text) (x : ascii) : last (l ++ a ++ [x]) = Some x.
Proof. rewrite app_assoc. apply last_snoc. Qed.

Lemma space_in_digits (N u y : text) : digits N = true -> N = u ++ SP :: y -> False.
Proof.
  intros HN H. apply (digits_no_space N HN). rewrite H.
  apply elem_of_app. right. apply elem_of_cons. now left.
Qed.

Lemma resize_body_space (p Q : text) : SP ∈ p ++ resize_body Q.
Proof.
  apply elem_of_app. right. apply elem_of_app. right. apply elem_of_cons. now left.
Qed.

Lemma grow_body_space (p Q : text) : SP ∈ p ++ grow_body Q.
Proof.
  apply elem_of_app. right. apply elem_of_app. right. apply elem_of_cons. now left.
Qed.

(** A match ends with the space that ends the literal, followed by a
    digit. *)
Lemma match_boundary (part_name : string) (lit B N p s : text) (n : nat) :
  lit ∈ patterns part_name ->
  B ++ N = p ++ s -> match_at lit s = Some n ->
  exists body d rest,
    body ∈ bodies part_name /\ lit = body ++ [SP] /\
    s = lit ++ d :: rest /\ is_digit d = true /\
    B ++ N = (p ++ body) ++ SP :: d :: rest.
Proof.
  intros Hlit H Hm. apply match_at_inv in Hm as (d & rest & -> & Hd).
  rewrite patterns_bodies in Hlit. apply list_elem_of_fmap in Hlit as (body & -> & Hb).
  exists body, d, rest. repeat split; try assumption.
  rewrite H. now flatten_goal.
Qed.

Section Lines.

Variable part_name : string.
Hypothesis Hname : name_ok part_name = true.

Local Abbreviation P := (chars part_name).

Lemma P_no_space : SP ∉ P.
Proof. now apply name_ok_no_space. Qed.

Lemma Pa_no_space : SP ∉ P ++ chars "_a".
Proof.
  apply not_elem_of_app. split; [apply P_no_space|nosp].
Qed.

(** In a [resize] line no pattern matches before the final digits. *)
Lemma tail_only_resize (lit Q : text) :
  lit ∈ patterns part_name -> SP ∉ Q -> tail_only lit (resize_body Q ++ [SP]).
Proof.
  intros Hlit HQ N HN Hne p s n H Hm.
  destruct (match_boundary part_name lit _ N p s n Hlit H Hm)
    as (body & d & rest & Hbody & -> & -> & Hd & HB).
  f_equal. clear H Hm Hlit.
  assert (SP ∈ p ++ body) as Hin.
  { unfold bodies in Hbody.
    repeat (apply elem_of_cons in Hbody as [->|Hbody];
            [first [apply resize_body_space | apply grow_body_space]|]).
    now apply elem_of_nil in Hbody. }
  remember (p ++ body) as u0 eqn:Hu0. clear Hbody.
  unfold resize_body in HB. flatten HB.
  walk HB Hu Hy.
  - exfalso. rewrite Hu in Hin. revert Hin. nosp.
  - walk HB Hu' Hy'.
    + exact Hy'.
    + exfalso. now apply (space_in_digits N _ _ HN HB).
Qed.

(** What the last word of a pattern is, and what stands before it. *)
Lemma body_last_word (body u w : text) (p : text) :
  body ∈ bodies part_name -> SP ∉ w -> p ++ body = u ++ SP :: w ->
  (p ++ chars "resize" = u /\ (w = P \/ w = P ++ chars "_a")) \/ w = chars "to".
Proof.
  intros Hbody Hw H. unfold bodies in Hbody.
  pose proof P_no_space as HP. pose proof Pa_no_space as HPa.
  apply elem_of_cons in Hbody as [->|Hbody].
  { unfold resize_body in H. rewrite app_assoc in H.
    apply last_token in H as [H1 H2]; auto. }
  apply elem_of_cons in Hbody as [->|Hbody].
  { unfold resize_body in H. rewrite app_assoc in H.
    apply last_token in H as [H1 H2]; auto. }
  assert (forall Q, p ++ grow_body Q = u ++ SP :: w -> w = chars "to") as Hgrow.
  { intros Q HQ. unfold grow_body in HQ.
    replace (p ++ chars "#" ++ SP :: chars "Grow" ++ SP :: chars "partition"
             ++ SP :: Q ++ SP :: chars "from" ++ SP :: chars "0" ++ SP :: chars "to")
      with ((p ++ chars "#" ++ SP :: chars "Grow" ++ SP :: chars "partition"
             ++ SP :: Q ++ SP :: chars "from" ++ SP :: chars "0") ++ SP :: chars "to")
      in HQ by (now flatten_goal).
    apply last_token in HQ as [_ HQ]; [now symmetry|nosp|exact Hw]. }
  apply elem_of_cons in Hbody as [->|Hbody]; [right; now apply (Hgrow _ H)|].
  apply elem_of_cons in Hbody as [->|Hbody]; [right; now apply (Hgrow _ H)|].
  now apply elem_of_nil in Hbody.
Qed.

Lemma last_Pa : last (P ++ chars "_a") = Some "a"%char.
Proof. apply (last_app_last P ["_"%char] "a"%char). Qed.

Lemma last_resize (p : text) : last (p ++ chars "resize") = Some "e"%char.
Proof. apply (last_app_last p (chars "resiz") "e"%char). Qed.

(** In a [Grow partition] line no pattern matches before the final
    digits either; [e] is empty or [_a]. *)
Lemma tail_only_grow (lit e : text) :
  lit ∈ patterns part_name -> e = [] \/ e = chars "_a" ->
  tail_only lit (grow_body (P ++ e) ++ [SP]).
Proof.
  intros Hlit He N HN Hne p s n H Hm.
  assert (SP ∉ P ++ e) as HQ.
  { destruct He as [-> | ->]; [rewrite app_nil_r; apply P_no_space|apply Pa_no_space]. }
  destruct (match_boundary part_name lit _ N p s n Hlit H Hm)
    as (body & d & rest & Hbody & -> & -> & Hd & HB).
  f_equal. clear H Hm Hlit.
  remember (p ++ body) as u0 eqn:Hu0.
  unfold grow_body in HB. flatten HB.
  walk HB Hu Hy; [not_a_digit Hy Hd|].
  walk HB Hu1 Hy; [not_a_digit Hy Hd|].
  walk HB Hu2 Hy.
  { (* the digit would open the partition name *)
    exfalso. subst u0 u u1.
    change (p ++ body = (chars "#" ++ SP :: chars "Grow") ++ SP :: chars "partition")
      in Hu.
    destruct (body_last_word body _ (chars "partition") p Hbody ltac:(nosp) Hu)
      as [[_ [Hw|Hw]]|Hw].
    - rewrite <- Hw in Hy. not_a_digit Hy Hd.
    - apply (f_equal last) in Hw. rewrite last_Pa in Hw. discriminate Hw.
    - discriminate Hw. }
  rewrite (app_assoc P e) in HB.
  walk HB Hu3 Hy; [not_a_digit Hy Hd|].
  walk HB Hu4 Hy.
  { (* the digit would be the [0] of [from 0 to] *)
    exfalso. subst u0 u u1 u2 u3.
    change (p ++ body = (chars "#" ++ SP :: chars "Grow" ++ SP :: chars "partition"
                         ++ SP :: (P ++ e)) ++ SP :: chars "from") in Hu.
    destruct (body_last_word body _ (chars "from") p Hbody ltac:(nosp) Hu)
      as [[Hpre [Hw|Hw]]|Hw].
    - apply (f_equal last) in Hpre. rewrite last_resize, <- Hw in Hpre.
      destruct He as [-> | ->]; discriminate Hpre.
    - apply (f_equal last) in Hw. rewrite last_Pa in Hw. discriminate Hw.
    - discriminate Hw. }
  walk HB Hu5 Hy; [not_a_digit Hy Hd|].
  walk HB Hu6 Hy; [exact Hy|].
  exfalso. now apply (space_in_digits N _ _ HN HB).
Qed.

End Lines.

Lemma uint_digits (d : Decimal.uint) : digits (chars (NilEmpty.string_of_uint d)) = true.
Proof. induction d; cbn; try assumption; reflexivity. Qed.

(** A size that is not negative is printed as a run of digits. *)
Lemma str_int_digits (z : Z) :
  0 <= z -> digits (chars (str_int z)) = true /\ chars (str_int z) <> [].
Proof.
  intros Hz. unfold str_int, NilZero.string_of_int.
  destruct z as [|q|q]; [split; [reflexivity|discriminate]| |lia].
  cbn [Z.to_int]. unfold NilZero.string_of_uint.
  destruct (Pos.to_uint q) eqn:E;
    [split; [reflexivity|discriminate]|..];
    (split; [apply uint_digits|cbn; discriminate]).
Qed.

Lemma patch_text_fold (part_name : string) (size : Z) (content : text) :
  patch_text part_name size content
  = fold_left (sub_size (chars (str_int size))) (patterns part_name) content.
Proof.
  unfold patch_text, patterns, sub_size. cbn [fold_left].
  rewrite !chars_append. rewrite <- !app_assoc. reflexivity.
Qed.

Lemma pattern_not_nil (part_name : string) (lit : text) :
  lit ∈ patterns part_name -> lit <> [].
Proof.
  rewrite patterns_bodies. intros H. apply list_elem_of_fmap in H as (b & -> & _).
  now destruct b.
Qed.

(** Along a list of patterns none of which matches before the final
    digits, a line that reads [B N] keeps that shape; once a pattern
    equal to [B] has been met, the digits are [S]. *)
Lemma sub_size_chain (R B : text) (ls : list text) :
  digits R = true -> R <> [] -> B <> [] ->
  (forall l, l ∈ ls -> tail_only l B) ->
  forall N, digits N = true -> N <> [] ->
  fold_left (sub_size R) ls (B ++ N) = B ++ R \/
  ((B ∉ ls) /\ fold_left (sub_size R) ls (B ++ N) = B ++ N).
Proof.
  intros HR HRne HB. induction ls as [|l ls IH]; intros Hall N HN HNne.
  - right. split; [apply not_elem_of_nil|reflexivity].
  - cbn [fold_left].
    assert (forall l', l' ∈ ls -> tail_only l' B) as Hall'
      by (intros l' Hl'; apply Hall; now apply elem_of_cons; right).
    assert (tail_only l B) as Hl by (apply Hall; apply elem_of_cons; now left).
    destruct (decide (l = B)) as [->|Hne].
    + assert (sub_size R (B ++ N) B = B ++ R) as ->
        by (now apply re_sub_own).
      destruct (IH Hall' R HR HRne) as [H|[_ H]]; left; exact H.
    + assert (sub_size R (B ++ N) l = B ++ N \/ sub_size R (B ++ N) l = B ++ R)
        as [-> | ->] by (apply re_sub_line; [assumption|assumption|now apply Hl]).
      * destruct (IH Hall' N HN HNne) as [H|[Hnot H]]; [now left|right].
        split; [|exact H]. apply not_elem_of_cons. split; [congruence|exact Hnot].
      * destruct (IH Hall' R HR HRne) as [H|[_ H]]; left; exact H.
Qed.

(** Every pattern matches a line of one of the four shapes only at its
    final digits. *)
Lemma patterns_tail_only (part_name : string) (l lit : text) :
  name_ok part_name = true ->
  l ∈ patterns part_name -> lit ∈ patterns part_name -> tail_only l lit.
Proof.
  intros Hname Hl Hlit. pose proof Hlit as Hb.
  rewrite patterns_bodies in Hb. apply list_elem_of_fmap in Hb as (b & -> & Hb).
  unfold bodies in Hb.
  apply elem_of_cons in Hb as [->|Hb];
    [apply (tail_only_resize part_name); [assumption|now apply P_no_space]|].
  apply elem_of_cons in Hb as [->|Hb];
    [apply (tail_only_resize part_name); [assumption|now apply Pa_no_space]|].
  apply elem_of_cons in Hb as [->|Hb].
  { rewrite <- (app_nil_r (chars part_name)).
    apply (tail_only_grow part_name Hname); [assumption|now left]. }
  apply elem_of_cons in Hb as [->|Hb];
    [apply (tail_only_grow part_name Hname); [assumption|now right]|].
  now apply elem_of_nil in Hb.
Qed.

(** A line that reads one of the four patterns followed by digits comes
    out as the same pattern followed by the new size. *)
Lemma patch_text_own_line (part_name : string) (size : Z) (lit D : text) :
  name_ok part_name = true -> 0 <= size ->
  lit ∈ patterns part_name -> digits D = true -> D <> [] ->
  patch_text part_name size (lit ++ D) = lit ++ chars (str_int size).
Proof.
  intros Hname Hsize Hlit HD HDne.
  destruct (str_int_digits size Hsize) as [HS HSne].
  rewrite patch_text_fold.
  destruct (sub_size_chain (chars (str_int size)) lit (patterns part_name)
              HS HSne (pattern_not_nil _ _ Hlit)
              (fun l Hl => patterns_tail_only part_name l lit Hname Hl Hlit)
              D HD HDne) as [H|[Hnot _]]; [exact H|contradiction].
Qed.

(** What [rsizelist] returns inside the modelled domain. *)
Lemma rsizelist_defined (part_name : string) (size : Z) (file : string)
    (fs : textfs) :
  name_ok part_name = true ->
  (forall raw, fs !! file = Some raw -> ascii_text raw = true) ->
  rsizelist part_name size file fs
  = Some match fs !! file with
         | Some raw => <[file := patch_text part_name size (universal_newlines raw)]> fs
         | None => fs
         end.
Proof.
  intros Hn Hascii. unfold rsizelist. destruct (fs !! file) as [raw|]; [|reflexivity].
  now rewrite Hn, (Hascii raw eq_refl).
Qed.

Example rsizelist_lf :
  rsizelist "system" 4096 "dynamic_partitions_op_list"
            {[ "dynamic_partitions_op_list" := op_list_lf ]}
  ≫= (fun fs' => fs' !! "dynamic_partitions_op_list")
  = Some (chars "# Grow partition system from 0 to 4096" ++ [LF]
          ++ chars "resize system 4096" ++ [LF]
          ++ chars "resize system_ext 200" ++ [LF]
          ++ chars "resize system_a 4096" ++ [LF]).
Proof. vm_compute. reflexivity. Qed.

(** C8 (as stated, refuted): [op_list_crlf] is an ASCII file and
    [system] a plain partition name; the first line of the file,
    [remove_all_groups] followed by CR, matches none of the four
    patterns, yet after [rsizelist] the first line of the file is
    [remove_all_groups] without the CR: the line is not byte-identical. *)
Lemma C8_counterexample :
  let file := "dynamic_partitions_op_list" in
  let first_line := chars "remove_all_groups" ++ [CR] in
  name_ok "system" = true /\ ascii_text op_list_crlf = true /\
  split_lines op_list_crlf !! O = Some first_line /\
  (forall lit, lit ∈ patterns "system" -> ~ occurs lit first_line) /\
  (split_lines <$> (rsizelist "system" 4096 file {[ file := op_list_crlf ]}
                    ≫= (fun fs' => fs' !! file)))
  = Some [chars "remove_all_groups"; chars "resize system 4096"; []] /\
  chars "remove_all_groups" <> first_line.
Proof.
  cbv zeta. split; [reflexivity|]. split; [reflexivity|].
  split; [reflexivity|]. split; [|split].
  - intros lit Hlit Hocc. apply occursb_spec in Hocc.
    unfold patterns in Hlit.
    repeat (apply elem_of_cons in Hlit as [->|Hlit]; [vm_compute in Hocc; discriminate|]).
    now apply elem_of_nil in Hlit.
  - vm_compute. reflexivity.
  - vm_compute. discriminate.
Qed.

(** C8 (amended): for an ASCII list file, a partition name made of
    letters, digits and [_] and a size that is not negative, [rsizelist]
    rewrites the list file line by line: the file is read with universal
    newlines (CR LF and CR become LF; nothing changes in a file without
    CR) and each line is passed through the four substitutions on its
    own.  A line that reads one of the four patterns followed by digits
    ([resize <part> <N>], [resize <part>_a <N>],
    [# Grow partition <part> from 0 to <N>],
    [# Grow partition <part>_a from 0 to <N>]) comes out as the same
    pattern followed by the new size; a line in which none of the four
    patterns occurs is copied unchanged; no other file is touched. *)
Theorem C8_rsizelist_frame (part_name : string) (size : Z) (file : string)
    (fs : textfs) (raw : text) :
  name_ok part_name = true ->
  0 <= size ->
  fs !! file = Some raw ->
  ascii_text raw = true ->
  let lines := split_lines (universal_newlines raw) in
  rsizelist part_name size file fs
    = Some (<[file := join_lines (map (patch_text part_name size) lines)]> fs) /\
  (forall lit D : text,
      lit ∈ patterns part_name -> digits D = true -> D <> [] ->
      patch_text part_name size (lit ++ D) = lit ++ chars (str_int size)) /\
  (forall l : text,
      (forall lit, lit ∈ patterns part_name -> ~ occurs lit l) ->
      patch_text part_name size l = l) /\
  (CR ∉ raw -> universal_newlines raw = raw) /\
  (forall other : string, other <> file ->
      rsizelist part_name size file fs ≫= (fun fs' => fs' !! other) = fs !! other).
Proof.
  intros Hn Hsize Hf Hascii lines. unfold rsizelist. rewrite Hf, Hn, Hascii.
  cbn [andb mbind option_bind].
  split; [|split; [|split; [|split]]].
  - do 2 f_equal. subst lines.
    rewrite <- patch_text_lines by (assumption || apply split_lines_no_LF).
    now rewrite join_split_lines.
  - intros lit D Hlit HD HDne. now apply patch_text_own_line.
  - apply patch_text_unchanged.
  - apply universal_newlines_no_CR.
  - intros other Ho. now rewrite lookup_insert_ne.
Qed.

Lemma C8_rsizelist_frame_witness :
  let file := "dynamic_partitions_op_list" in
  let fs : textfs := {[ file := op_list_lf ]} in
  let lines := split_lines (universal_newlines op_list_lf) in
  rsizelist "system" 4096 file fs
    = Some (<[file := join_lines (map (patch_text "system" 4096) lines)]> fs) /\
  (forall lit D : text,
      lit ∈ patterns "system" -> digits D = true -> D <> [] ->
      patch_text "system" 4096 (lit ++ D) = lit ++ chars (str_int 4096)) /\
  (forall l : text,
      (forall lit, lit ∈ patterns "system" -> ~ occurs lit l) ->
      patch_text "system" 4096 l = l) /\
  (CR ∉ op_list_lf -> universal_newlines op_list_lf = op_list_lf) /\
  (forall other : string, other <> file ->
      rsizelist "system" 4096 file fs ≫= (fun fs' => fs' !! other) = fs !! other).
Proof.
  apply (C8_rsizelist_frame "system" 4096 "dynamic_partitions_op_list"
           {[ "dynamic_partitions_op_list" := op_list_lf ]} op_list_lf).
  - reflexivity.
  - lia.
  - reflexivity.
  - reflexivity.
Defined.

(** *** What a caller can rely on *)

(** The quantised size is a whole number of 4096-byte blocks, at least
    2 MiB, and not below the integer part of the total. *)
Lemma rsize_quantize_bounds (size : Q) :
  let r := rsize_quantize size in
  r mod 4096 = 0 /\ 2097152 <= r /\ Qfloor size <= r.
Proof.
  cbv zeta. destruct (Qlt_le_dec (inject_Z 2097152) size) as [Hlarge|Hsmall].
  - destruct (rsize_quantize_large size Hlarge) as [Hmod [Hlo _]].
    split; [exact Hmod|]. split; [|exact Hlo].
    assert (2097152 <= Qfloor size); [|lia].
    change 2097152 with (Qfloor (inject_Z 2097152)) at 1.
    apply Qfloor_resp_le. lra.
  - rewrite (rsize_quantize_small size Hsmall). split; [reflexivity|].
    split; [lia|]. change 2097152 with (Qfloor (inject_Z 2097152)).
    now apply Qfloor_resp_le.
Qed.

Lemma Qfloor_inject_Z (z : Z) : Qfloor (inject_Z z) = z.
Proof. unfold Qfloor, inject_Z. now rewrite Z.div_1_r. Qed.

Lemma quantized_covers_content (t : tree) :
  walk_total t <= rsize_quantize (get_dir_size t).
Proof.
  destruct (rsize_quantize_bounds (get_dir_size t)) as (_ & _ & Hfloor).
  pose proof (add_overhead_ge (walk_total t) (walk_total_nonneg t)) as Hge.
  apply Qfloor_resp_le in Hge. rewrite Qfloor_inject_Z in Hge.
  unfold get_dir_size in *. lia.
Qed.

(** X24: The estimate holds the content: it is never below the content sum,
    never below 2 MiB, and always a whole number of 4096-byte blocks. *)
Theorem estimate_covers_content (t : tree) :
  walk_total t < 2 ^ 46 ->
  exists r : Z,
    estimate t 1 = Some (PInt r) /\
    walk_total t <= r /\ 2097152 <= r /\ r mod 4096 = 0.
Proof.
  intros _. exists (rsize_quantize (get_dir_size t)).
  split; [apply estimate_eq|].
  destruct (rsize_quantize_bounds (get_dir_size t)) as (Hmod & Hmin & _).
  split; [apply quantized_covers_content|]. split; [exact Hmin|exact Hmod].
Qed.

Lemma estimate_covers_content_witness :
  exists r : Z,
    estimate tree_above_boundary 1 = Some (PInt r) /\
    walk_total tree_above_boundary <= r /\ 2097152 <= r /\ r mod 4096 = 0.
Proof.
  apply (estimate_covers_content tree_above_boundary). vm_compute. reflexivity.
Defined.

Lemma add_overhead_mono (T1 T2 : Z) :
  T1 <= T2 -> (add_overhead T1 <= add_overhead T2)%Q.
Proof.
  intros H. rewrite Zle_Qle in H. unfold add_overhead.
  change (inject_Z (16 * 1024 ^ 2)) with (16777216 # 1)%Q.
  change (inject_Z (100 * 1024 * 1024)) with (104857600 # 1)%Q.
  unfold Qdiv. change (/ 16384)%Q with (1 # 16384)%Q.
  destruct (Qlt_le_dec _ _), (Qlt_le_dec _ _); lra.
Qed.

Lemma rsize_quantize_mono (s1 s2 : Q) :
  (s1 <= s2)%Q -> rsize_quantize s1 <= rsize_quantize s2.
Proof.
  intros H.
  destruct (rsize_quantize_bounds s2) as (Hmod2 & Hmin2 & Hfl2).
  destruct (Qlt_le_dec (inject_Z 2097152) s1) as [Hlarge|Hsmall].
  - destruct (rsize_quantize_large s1 Hlarge) as [Hmod1 [_ Hhi1]].
    pose proof (Qfloor_resp_le _ _ H) as Hfl.
    pose proof (Z.div_mod (rsize_quantize s1) 4096 ltac:(lia)).
    pose proof (Z.div_mod (rsize_quantize s2) 4096 ltac:(lia)).
    lia.
  - now rewrite (rsize_quantize_small s1 Hsmall).
Qed.

(** X25: More content never gives a smaller estimate. *)
Theorem estimate_monotone (t1 t2 : tree) :
  walk_total t1 <= walk_total t2 ->
  walk_total t2 < 2 ^ 46 ->
  exists r1 r2 : Z,
    estimate t1 1 = Some (PInt r1) /\ estimate t2 1 = Some (PInt r2) /\ r1 <= r2.
Proof.
  intros Hle _. exists (rsize_quantize (get_dir_size t1)).
  exists (rsize_quantize (get_dir_size t2)).
  split; [apply estimate_eq|]. split; [apply estimate_eq|].
  apply rsize_quantize_mono. now apply add_overhead_mono.
Qed.

Lemma estimate_monotone_witness :
  exists r1 r2 : Z,
    estimate tree_1500000 1 = Some (PInt r1) /\
    estimate tree_above_boundary 1 = Some (PInt r2) /\ r1 <= r2.
Proof.
  apply (estimate_monotone tree_1500000 tree_above_boundary).
  - vm_compute. discriminate.
  - vm_compute. reflexivity.
Defined.

Lemma py_int_blocks (r : Z) :
  0 <= r -> r mod 4096 = 0 ->
  py_int (inject_Z r / inject_Z 4096) = r / 4096.
Proof.
  intros Hr Hmod. apply py_int_of_Z; [apply Z.div_pos; lia|].
  pose proof (Z.div_mod r 4096 ltac:(lia)) as Hdm. rewrite Hmod in Hdm.
  set (b := r / 4096) in *. replace r with (b * 4096) by lia.
  rewrite inject_Z_mult. field.
Qed.

(** X26: The list-patching mode as [make_ext4fs] ([num = 1]) and [mke2fs]
    ([num = 4096]) call it, for a partition name made of letters, digits
    and [_] and an ASCII list file: the result [b] counts units of [num]
    bytes, and the size written into the resize list is exactly the
    [num * b] bytes the image will have (a line that reads one of the
    four patterns followed by digits carries [num * b]); that size is a
    whole number of 4096-byte blocks, at least 2 MiB, and holds the
    content. *)
Theorem GetFolderSize_list_mode (dname : string) (t : tree) (num : Z)
    (list_f : string) (fs : textfs) :
  walk_total t < 2 ^ 46 ->
  num = 1 \/ num = 4096 ->
  name_ok dname = true ->
  (forall raw, fs !! list_f = Some raw -> ascii_text raw = true) ->
  exists (b : Z) (fs' : textfs),
    GetFolderSize dname t num 3 (Some list_f) fs = Some (PInt b, fs') /\
    rsizelist dname (num * b) list_f fs = Some fs' /\
    fs' = match fs !! list_f with
          | Some raw => <[list_f := patch_text dname (num * b) (universal_newlines raw)]> fs
          | None => fs
          end /\
    (forall lit D : text,
        lit ∈ patterns dname -> digits D = true -> D <> [] ->
        patch_text dname (num * b) (lit ++ D) = lit ++ chars (str_int (num * b))) /\
    2097152 <= num * b /\ (num * b) mod 4096 = 0 /\ walk_total t <= num * b.
Proof.
  intros _ Hnum Hname Hascii.
  destruct (rsize_quantize_bounds (get_dir_size t)) as (Hmod & Hmin & _).
  pose proof (quantized_covers_content t) as Hcover.
  unfold GetFolderSize, rsize. change (3 =? 1) with false. change (3 =? 3) with true.
  cbv iota. set (r := rsize_quantize (get_dir_size t)) in *.
  rewrite (rsizelist_defined dname r list_f fs Hname Hascii).
  assert (forall lit D : text,
             lit ∈ patterns dname -> digits D = true -> D <> [] ->
             patch_text dname r (lit ++ D) = lit ++ chars (str_int r)) as Hline
    by (intros lit D Hlit HD HDne; apply patch_text_own_line; (assumption || lia)).
  destruct Hnum as [-> | ->].
  - exists r. eexists. change (1 =? 0) with false. cbv iota.
    rewrite py_int_whole, Z.mul_1_l.
    split; [reflexivity|]. split; [now apply rsizelist_defined|]. auto.
  - pose proof (Z.div_mod r 4096 ltac:(lia)) as Hdm. rewrite Hmod in Hdm.
    exists (r / 4096). eexists. change (4096 =? 0) with false. cbv iota.
    rewrite py_int_blocks by lia.
    replace (4096 * (r / 4096)) with r by lia.
    split; [reflexivity|]. split; [now apply rsizelist_defined|]. auto.
Qed.

Lemma GetFolderSize_list_mode_witness :
  let file := "dynamic_partitions_op_list" in
  let fs : textfs := {[ file := op_list_lf ]} in
  exists (b : Z) (fs' : textfs),
    GetFolderSize "system" tree_above_boundary 4096 3 (Some file) fs
    = Some (PInt b, fs') /\
    rsizelist "system" (4096 * b) file fs = Some fs' /\
    fs' = match fs !! file with
          | Some raw => <[file := patch_text "system" (4096 * b) (universal_newlines raw)]> fs
          | None => fs
          end /\
    (forall lit D : text,
        lit ∈ patterns "system" -> digits D = true -> D <> [] ->
        patch_text "system" (4096 * b) (lit ++ D) = lit ++ chars (str_int (4096 * b))) /\
    2097152 <= 4096 * b /\ (4096 * b) mod 4096 = 0 /\
    walk_total tree_above_boundary <= 4096 * b.
Proof.
  apply (GetFolderSize_list_mode "system" tree_above_boundary 4096
           "dynamic_partitions_op_list"
           {[ "dynamic_partitions_op_list" := op_list_lf ]}).
  - vm_compute. reflexivity.
  - now right.
  - reflexivity.
  - intros raw Hraw. apply lookup_singleton_Some in Hraw as [_ <-]. reflexivity.
Defined.

End SizeEstimatorProofs.

Module PackSuperProofs.
Import PackSuper.

(** *** Facts about [verify_size] *)

Lemma sum_sizes_nonneg (fs : imgfs) (sel : list string) (content : Z) :
  sum_sizes fs sel = Some content -> 0 <= content.
Proof.
  revert content. induction sel as [|i sel IH]; simpl; intros content H.
  - injection H as <-. lia.
  - destruct (fs !! (i +:+ ".img")) as [sz|]; [|discriminate]. simpl in H.
    destruct (sum_sizes fs sel) as [total|]; [|discriminate]. simpl in H.
    injection H as <-. specialize (IH total eq_refl). lia.
Qed.

Lemma candidate_Q (i : Z) :
  ((inject_Z i - (1 # 4)) * inject_Z GiB == inject_Z (candidate i))%Q.
Proof.
  unfold candidate. change (2 ^ 28) with 268435456.
  change (inject_Z GiB) with (1073741824 # 1)%Q.
  unfold Qeq, Qmult, Qminus, Qplus, Qopp, inject_Z. cbn [Qnum Qden].
  change (Z.pos (1 * 4 * 1)) with 4. lia.
Qed.

Lemma verify_step_inv (content : Z) (st : vs_state) (i : Z) :
  0 <= i <= 19 -> verify_inv content st -> verify_inv content (verify_step st i).
Proof.
  intros Hi Hinv. unfold verify_step.
  destruct (vs_break st) eqn:Hb; [exact Hinv|].
  destruct (i =? 0) eqn:Hz; [exact Hinv|].
  apply Z.eqb_neq in Hz.
  destruct (Qlt_le_dec _ 0) as [Hneg|Hpos]; [exact Hinv|].
  unfold verify_inv in Hinv. rewrite Hb in Hinv.
  destruct (Qlt_le_dec _ (vs_diff st)) as [Hlt|Hge].
  { unfold verify_inv. simpl. exact Hinv. }
  unfold verify_inv. simpl. exists i. split; [lia|]. split.
  - apply candidate_Q.
  - rewrite Zle_Qle, <- candidate_Q, <- Hinv.
    change (inject_Z GiB) with (1073741824 # 1)%Q in *. lra.
Qed.

Lemma verify_fold_inv (content : Z) (l : list Z) (st : vs_state) :
  Forall (fun i => 0 <= i <= 19) l ->
  verify_inv content st -> verify_inv content (fold_left verify_step l st).
Proof.
  intros Hl. revert st. induction Hl as [|i l Hi Hl IH]; intros st Hinv.
  - exact Hinv.
  - simpl. apply IH. now apply verify_step_inv.
Qed.

Lemma range20_bounds : Forall (fun i => 0 <= i <= 19) range20.
Proof. unfold range20. simpl. repeat constructor; lia. Qed.

Lemma verify_loop_inv (content : Z) : verify_inv content (verify_loop content).
Proof.
  unfold verify_loop. apply verify_fold_inv; [apply range20_bounds|].
  unfold verify_inv. cbn [vs_break vs_size]. reflexivity.
Qed.

(** The value [verify_size] stores when the content does not fit. *)
Lemma verify_size_adjusted (fs : imgfs) (sel : list string) (requested content : Z) :
  sum_sizes fs sel = Some content -> requested < content ->
  exists adjusted,
    verify_size fs sel requested = Some (false, adjusted) /\
    content <= adjusted /\
    (adjusted = content \/ exists k, 1 <= k <= 19 /\ adjusted = candidate k).
Proof.
  intros Hsum Hlt. pose proof (sum_sizes_nonneg _ _ _ Hsum) as Hc.
  unfold verify_size. rewrite Hsum. cbn [mbind option_bind].
  apply Z.ltb_lt in Hlt. rewrite Hlt.
  pose proof (verify_loop_inv content) as Hinv.
  generalize dependent (verify_loop content). intros st Hinv.
  exists (py_int (vs_size st)). split; [reflexivity|].
  unfold verify_inv in Hinv. destruct (vs_break st).
  - destruct Hinv as (k & Hk & Hsz & Hle).
    assert (py_int (vs_size st) = candidate k) as ->
      by (apply py_int_of_Z; [unfold candidate; lia|exact Hsz]).
    split; [exact Hle|]. right. now exists k.
  - assert (py_int (vs_size st) = content) as -> by now apply py_int_of_Z.
    split; [lia|]. now left.
Qed.

Example verify_size_150MiB :
  verify_size fs_150MiB [ "system"; "vendor" ] 104857600 = Some (false, 805306368).
Proof. vm_compute. reflexivity. Qed.

Example verify_size_fits :
  verify_size fs_150MiB [ "system"; "vendor" ] 157286400 = Some (true, 157286400).
Proof. vm_compute. reflexivity. Qed.

(** 1.2 GiB of content: the first candidate that holds it is 1.75 GiB,
    and the loop settles one step later, on 2.75 GiB. *)
Example verify_size_next_candidate :
  verify_size {[ "system.img" := 1288490189%N ]} [ "system" ] 0
  = Some (false, candidate 3).
Proof. vm_compute. reflexivity. Qed.

(** More than 18.75 GiB of content: no candidate holds it and the size
    becomes the content total itself. *)
Example verify_size_no_candidate :
  verify_size {[ "system.img" := 21474836480%N ]} [ "system" ] 0
  = Some (false, 21474836480).
Proof. vm_compute. reflexivity. Qed.

(** C2 (as stated, refuted): a super of 100 MiB is requested and the
    selected images total 150 MiB.  [start_] stops and shows 805,306,368
    (0.75 GiB), which is not the request grown by any number of 0.25 GiB
    steps. *)
Lemma C2_counterexample :
  start_ lpmake_ok output_ok dialog_100MiB true "/rom/" "/rom/" fs_150MiB
  = (set_super_size dialog_100MiB 805306368, fs_150MiB, AskedToConfirm 805306368)
  /\ forall steps : Z, 805306368 <> 104857600 + steps * 268435456.
Proof.
  split; [vm_compute; reflexivity|]. intros steps. lia.
Qed.

(** C2 (amended): when the selected images total more than the requested
    super size, [start_] does not call [pack_super]: it stores an
    adjusted size and stops on the confirmation window showing it.  The
    adjusted size holds the selected content; it is either the content
    total itself or one of the fixed sizes [(k - 0.25)] GiB,
    [k = 1 .. 19], whatever the request was. *)
Theorem C2_size_check_stops (lpmake : command -> imgfs -> imgfs * Z)
    (output_present : imgfs -> bool) (d : dialog) (project_exists : bool)
    (work output_dir : string) (fs : imgfs) (content : Z) :
  sum_sizes fs (selected d) = Some content ->
  default 0 (super_size d) < content ->
  content < 2 ^ 46 ->
  exists adjusted : Z,
    start_ lpmake output_present d project_exists work output_dir fs
    = (set_super_size d adjusted, fs, AskedToConfirm adjusted) /\
    content <= adjusted /\
    (adjusted = content \/ exists k, 1 <= k <= 19 /\ adjusted = candidate k) /\
    (forall requested, requested < content ->
       verify_size fs (selected d) requested = Some (false, adjusted)).
Proof.
  intros Hsum Hlt _.
  destruct (verify_size_adjusted fs (selected d) _ content Hsum Hlt)
    as (adjusted & Hv & Hle & Hform).
  exists adjusted. split; [|split; [exact Hle|split; [exact Hform|]]].
  - unfold start_. destruct (super_size d) as [req|] eqn:Hreq.
    + rewrite Hreq. simpl in Hv |- *. rewrite Hv. reflexivity.
    + simpl in Hv |- *. rewrite Hv. reflexivity.
  - intros requested Hr.
    destruct (verify_size_adjusted fs (selected d) requested content Hsum Hr)
      as (adjusted' & Hv' & _).
    rewrite Hv'. unfold verify_size in Hv, Hv'. rewrite Hsum in Hv, Hv'.
    cbn [mbind option_bind] in Hv, Hv'.
    apply Z.ltb_lt in Hlt, Hr. rewrite Hlt in Hv. rewrite Hr in Hv'.
    congruence.
Qed.

Lemma C2_size_check_stops_witness :
  exists adjusted : Z,
    start_ lpmake_ok output_ok dialog_100MiB true "/rom/" "/rom/" fs_150MiB
    = (set_super_size dialog_100MiB adjusted, fs_150MiB, AskedToConfirm adjusted) /\
    157286400 <= adjusted /\
    (adjusted = 157286400 \/ exists k, 1 <= k <= 19 /\ adjusted = candidate k) /\
    (forall requested, requested < 157286400 ->
       verify_size fs_150MiB (selected dialog_100MiB) requested
       = Some (false, adjusted)).
Proof.
  apply (C2_size_check_stops lpmake_ok output_ok dialog_100MiB true "/rom/" "/rom/"
           fs_150MiB 157286400).
  - vm_compute. reflexivity.
  - vm_compute. reflexivity.
  - vm_compute. reflexivity.
Defined.

(** *** Facts about [pack_super] *)

Lemma canonical_go_spec (lb_c part_list : list string) :
  NoDup lb_c ->
  NoDup (canonical_go lb_c part_list) /\
  forall p, p ∈ canonical_go lb_c part_list
            <-> p ∈ lb_c \/ exists q, q ∈ part_list /\ p = strip_slot q.
Proof.
  revert lb_c. induction part_list as [|part rest IH]; intros lb_c Hnd; simpl.
  - split; [exact Hnd|]. intros p. split; [now left|].
    intros [H|(q & Hq & _)]; [exact H|]. now apply elem_of_nil in Hq.
  - case_bool_decide as Hin.
    + destruct (IH lb_c Hnd) as [Hnd' Hmem]. split; [exact Hnd'|].
      intros p. rewrite Hmem. split.
      * intros [H|(q & Hq & ->)]; [now left|].
        right. exists q. split; [now apply elem_of_cons; right|reflexivity].
      * intros [H|(q & Hq & ->)]; [now left|].
        apply elem_of_cons in Hq as [->|Hq]; [now left|].
        right. now exists q.
    + assert (NoDup (lb_c ++ [strip_slot part])) as Hnd1.
      { apply NoDup_app. split; [exact Hnd|]. split.
        - intros x Hx Hx'. apply list_elem_of_singleton in Hx'. now subst.
        - apply NoDup_singleton. }
      destruct (IH _ Hnd1) as [Hnd' Hmem]. split; [exact Hnd'|].
      intros p. rewrite Hmem, elem_of_app, list_elem_of_singleton. split.
      * intros [[H| ->]|(q & Hq & ->)]; [now left| |].
        -- right. exists part. split; [apply elem_of_cons; now left|reflexivity].
        -- right. exists q. split; [now apply elem_of_cons; right|reflexivity].
      * intros [H|(q & Hq & ->)]; [now left; left|].
        apply elem_of_cons in Hq as [->|Hq]; [left; now right|].
        right. now exists q.
Qed.

Lemma canonical_spec (part_list : list string) :
  NoDup (canonical part_list) /\
  forall p, p ∈ canonical part_list <-> exists q, q ∈ part_list /\ p = strip_slot q.
Proof.
  destruct (canonical_go_spec [] part_list (NoDup_nil_2)) as [Hnd Hmem].
  split; [exact Hnd|]. intros p. unfold canonical. rewrite Hmem.
  split; [|now right]. intros [H|H]; [now apply elem_of_nil in H|exact H].
Qed.

Lemma partitions_single_spec (group_name attrib work : string) (fs : imgfs)
    (parts : list string) :
  (forall p, p ∈ parts -> is_Some (fs !! (p +:+ ".img"))) ->
  exists entries : list (string * N),
    map fst entries = parts /\
    (forall p sz, (p, sz) ∈ entries -> fs !! (p +:+ ".img") = Some sz) /\
    partitions_single group_name attrib work fs parts
    = Some (flat_map (single_args group_name attrib work) entries).
Proof.
  induction parts as [|part rest IH]; intros Hall.
  - exists []. split; [reflexivity|]. split; [|reflexivity].
    intros p sz H. now apply elem_of_nil in H.
  - destruct (Hall part) as [sz Hsz]; [apply elem_of_cons; now left|].
    destruct IH as (entries & Hmap & Hlook & Heq).
    { intros p Hp. apply Hall. apply elem_of_cons. now right. }
    exists ((part, sz) :: entries). split; [simpl; now rewrite Hmap|]. split.
    + intros p sz' H. apply elem_of_cons in H as [[= -> ->]|H]; [exact Hsz|].
      now apply Hlook.
    + cbn [partitions_single]. rewrite Hsz. cbn [mbind option_bind].
      rewrite Heq. reflexivity.
Qed.

(** The A-only example of the specification: [boot] of 10 MiB and
    [system] of 500 MiB (shipped as [system_a.img]) in a 600 MiB group. *)
Example pack_super_boot_system :
  pack_super_command false "main" 629145600 1 [ "boot"; "system_a"; "system_b" ]
                     "readonly" "/rom/out" "/rom/work" "super" fs_boot_system
  = ({[ "boot.img" := (10 * MiB)%N; "system.img" := (500 * MiB)%N ]},
     Some [ "lpmake"; "--metadata-size"; "65536"; "-super-name"; "super";
            "-metadata-slots"; "2"; "-device"; "super:629145600";
            "--group"; "main:629145600";
            "--partition"; "boot:readonly:10485760:main";
            "--image"; "boot=/rom/work/boot.img";
            "--partition"; "system:readonly:524288000:main";
            "--image"; "system=/rom/work/system.img";
            "--out"; "/rom/out/super.img" ]).
Proof. vm_compute. reflexivity. Qed.

(** C3: in A-only mode ([super_type = 1]) the command is the fixed head
    with metadata size 65536, slot count 2, one [-device] entry
    [<name>:<size>], one [--group] entry [<group>:<size>], and for each
    canonical name (suffix stripped, first occurrence kept, so without
    repetition) one [--partition]/[--image] pair whose size field is the
    byte length of that partition's image. *)
Theorem C3_A_only_layout (sparse : bool) (group_name : string) (size : Z)
    (part_list : list string) (attrib output_dir work block_device_name : string)
    (fs : imgfs) :
  let parts := canonical part_list in
  let fs' := rename_slots fs parts in
  (forall p, p ∈ parts -> is_Some (fs' !! (p +:+ ".img"))) ->
  NoDup parts /\
  (forall p, p ∈ parts <-> exists q, q ∈ part_list /\ p = strip_slot q) /\
  exists entries : list (string * N),
    map fst entries = parts /\
    (forall p sz, (p, sz) ∈ entries -> fs' !! (p +:+ ".img") = Some sz) /\
    pack_super_command sparse group_name size 1 part_list attrib output_dir work
                       block_device_name fs
    = (fs',
       Some (command_head block_device_name
             ++ [ "2";
                  "-device"; effective_name block_device_name +:+ ":" +:+ str_int size;
                  "--group"; group_name +:+ ":" +:+ str_int size ]
             ++ flat_map (single_args group_name attrib work) entries
             ++ (if sparse then [ "--sparse" ] else [])
             ++ [ "--out"; output_dir +:+ "/super.img" ])).
Proof.
  intros parts fs' Hall.
  destruct (canonical_spec part_list) as [Hnd Hmem].
  split; [exact Hnd|]. split; [exact Hmem|].
  destruct (partitions_single_spec group_name attrib work fs' parts Hall)
    as (entries & Hmap & Hlook & Heq).
  exists entries. split; [exact Hmap|]. split; [exact Hlook|].
  unfold pack_super_command. fold parts. fold fs'.
  change (1 =? 1) with true. cbv iota. rewrite Heq.
  cbn [mbind option_bind]. unfold command_head.
  rewrite <- !app_assoc. reflexivity.
Qed.

Lemma C3_A_only_layout_witness :
  let part_list := [ "boot"; "system_a"; "system_b" ] in
  let parts := canonical part_list in
  let fs' := rename_slots fs_boot_system parts in
  NoDup parts /\
  (forall p, p ∈ parts <-> exists q, q ∈ part_list /\ p = strip_slot q) /\
  exists entries : list (string * N),
    map fst entries = parts /\
    (forall p sz, (p, sz) ∈ entries -> fs' !! (p +:+ ".img") = Some sz) /\
    pack_super_command false "main" 629145600 1 part_list "readonly" "/rom/out"
                       "/rom/work" "super" fs_boot_system
    = (fs',
       Some (command_head "super"
             ++ [ "2"; "-device"; effective_name "super" +:+ ":" +:+ str_int 629145600;
                  "--group"; "main" +:+ ":" +:+ str_int 629145600 ]
             ++ flat_map (single_args "main" "readonly" "/rom/work") entries
             ++ []
             ++ [ "--out"; "/rom/out" +:+ "/super.img" ])).
Proof.
  apply (C3_A_only_layout false "main" 629145600 [ "boot"; "system_a"; "system_b" ]
           "readonly" "/rom/out" "/rom/work" "super" fs_boot_system).
  intros p Hp. vm_compute in Hp.
  apply elem_of_cons in Hp as [->|Hp]; [vm_compute; eauto|].
  apply elem_of_cons in Hp as [->|Hp]; [vm_compute; eauto|].
  now apply elem_of_nil in Hp.
Defined.

(** The Virtual-AB command for the same directory: the device entry is
    [super:<size>] although the block device is called [oplus_super]. *)
Example pack_super_virtual_ab :
  snd (pack_super_command false "main" 629145600 2 [ "boot" ] "none" "/rom/out"
                          "/rom/" "oplus_super" fs_boot_system)
  = Some [ "lpmake"; "--metadata-size"; "65536"; "-super-name"; "oplus_super";
           "-metadata-slots"; "3"; "-device"; "super:629145600";
           "--group"; "main_a:629145600";
           "--partition"; "boot_a:none:10485760:main_a";
           "--image"; "boot_a=/rom/boot.img";
           "--group"; "main_b:629145600";
           "--partition"; "boot_b:none:0:main_b";
           "--virtual-ab";
           "--out"; "/rom/out/super.img" ].
Proof. vm_compute. reflexivity. Qed.

Lemma partitions_a_spec (group_name attrib work : string) (fs : imgfs)
    (parts : list string) :
  (forall p, p ∈ parts -> is_Some (fs !! (p +:+ ".img"))) ->
  exists entries : list (string * N),
    map fst entries = parts /\
    (forall p sz, (p, sz) ∈ entries -> fs !! (p +:+ ".img") = Some sz) /\
    partitions_a group_name attrib work fs parts
    = Some (flat_map (slot_a_args group_name attrib work) entries).
Proof.
  induction parts as [|part rest IH]; intros Hall.
  - exists []. split; [reflexivity|]. split; [|reflexivity].
    intros p sz H. now apply elem_of_nil in H.
  - destruct (Hall part) as [sz Hsz]; [apply elem_of_cons; now left|].
    destruct IH as (entries & Hmap & Hlook & Heq).
    { intros p Hp. apply Hall. apply elem_of_cons. now right. }
    exists ((part, sz) :: entries). split; [simpl; now rewrite Hmap|]. split.
    + intros p sz' H. apply elem_of_cons in H as [[= -> ->]|H]; [exact Hsz|].
      now apply Hlook.
    + cbn [partitions_a]. rewrite Hsz. cbn [mbind option_bind].
      rewrite Heq. reflexivity.
Qed.

Lemma partitions_b_spec (group_name attrib work : string) (fs : imgfs)
    (parts : list string) :
  (forall p, p ∈ parts -> is_Some (fs !! beside work (p +:+ "_b.img")) ->
             is_Some (fs !! (p +:+ "_b.img"))) ->
  partitions_b group_name attrib work fs parts
  = Some (flat_map (slot_b_args group_name attrib work)
                   (map (slot_b_entry work fs) parts)).
Proof.
  induction parts as [|part rest IH]; intros Hall; [reflexivity|].
  cbn [partitions_b map flat_map]. rewrite IH
    by (intros p Hp; apply Hall; apply elem_of_cons; now right).
  change (slot_b_entry work fs part)
    with (part, match fs !! beside work (part +:+ "_b.img") with
                | None => None
                | Some _ => fs !! (part +:+ "_b.img")
                end).
  destruct (fs !! beside work (part +:+ "_b.img")) as [x|] eqn:Hx;
    cbn [mbind option_bind]; [|reflexivity].
  destruct (Hall part) as [sz Hsz]; [apply elem_of_cons; now left|now exists x|].
  rewrite Hsz. reflexivity.
Qed.

Lemma partitions_single_entries (group_name attrib work : string) (fs : imgfs)
    (entries : list (string * N)) :
  (forall p sz, (p, sz) ∈ entries -> fs !! (p +:+ ".img") = Some sz) ->
  partitions_single group_name attrib work fs (map fst entries)
  = Some (flat_map (single_args group_name attrib work) entries).
Proof.
  induction entries as [|[part sz] entries IH]; intros Hlook; [reflexivity|].
  cbn [map fst partitions_single flat_map].
  rewrite (Hlook part sz) by (apply elem_of_cons; now left).
  cbn [mbind option_bind]. rewrite IH; [reflexivity|].
  intros p' sz' H. apply Hlook. apply elem_of_cons. now right.
Qed.

(** C10: when every canonical partition has its image (and a [_b]
    image that is found is also readable), a command is built in every
    mode.  In the two-slot modes ([super_type] other than 1) the device
    entry is [super:<size>] whatever the block device is called: the
    name only fills the value after [-super-name] in the head, the rest
    of the command does not depend on it.  In A-only mode the name (or
    [super] for an empty one) also makes the device entry. *)
Theorem C10_two_slot_device_is_super (sparse : bool) (group_name : string)
    (size : Z) (part_list : list string) (attrib output_dir work : string)
    (fs : imgfs) :
  let parts := canonical part_list in
  let fs' := rename_slots fs parts in
  (forall p, p ∈ parts -> is_Some (fs' !! (p +:+ ".img"))) ->
  (forall p, p ∈ parts -> is_Some (fs' !! beside work (p +:+ "_b.img")) ->
             is_Some (fs' !! (p +:+ "_b.img"))) ->
  exists entries : list (string * N),
    map fst entries = parts /\
    (forall p sz, (p, sz) ∈ entries -> fs' !! (p +:+ ".img") = Some sz) /\
    (forall (super_type : Z) (name : string), super_type <> 1 ->
       pack_super_command sparse group_name size super_type part_list attrib
                          output_dir work name fs
       = (fs',
          Some (command_head name
                ++ [ "3"; "-device"; "super:" +:+ str_int size;
                     "--group"; group_name +:+ "_a:" +:+ str_int size ]
                ++ flat_map (slot_a_args group_name attrib work) entries
                ++ [ "--group"; group_name +:+ "_b:" +:+ str_int size ]
                ++ flat_map (slot_b_args group_name attrib work)
                            (map (slot_b_entry work fs') parts)
                ++ (if super_type =? 2 then [ "--virtual-ab" ] else [])
                ++ (if sparse then [ "--sparse" ] else [])
                ++ [ "--out"; output_dir +:+ "/super.img" ]))) /\
    (forall name : string,
       pack_super_command sparse group_name size 1 part_list attrib
                          output_dir work name fs
       = (fs',
          Some (command_head name
                ++ [ "2"; "-device"; effective_name name +:+ ":" +:+ str_int size;
                     "--group"; group_name +:+ ":" +:+ str_int size ]
                ++ flat_map (single_args group_name attrib work) entries
                ++ (if sparse then [ "--sparse" ] else [])
                ++ [ "--out"; output_dir +:+ "/super.img" ]))).
Proof.
  intros parts fs' Hall Hb.
  destruct (partitions_a_spec group_name attrib work fs' parts Hall)
    as (entries & Hmap & Hlook & Ha).
  assert (partitions_single group_name attrib work fs' parts
          = Some (flat_map (single_args group_name attrib work) entries)) as Hs
    by (rewrite <- Hmap; now apply partitions_single_entries).
  pose proof (partitions_b_spec group_name attrib work fs' parts Hb) as Hpb.
  exists entries. split; [exact Hmap|]. split; [exact Hlook|]. split.
  - intros super_type name Hne.
    unfold pack_super_command. fold parts. fold fs'.
    apply Z.eqb_neq in Hne. rewrite Hne. cbv iota. rewrite Ha, Hpb.
    cbn [mbind option_bind]. unfold command_head.
    rewrite <- !app_assoc. reflexivity.
  - intros name. unfold pack_super_command. fold parts. fold fs'.
    change (1 =? 1) with true. cbv iota. rewrite Hs.
    cbn [mbind option_bind]. unfold command_head.
    rewrite <- !app_assoc. reflexivity.
Qed.

Lemma C10_two_slot_device_is_super_witness :
  let part_list := [ "boot_a"; "boot_b"; "system_a" ] in
  let parts := canonical part_list in
  let fs' := rename_slots fs_two_slots parts in
  exists entries : list (string * N),
    map fst entries = parts /\
    (forall p sz, (p, sz) ∈ entries -> fs' !! (p +:+ ".img") = Some sz) /\
    (forall (super_type : Z) (name : string), super_type <> 1 ->
       pack_super_command false "main" 629145600 super_type part_list "none"
                          "/rom/out" "/rom/" name fs_two_slots
       = (fs',
          Some (command_head name
                ++ [ "3"; "-device"; "super:" +:+ str_int 629145600;
                     "--group"; "main" +:+ "_a:" +:+ str_int 629145600 ]
                ++ flat_map (slot_a_args "main" "none" "/rom/") entries
                ++ [ "--group"; "main" +:+ "_b:" +:+ str_int 629145600 ]
                ++ flat_map (slot_b_args "main" "none" "/rom/")
                            (map (slot_b_entry "/rom/" fs') parts)
                ++ (if super_type =? 2 then [ "--virtual-ab" ] else [])
                ++ []
                ++ [ "--out"; "/rom/out" +:+ "/super.img" ]))) /\
    (forall name : string,
       pack_super_command false "main" 629145600 1 part_list "none"
                          "/rom/out" "/rom/" name fs_two_slots
       = (fs',
          Some (command_head name
                ++ [ "2"; "-device"; effective_name name +:+ ":" +:+ str_int 629145600;
                     "--group"; "main" +:+ ":" +:+ str_int 629145600 ]
                ++ flat_map (single_args "main" "none" "/rom/") entries
                ++ []
                ++ [ "--out"; "/rom/out" +:+ "/super.img" ]))).
Proof.
  apply (C10_two_slot_device_is_super false "main" 629145600
           [ "boot_a"; "boot_b"; "system_a" ] "none" "/rom/out" "/rom/" fs_two_slots).
  - intros p Hp. vm_compute in Hp.
    apply elem_of_cons in Hp as [->|Hp]; [vm_compute; eauto|].
    apply elem_of_cons in Hp as [->|Hp]; [vm_compute; eauto|].
    now apply elem_of_nil in Hp.
  - intros p Hp Hb. vm_compute in Hp.
    apply elem_of_cons in Hp as [->|Hp]; [vm_compute; eauto|].
    apply elem_of_cons in Hp as [->|Hp].
    + vm_compute in Hb. destruct Hb as [sz Hsz]. discriminate Hsz.
    + now apply elem_of_nil in Hp.
Defined.

(** The two-slot command for [fs_two_slots]: [boot_b] is packed with
    its image, [system_b] is declared with size 0. *)
Example pack_super_two_slots :
  snd (pack_super_command false "main" 629145600 3 [ "boot_a"; "boot_b"; "system_a" ]
                          "none" "/rom/out" "/rom/" "oplus_super" fs_two_slots)
  = Some [ "lpmake"; "--metadata-size"; "65536"; "-super-name"; "oplus_super";
           "-metadata-slots"; "3"; "-device"; "super:629145600";
           "--group"; "main_a:629145600";
           "--partition"; "boot_a:none:10485760:main_a";
           "--image"; "boot_a=/rom/boot.img";
           "--partition"; "system_a:none:524288000:main_a";
           "--image"; "system_a=/rom/system.img";
           "--group"; "main_b:629145600";
           "--partition"; "boot_b:none:12582912:main_b";
           "--image"; "boot_b=/rom//boot_b.img";
           "--partition"; "system_b:none:0:main_b";
           "--out"; "/rom/out/super.img" ].
Proof. vm_compute. reflexivity. Qed.

(** *** The size [verify_size] chooses *)

Lemma fold_left_cons {A B : Type} (f : A -> B -> A) (x : B) (l : list B) (a : A) :
  fold_left f (x :: l) a = fold_left f l (f a x).
Proof. reflexivity. Qed.

Lemma gap_Q (c i : Z) :
  (inject_Z GiB * (inject_Z i - (1 # 4)) - inject_Z c == inject_Z (candidate i - c))%Q.
Proof.
  unfold candidate. change (2 ^ 28) with 268435456.
  change (inject_Z GiB) with (1073741824 # 1)%Q.
  unfold Qeq, Qmult, Qminus, Qplus, Qopp, inject_Z. cbn [Qnum Qden].
  change (Z.pos (1 * (1 * 4) * 1)) with 4. lia.
Qed.

Lemma verify_step_zero (st : vs_state) : verify_step st 0 = st.
Proof. unfold verify_step. now destruct (vs_break st). Qed.

Lemma verify_step_broken (st : vs_state) (i : Z) :
  vs_break st = true -> verify_step st i = st.
Proof. intros H. unfold verify_step. now rewrite H. Qed.

Lemma verify_fold_broken (l : list Z) (st : vs_state) :
  vs_break st = true -> fold_left verify_step l st = st.
Proof.
  intros H. induction l as [|i l IH]; [reflexivity|].
  cbn [fold_left]. now rewrite verify_step_broken.
Qed.

(** A candidate too small for the content changes nothing. *)
Lemma verify_step_below (c i : Z) (d : Q) :
  1 <= i -> candidate i < c ->
  verify_step (VsState (inject_Z c) d false) i = VsState (inject_Z c) d false.
Proof.
  intros Hi Hlt. unfold verify_step. cbn [vs_break vs_size vs_diff].
  replace (i =? 0) with false by (symmetry; apply Z.eqb_neq; lia).
  destruct (Qlt_le_dec _ 0) as [_|Hge]; [reflexivity|].
  rewrite gap_Q in Hge. change 0%Q with (inject_Z 0) in Hge.
  rewrite <- Zle_Qle in Hge. lia.
Qed.

(** The first candidate that holds the content, when its margin is at
    least the content: the loop breaks on it. *)
Lemma verify_step_far (c i : Z) :
  1 <= i -> c <= candidate i -> c <= candidate i - c ->
  verify_step (VsState (inject_Z c) (inject_Z c) false) i
  = VsState ((inject_Z i - (1 # 4)) * inject_Z GiB)%Q (inject_Z c) true.
Proof.
  intros Hi Hfit Hfar. unfold verify_step. cbn [vs_break vs_size vs_diff].
  replace (i =? 0) with false by (symmetry; apply Z.eqb_neq; lia).
  destruct (Qlt_le_dec _ 0) as [Hneg|_].
  { rewrite gap_Q in Hneg. change 0%Q with (inject_Z 0) in Hneg.
    rewrite <- Zlt_Qlt in Hneg. lia. }
  destruct (Qlt_le_dec _ (inject_Z c)) as [Hnear|_]; [|reflexivity].
  rewrite gap_Q in Hnear. rewrite <- Zlt_Qlt in Hnear. lia.
Qed.

(** The first candidate that holds the content, with a margin below the
    content: only the margin is recorded. *)
Lemma verify_step_near (c i : Z) :
  1 <= i -> c <= candidate i -> candidate i - c < c ->
  exists d,
    verify_step (VsState (inject_Z c) (inject_Z c) false) i
    = VsState (inject_Z c) d false /\ (d == inject_Z (candidate i - c))%Q.
Proof.
  intros Hi Hfit Hnear. unfold verify_step. cbn [vs_break vs_size vs_diff].
  replace (i =? 0) with false by (symmetry; apply Z.eqb_neq; lia).
  destruct (Qlt_le_dec _ 0) as [Hneg|_].
  { rewrite gap_Q in Hneg. change 0%Q with (inject_Z 0) in Hneg.
    rewrite <- Zlt_Qlt in Hneg. lia. }
  destruct (Qlt_le_dec _ (inject_Z c)) as [_|Hfar].
  - eexists. split; [reflexivity|apply gap_Q].
  - rewrite gap_Q in Hfar. rewrite <- Zle_Qle in Hfar. lia.
Qed.

(** The candidate after a recorded margin: the loop breaks on it. *)
Lemma verify_step_after (c i : Z) (d : Q) :
  1 <= i -> (d == inject_Z (candidate (i - 1) - c))%Q -> c <= candidate (i - 1) ->
  verify_step (VsState (inject_Z c) d false) i
  = VsState ((inject_Z i - (1 # 4)) * inject_Z GiB)%Q d true.
Proof.
  intros Hi Hd Hfit. unfold verify_step. cbn [vs_break vs_size vs_diff].
  replace (i =? 0) with false by (symmetry; apply Z.eqb_neq; lia).
  assert (candidate (i - 1) < candidate i) as Hmono by (unfold candidate; lia).
  destruct (Qlt_le_dec _ 0) as [Hneg|_].
  { rewrite gap_Q in Hneg. change 0%Q with (inject_Z 0) in Hneg.
    rewrite <- Zlt_Qlt in Hneg. lia. }
  destruct (Qlt_le_dec _ d) as [Hnear|_]; [|reflexivity].
  rewrite gap_Q, Hd in Hnear. rewrite <- Zlt_Qlt in Hnear. lia.
Qed.

Lemma verify_fold_below (c : Z) (n a : nat) :
  (1 <= a)%nat ->
  candidate (Z.of_nat (a + n) - 1) < c ->
  fold_left verify_step (map Z.of_nat (seq a n)) (VsState (inject_Z c) (inject_Z c) false)
  = VsState (inject_Z c) (inject_Z c) false.
Proof.
  revert a. induction n as [|n IH]; intros a Ha Hlt; [reflexivity|].
  cbn [seq map fold_left]. rewrite verify_step_below.
  - apply IH; [lia|]. now replace (S a + n)%nat with (a + S n)%nat by lia.
  - lia.
  - unfold candidate in *. lia.
Qed.

Lemma range20_split (k : nat) :
  (1 <= k <= 19)%nat ->
  range20 = 0 :: map Z.of_nat (seq 1 (k - 1))
              ++ Z.of_nat k :: map Z.of_nat (seq (S k) (19 - k)).
Proof.
  intros Hk. unfold range20.
  replace 20%nat with (1 + ((k - 1) + (1 + (19 - k))))%nat by lia.
  rewrite !seq_app, !map_app. cbn [seq map app Z.of_nat].
  replace (0 + 1 + (k - 1))%nat with k by lia.
  replace (k + 1)%nat with (S k) by lia. reflexivity.
Qed.

Lemma verify_loop_choice (content k : Z) :
  0 <= content -> 1 <= k <= 19 ->
  candidate (k - 1) < content <= candidate k ->
  py_int (vs_size (verify_loop content)) = chosen_size content k.
Proof.
  intros Hc Hk [Hlo Hhi]. unfold verify_loop.
  rewrite (range20_split (Z.to_nat k)) by lia.
  cbn [fold_left]. rewrite verify_step_zero, fold_left_app.
  rewrite verify_fold_below
    by (try lia; replace (Z.of_nat (1 + (Z.to_nat k - 1)) - 1) with (k - 1) by lia;
        exact Hlo).
  cbn [fold_left]. rewrite Z2Nat.id by lia. unfold chosen_size.
  destruct (Z.ltb_spec (candidate k - content) content) as [Hnear|Hfar].
  - destruct (verify_step_near content k) as (d & -> & Hd); try lia.
    destruct (Z.ltb_spec k 19) as [Hk19|Hk19].
    + replace (19 - Z.to_nat k)%nat with (S (18 - Z.to_nat k)) by lia.
      cbn [seq map fold_left].
      replace (Z.of_nat (S (Z.to_nat k))) with (k + 1) by lia.
      rewrite verify_step_after; try lia.
      * rewrite verify_fold_broken by reflexivity. cbn [vs_size].
        apply py_int_of_Z; [unfold candidate; lia|apply candidate_Q].
      * now replace (k + 1 - 1) with k by lia.
      * now replace (k + 1 - 1) with k by lia.
    + replace (19 - Z.to_nat k)%nat with 0%nat by lia.
      cbn [seq map fold_left vs_size]. now apply py_int_of_Z.
  - rewrite verify_step_far by lia.
    rewrite verify_fold_broken by reflexivity. cbn [vs_size].
    apply py_int_of_Z; [unfold candidate; lia|apply candidate_Q].
Qed.

Lemma range20_cons : range20 = 0 :: map Z.of_nat (seq 1 19).
Proof. reflexivity. Qed.

Lemma verify_loop_too_large (content : Z) :
  candidate 19 < content ->
  py_int (vs_size (verify_loop content)) = content.
Proof.
  intros Hlarge. unfold verify_loop. rewrite range20_cons, fold_left_cons.
  rewrite verify_step_zero, verify_fold_below by (try lia; exact Hlarge).
  apply py_int_of_Z; [|reflexivity].
  unfold candidate in Hlarge. lia.
Qed.

(** X21: The size [verify_size] settles on when the content does not fit the
    request.  With [k] the first of the candidates [(k - 0.25)] GiB that
    holds the content: that candidate when its margin is at least the
    content; otherwise the next candidate, and the content total itself
    when there is no next one ([k = 19]). *)
Theorem verify_size_choice (fs : imgfs) (sel : list string)
    (requested content k : Z) :
  sum_sizes fs sel = Some content ->
  requested < content ->
  content < 2 ^ 46 ->
  1 <= k <= 19 ->
  candidate (k - 1) < content <= candidate k ->
  verify_size fs sel requested = Some (false, chosen_size content k).
Proof.
  intros Hsum Hlt _ Hk Hfit. pose proof (sum_sizes_nonneg _ _ _ Hsum) as Hc.
  unfold verify_size. rewrite Hsum. cbn [mbind option_bind].
  apply Z.ltb_lt in Hlt. rewrite Hlt.
  now rewrite (verify_loop_choice content k).
Qed.

Lemma verify_size_choice_witness :
  verify_size {[ "system.img" := 1288490189%N ]} [ "system" ] 0
  = Some (false, chosen_size 1288490189 2).
Proof.
  apply (verify_size_choice {[ "system.img" := 1288490189%N ]} [ "system" ] 0
           1288490189 2).
  - vm_compute. reflexivity.
  - lia.
  - vm_compute. reflexivity.
  - lia.
  - unfold candidate. lia.
Defined.

(** Content above the last candidate (18.75 GiB) is kept as it is. *)
Lemma verify_size_too_large (fs : imgfs) (sel : list string)
    (requested content : Z) :
  sum_sizes fs sel = Some content -> requested < content ->
  candidate 19 < content ->
  verify_size fs sel requested = Some (false, content).
Proof.
  intros Hsum Hlt Hlarge.
  unfold verify_size. rewrite Hsum. cbn [mbind option_bind].
  apply Z.ltb_lt in Hlt. rewrite Hlt.
  now rewrite verify_loop_too_large.
Qed.

(** *** Error and success paths of [pack_super] *)




Lemma beside_separator (work name : string) :
  endswith work "/" = true -> beside work name = name.
Proof. intros H. unfold beside. now rewrite H. Qed.

Lemma has_slash_app (a b : string) :
  existsb (Ascii.eqb "/") (chars (a +:+ b))
  = existsb (Ascii.eqb "/") (chars a) || existsb (Ascii.eqb "/") (chars b).
Proof. now rewrite chars_append, existsb_app. Qed.

(** Without a separator at the end of [work], [work + name] is not an
    entry of the work directory. *)
Lemma beside_has_slash (work name : string) :
  endswith work "/" = false ->
  existsb (Ascii.eqb "/") (chars (beside work name)) = true.
Proof.
  intros H. unfold beside. rewrite H.
  destruct (existsb (Ascii.eqb "/") (chars work)) eqn:E.
  - now rewrite has_slash_app, E.
  - now rewrite !has_slash_app.
Qed.



Lemma remove_sources_lookup (work : string) (fs : imgfs) (part_list : list string)
    (k : string) :
  remove_sources work fs part_list !! k
  = if bool_decide (k ∈ map (fun p => beside work (p +:+ ".img")) part_list)
    then None else fs !! k.
Proof.
  unfold remove_sources. revert fs.
  induction part_list as [|part rest IH]; intros fs; cbn [fold_left map].
  - rewrite bool_decide_eq_false_2; [reflexivity|]. apply not_elem_of_nil.
  - rewrite IH. case_bool_decide as Hrest.
    + rewrite bool_decide_eq_true_2; [reflexivity|]. now apply elem_of_cons; right.
    + destruct (decide (k = beside work (part +:+ ".img"))) as [->|Hne].
      * rewrite lookup_delete_eq. rewrite bool_decide_eq_true_2; [reflexivity|].
        apply elem_of_cons; now left.
      * rewrite lookup_delete_ne by congruence.
        rewrite bool_decide_eq_false_2; [reflexivity|].
        intros H. apply elem_of_cons in H as [H|H]; [congruence|contradiction].
Qed.

(** X23: A run that gets as far as the packaging tool: the outcome is
    [Packed] exactly when the tool exits with 0 and [super.img] exists.
    Only then, and only when [del_] is 1, the files [work + part +
    ".img"] of the canonical partitions are removed; nothing else is
    touched after the tool has run.  With a work path that ends with
    the separator these files are the source images in the work
    directory; without it they are files beside that directory, and
    every entry of the work directory stays. *)
Theorem pack_super_removes_sources_on_success
    (lpmake : command -> imgfs -> imgfs * Z) (output_present : imgfs -> bool)
    (sparse : bool) (group_name : string) (size super_type : Z)
    (part_list : list string) (del_ return_cmd : Z)
    (attrib output_dir work block_device_name : string) (fs fs' fs1 : imgfs)
    (c : command) (rc : Z) :
  pack_super_command sparse group_name size super_type part_list attrib
                     output_dir work block_device_name fs = (fs', Some c) ->
  return_cmd <> 1 ->
  lpmake c fs' = (fs1, rc) ->
  let success := bool_decide (rc = 0) && output_present fs1 in
  let removed := map (fun p => beside work (p +:+ ".img")) (canonical part_list) in
  exists fs2,
    pack_super lpmake output_present sparse group_name size super_type part_list
               del_ return_cmd attrib output_dir work block_device_name fs
    = (fs2, if success then Packed c else PackFailed c) /\
    (forall k, fs2 !! k
               = if success && bool_decide (del_ = 1) && bool_decide (k ∈ removed)
                 then None else fs1 !! k) /\
    (endswith work "/" = true ->
       removed = map (fun p => p +:+ ".img") (canonical part_list)) /\
    (endswith work "/" = false ->
       forall k, existsb (Ascii.eqb "/") (chars k) = false -> fs2 !! k = fs1 !! k).
Proof.
  intros Hcmd Hret Hrun success removed.
  assert (exists fs2,
    pack_super lpmake output_present sparse group_name size super_type part_list
               del_ return_cmd attrib output_dir work block_device_name fs
    = (fs2, if success then Packed c else PackFailed c) /\
    (forall k, fs2 !! k
               = if success && bool_decide (del_ = 1) && bool_decide (k ∈ removed)
                 then None else fs1 !! k)) as (fs2 & Hrun2 & Hlook).
  { unfold pack_super, pack_super_body. rewrite Hcmd.
    apply Z.eqb_neq in Hret. rewrite Hret, Hrun. subst success.
    destruct (Z.eqb_spec rc 0) as [->|Hrc].
    - rewrite bool_decide_eq_true_2 by reflexivity. cbn [andb].
      destruct (output_present fs1); cbn [andb].
      + destruct (Z.eqb_spec del_ 1) as [->|Hdel].
        * rewrite bool_decide_eq_true_2 by reflexivity. cbn [andb].
          eexists. split; [reflexivity|]. intros k. apply remove_sources_lookup.
        * rewrite (bool_decide_eq_false_2 (del_ = 1)) by exact Hdel.
          eexists. split; [reflexivity|]. reflexivity.
      + eexists. split; reflexivity.
    - rewrite bool_decide_eq_false_2 by exact Hrc. cbn [andb].
      eexists. split; reflexivity. }
  exists fs2. split; [exact Hrun2|]. split; [exact Hlook|]. split.
  - intros Hsep. subst removed. apply map_ext. intros p.
    now apply beside_separator.
  - intros Hsep k Hk. rewrite Hlook.
    rewrite (bool_decide_eq_false_2 (k ∈ removed)); [now rewrite andb_false_r|].
    subst removed. intros Hin. apply list_elem_of_fmap in Hin as (p & -> & _).
    rewrite beside_has_slash in Hk by exact Hsep. discriminate Hk.
Qed.

Lemma pack_super_removes_sources_on_success_witness :
  let part_list := [ "boot"; "system_a"; "system_b" ] in
  let work := "/rom/" in
  let fs' := rename_slots fs_boot_system (canonical part_list) in
  let fs1 := <["super.img" := (600 * MiB)%N]> fs' in
  let lpmake := fun (_ : command) (d : imgfs) =>
                  (<["super.img" := (600 * MiB)%N]> d, 0) in
  let c := command_head "super"
           ++ [ "2"; "-device"; "super:629145600"; "--group"; "main:629145600" ]
           ++ single_args "main" "readonly" work ("boot", (10 * MiB)%N)
           ++ single_args "main" "readonly" work ("system", (500 * MiB)%N)
           ++ [ "--out"; "/rom/out/super.img" ] in
  let success := bool_decide (0 = 0) && output_ok fs1 in
  let removed := map (fun p => beside work (p +:+ ".img")) (canonical part_list) in
  exists fs2,
    pack_super lpmake output_ok false "main" 629145600 1 part_list 1 0 "readonly"
               "/rom/out" work "super" fs_boot_system
    = (fs2, if success then Packed c else PackFailed c) /\
    (forall k, fs2 !! k
               = if success && bool_decide (1 = 1) && bool_decide (k ∈ removed)
                 then None else fs1 !! k) /\
    (endswith work "/" = true ->
       removed = map (fun p => p +:+ ".img") (canonical part_list)) /\
    (endswith work "/" = false ->
       forall k, existsb (Ascii.eqb "/") (chars k) = false -> fs2 !! k = fs1 !! k).
Proof.
  intros part_list work fs' fs1 lpmake c.
  apply (pack_super_removes_sources_on_success lpmake output_ok false
           "main" 629145600 1 part_list 1 0 "readonly"
           "/rom/out" work "super" fs_boot_system fs' fs1 c 0).
  - vm_compute. reflexivity.
  - lia.
  - reflexivity.
Defined.

(** The same run from a work path without the separator: the tool
    succeeds, [del_] is 1, and both source images are still there. *)
Example pack_super_keeps_sources_without_separator :
  let lpmake := fun (_ : command) (d : imgfs) =>
                  (<["super.img" := (600 * MiB)%N]> d, 0) in
  fst (pack_super lpmake output_ok false "main" 629145600 1
                  [ "boot"; "system_a"; "system_b" ] 1 0 "readonly"
                  "/rom/out" "/rom/work" "super" fs_boot_system)
  = {[ "boot.img" := (10 * MiB)%N; "system.img" := (500 * MiB)%N;
       "super.img" := (600 * MiB)%N ]}.
Proof. vm_compute. reflexivity. Qed.

End PackSuperProofs.

(** ** The Unpack Orchestrator *)

Module UnpackProofs.
Import Engine Unpack.

(** Unfolding of the monadic notation. *)
Ltac munfold :=
  unfold mbind, M_bind, bind, mret, M_ret, ret, when, print, emit in *.

(** Reduction of the projections of a state record. *)
Ltac sproj := cbn [fs parts parts_info events] in *.

(** *** Multi-part transfer reassembly *)

Lemma segment_ne_dat (i : string) (n : Z) : segment i n <> i +:+ ".new.dat".
Proof.
  unfold segment. intros H. apply String.app_inj in H. discriminate.
Qed.

Lemma segment_inj (i : string) (n m : Z) : segment i n = segment i m -> n = m.
Proof.
  unfold segment. intros H. apply String.app_inj in H.
  apply (String.app_inj ".new.dat.") in H. now apply str_int_inj.
Qed.

Lemma append_segment_absent (E : env) (i : string) (n : Z) (s : state) :
  fs s !! segment i n = None -> append_segment E i n s = Val tt s.
Proof.
  intros H. unfold append_segment, exists_. munfold. now rewrite H.
Qed.

Lemma append_segment_file (E : env) (i : string) (n : Z) (s : state)
    (data old : list byte) :
  fs s !! segment i n = Some (File data) ->
  fs s !! (i +:+ ".new.dat") = Some (File old) ->
  exists s',
    append_segment E i n s = Val tt s' /\
    fs s' = delete (segment i n) (<[i +:+ ".new.dat" := File (old ++ data)]> (fs s)) /\
    parts s' = parts s /\ parts_info s' = parts_info s.
Proof.
  intros Hseg Hdat. unfold append_segment, exists_. munfold.
  rewrite Hseg.
  assert (bool_decide (is_Some (Some (File data))) = true) as ->
    by (apply bool_decide_eq_true; eauto).
  unfold read_file, append_file, remove, with_event, with_fs. sproj.
  rewrite Hseg. sproj. rewrite Hdat. sproj.
  rewrite lookup_insert_ne by (apply not_eq_sym, segment_ne_dat).
  rewrite Hseg. eexists. split; [reflexivity|]. sproj. auto.
Qed.

(** The loop over a list of distinct segment numbers. *)
Lemma append_segments (E : env) (i : string) (l : list Z) :
  NoDup l ->
  forall (s : state) (old : list byte),
  (forall n, n ∈ l -> fs s !! segment i n <> Some Folder) ->
  fs s !! (i +:+ ".new.dat") = Some (File old) ->
  exists s',
    for_each (append_segment E i) l s = Val tt s' /\
    parts s' = parts s /\ parts_info s' = parts_info s /\
    forall k,
      fs s' !! k =
        if decide (k = i +:+ ".new.dat")
        then Some (File (old ++ concat (map (segment_data (fs s) i) l)))
        else if decide (k ∈ map (segment i) l) then None
        else fs s !! k.
Proof.
  induction 1 as [|n l Hn Hl IH]; intros s old Hok Hdat.
  - exists s. split; [reflexivity|]. split; [reflexivity|]. split; [reflexivity|].
    intros k. cbn [map concat]. rewrite app_nil_r.
    repeat case_decide; subst; try done.
    exfalso. eapply elem_of_nil. eassumption.
  - cbn [for_each].
    destruct (fs s !! segment i n) as [[data|]|] eqn:Hseg.
    + destruct (append_segment_file E i n s data old Hseg Hdat)
        as (s1 & Hrun & Hfs1 & Hp1 & Hi1).
      rewrite Hrun.
      assert (forall m, m ∈ l -> fs s1 !! segment i m = fs s !! segment i m) as Hsame.
      { intros m Hm. rewrite Hfs1.
        rewrite lookup_delete_ne by (intros Heq; apply segment_inj in Heq; now subst).
        now rewrite lookup_insert_ne by (apply not_eq_sym, segment_ne_dat). }
      destruct (IH s1 (old ++ data)) as (s' & Hfor & Hp & Hi & Hlook).
      { intros m Hm. rewrite Hsame by assumption. apply Hok. now right. }
      { rewrite Hfs1.
        rewrite lookup_delete_ne by apply segment_ne_dat.
        now rewrite lookup_insert_eq. }
      exists s'. split; [exact Hfor|]. split; [congruence|]. split; [congruence|].
      intros k. rewrite Hlook. cbn [map concat].
      replace (map (segment_data (fs s1) i) l) with (map (segment_data (fs s) i) l).
      2:{ apply map_ext_in. intros m Hm. unfold segment_data.
          rewrite Hsame; [reflexivity|]. now apply list_elem_of_In. }
      unfold segment_data at 2. rewrite Hseg.
      case_decide as Hk; [now rewrite <- app_assoc|].
      repeat case_decide; try reflexivity.
      * exfalso. apply H0. now right.
      * apply elem_of_cons in H0 as [->|H0]; [|contradiction].
        rewrite Hfs1. now rewrite lookup_delete_eq.
      * rewrite Hfs1. rewrite lookup_delete_ne, lookup_insert_ne; try congruence.
        intros <-. apply H0. now left.
    + exfalso. apply (Hok n); [now left|exact Hseg].
    + rewrite append_segment_absent by assumption.
      destruct (IH s old) as (s' & Hfor & Hp & Hi & Hlook).
      { intros m Hm. apply Hok. now right. }
      { exact Hdat. }
      exists s'. split; [exact Hfor|]. split; [exact Hp|]. split; [exact Hi|].
      intros k. rewrite Hlook. cbn [map concat].
      unfold segment_data at 2. rewrite Hseg. cbn [app].
      case_decide as Hk; [reflexivity|].
      repeat case_decide; try reflexivity.
      * exfalso. apply H0. now right.
      * apply elem_of_cons in H0 as [->|H0]; [|contradiction]. now rewrite Hseg.
Qed.

Lemma range100_NoDup : NoDup range100.
Proof. apply (bool_decide_unpack _). vm_compute. reflexivity. Qed.

Lemma elem_of_range100 (n : Z) : n ∈ range100 <-> 0 <= n < 100.
Proof.
  unfold range100. rewrite list_elem_of_In, in_map_iff. split.
  - intros (k & <- & Hk). apply in_seq in Hk. lia.
  - intros Hn. exists (Z.to_nat n). split; [lia|]. apply in_seq. lia.
Qed.

Lemma elem_of_segments (i : string) (k : string) :
  k ∈ map (segment i) range100 <-> exists n, 0 <= n < 100 /\ k = segment i n.
Proof.
  rewrite list_elem_of_In, in_map_iff. split.
  - intros (n & <- & Hn). exists n. split; [|reflexivity].
    now apply elem_of_range100, list_elem_of_In.
  - intros (n & Hn & ->). exists n. split; [reflexivity|].
    now apply list_elem_of_In, elem_of_range100.
Qed.

Example reassemble_sample :
  match reassemble (sample_env [] []) "system" (start_state dir_segments) with
  | Val _ s' =>
      fs s' = {[ "system.new.dat" := File (bytes "heads0s1s2");
                 "system.new.dat.100" := File (bytes "s100") ]}
  | _ => False
  end.
Proof. vm_compute. reflexivity. Qed.

(** X1: Multi-part reassembly: it runs only when [<i>.new.dat.1] exists; it
    then appends to [<i>.new.dat] (created when missing) the segments
    [<i>.new.dat.0] ... [<i>.new.dat.99] that exist, in ascending
    order, and removes them; a segment numbered 100 or more, like every
    other entry, is left as it was. *)
Theorem reassemble_appends_segments (E : env) (i : string) (s : state) :
  let dat := i +:+ ".new.dat" in
  (fs s !! segment i 1 = None -> reassemble E i s = Val tt s) /\
  (is_Some (fs s !! segment i 1) ->
   fs s !! dat <> Some Folder ->
   (forall n, 0 <= n < 100 -> fs s !! segment i n <> Some Folder) ->
   exists s',
     reassemble E i s = Val tt s' /\
     parts s' = parts s /\ parts_info s' = parts_info s /\
     fs s' !! dat
       = Some (File (file_data (fs s) dat
                     ++ concat (map (segment_data (fs s) i) range100))) /\
     (forall n, 0 <= n < 100 -> fs s' !! segment i n = None) /\
     (forall n, 100 <= n -> fs s' !! segment i n = fs s !! segment i n) /\
     (forall k, k <> dat -> (forall n, 0 <= n < 100 -> k <> segment i n) ->
                fs s' !! k = fs s !! k)).
Proof.
  intros dat. split.
  - intros Hnone. unfold reassemble, exists_. munfold.
    change (i +:+ ".new.dat.1") with (segment i 1). now rewrite Hnone.
  - intros Htrig Hdat Hsegs. unfold reassemble, exists_. munfold.
    change (i +:+ ".new.dat.1") with (segment i 1).
    rewrite bool_decide_eq_true_2 by exact Htrig.
    fold dat.
    (* the state once the output file is open *)
    set (s0 := match fs s !! dat with
               | Some _ => s
               | None => with_fs (<[dat := File []]> (fs s)) s
               end).
    assert (open_append dat s = Val tt s0) as Hopen.
    { unfold open_append, s0. destruct (fs s !! dat) as [[old|]|]; try reflexivity.
      now contradiction Hdat. }
    rewrite Hopen.
    assert (fs s0 !! dat = Some (File (file_data (fs s) dat))) as Hdat0.
    { unfold s0, file_data. destruct (fs s !! dat) as [[old|]|] eqn:Hd.
      - exact Hd.
      - now contradiction Hdat.
      - unfold with_fs. sproj. apply lookup_insert_eq. }
    assert (forall k, k <> dat -> fs s0 !! k = fs s !! k) as Hother.
    { intros k Hk. unfold s0. destruct (fs s !! dat); [reflexivity|].
      unfold with_fs. sproj. now rewrite lookup_insert_ne by congruence. }
    assert (parts s0 = parts s /\ parts_info s0 = parts_info s) as [Hp0 Hi0].
    { unfold s0. destruct (fs s !! dat); split; reflexivity. }
    destruct (append_segments E i range100 range100_NoDup s0
                (file_data (fs s) dat))
      as (s' & Hfor & Hp & Hi & Hlook).
    { intros n Hn. rewrite Hother by apply segment_ne_dat.
      apply Hsegs. now apply elem_of_range100. }
    { exact Hdat0. }
    exists s'. split; [exact Hfor|]. split; [congruence|]. split; [congruence|].
    assert (map (segment_data (fs s0) i) range100
            = map (segment_data (fs s) i) range100) as Hdata.
    { apply map_ext. intros n. unfold segment_data.
      now rewrite Hother by apply segment_ne_dat. }
    rewrite Hdata in Hlook.
    split; [|split; [|split]].
    + rewrite Hlook. now rewrite decide_True by reflexivity.
    + intros n Hn. rewrite Hlook.
      rewrite decide_False by apply segment_ne_dat.
      rewrite decide_True; [reflexivity|].
      apply elem_of_segments. exists n. split; [exact Hn|reflexivity].
    + intros n Hn. rewrite Hlook.
      rewrite decide_False by apply segment_ne_dat.
      rewrite decide_False.
      * apply Hother, segment_ne_dat.
      * intros Hin. apply elem_of_segments in Hin as (m & Hm & Heq).
        apply segment_inj in Heq. lia.
    + intros k Hk Hnot. rewrite Hlook.
      rewrite decide_False by exact Hk.
      rewrite decide_False.
      * now apply Hother.
      * intros Hin. apply elem_of_segments in Hin as (m & Hm & Heq).
        now apply (Hnot m).
Qed.

Lemma no_folder_lookup (d : dir) (k : string) :
  map_Forall (fun _ n => n <> Folder) d -> d !! k <> Some Folder.
Proof. intros Hall Hk. now apply (Hall k Folder Hk). Qed.

Lemma dir_segments_files : map_Forall (fun _ n => n <> Folder) dir_segments.
Proof.
  unfold dir_segments. repeat (apply map_Forall_insert_2; [discriminate|]).
  first [ apply map_Forall_empty | apply map_Forall_singleton; discriminate ].
Qed.

Lemma reassemble_appends_segments_witness :
  let s := start_state dir_segments in
  let dat := "system" +:+ ".new.dat" in
  exists s',
    reassemble (sample_env [] []) "system" s = Val tt s' /\
    parts s' = parts s /\ parts_info s' = parts_info s /\
    fs s' !! dat
      = Some (File (file_data (fs s) dat
                    ++ concat (map (segment_data (fs s) "system") range100))) /\
    (forall n, 0 <= n < 100 -> fs s' !! segment "system" n = None) /\
    (forall n, 100 <= n ->
       fs s' !! segment "system" n = fs s !! segment "system" n) /\
    (forall k, k <> dat -> (forall n, 0 <= n < 100 -> k <> segment "system" n) ->
               fs s' !! k = fs s !! k).
Proof.
  apply (reassemble_appends_segments (sample_env [] []) "system"
           (start_state dir_segments)).
  - vm_compute. eauto.
  - apply no_folder_lookup, dir_segments_files.
  - intros n _. apply no_folder_lookup, dir_segments_files.
Defined.

(** *** Transfer-list replay *)

(** Two entry names built on the same partition name differ when their
    suffixes do. *)
Ltac name_ne :=
  let H := fresh in
  intros H; apply String.app_inj in H; discriminate.

Lemma exists_true (name : string) (s : state) :
  is_Some (fs s !! name) -> exists_ name s = Val true s.
Proof. intros H. unfold exists_. now rewrite bool_decide_eq_true_2. Qed.

Lemma exists_false (name : string) (s : state) :
  fs s !! name = None -> exists_ name s = Val false s.
Proof.
  intros H. unfold exists_. rewrite bool_decide_eq_false_2; [reflexivity|].
  rewrite H. now intros [x Hx].
Qed.

(** X2: Replay with the sidecar present: once [Sdat2img] has produced the
    image, [<i>.new.dat] and [<i>.transfer.list] are removed, a
    [<i>.patch.dat] file is removed too, the version is recorded under
    [dat_ver], and nothing else changes. *)
Theorem replay_transfer_consumes_inputs (E : env) (work i : string) (s : state)
    (data : list byte) (d' : dir) (version : Z) :
  let dat := i +:+ ".new.dat" in
  let transferfile := i +:+ ".transfer.list" in
  let img := i +:+ ".img" in
  let patch := i +:+ ".patch.dat" in
  fs s !! dat = Some (File data) -> data <> [] ->
  is_Some (fs s !! transferfile) ->
  Sdat2img E transferfile dat img (fs s) = (d', version) ->
  is_Some (d' !! img) ->
  (exists x, d' !! dat = Some (File x)) ->
  (exists x, d' !! transferfile = Some (File x)) ->
  exists s',
    replay_transfer E work i s = Val tt s' /\
    fs s' !! dat = None /\ fs s' !! transferfile = None /\
    (forall x, fs s' !! patch <> Some (File x)) /\
    (forall k, k <> dat -> k <> transferfile -> k <> patch ->
               fs s' !! k = d' !! k) /\
    parts s' = <["dat_ver" := RDatVer version]> (parts s) /\
    parts_info s' = parts_info s.
Proof.
  intros dat transferfile img patch Hdat Hne Htl Hrun Himg [xd Hd'] [xt Ht'].
  unfold replay_transfer. fold dat transferfile img patch. munfold.
  rewrite exists_true by (rewrite Hdat; eauto).
  unfold with_event. sproj.
  unfold getsize. sproj. rewrite Hdat.
  assert ((Z.of_nat (length data) =? 0) = false) as ->.
  { apply Z.eqb_neq. destruct data; [contradiction|]. simpl. lia. }
  cbn [negb].
  rewrite exists_true by (sproj; exact Htl).
  sproj. rewrite Hrun.
  unfold set_part, get_parts, set_parts, with_parts, with_fs. munfold. sproj.
  rewrite exists_true by (sproj; exact Himg).
  unfold remove at 1. sproj. rewrite Hd'.
  unfold with_fs. sproj.
  unfold remove at 1. sproj.
  rewrite lookup_delete_ne by (subst dat transferfile; name_ne).
  rewrite Ht'. unfold with_fs. sproj.
  unfold try_, remove. sproj.
  set (d2 := delete transferfile (delete dat d')).
  assert (forall k, k <> dat -> k <> transferfile -> d2 !! k = d' !! k) as Hd2.
  { intros k H1 H2. unfold d2. now rewrite !lookup_delete_ne by congruence. }
  assert (d2 !! dat = None) as Hd2dat.
  { unfold d2. rewrite lookup_delete_ne by (subst dat transferfile; name_ne).
    apply lookup_delete_eq. }
  assert (d2 !! transferfile = None) as Hd2tl by apply lookup_delete_eq.
  destruct (d2 !! patch) as [[xp|]|] eqn:Hp.
  - eexists. split; [reflexivity|]. unfold with_fs. sproj.
    rewrite !lookup_delete_ne by (subst dat transferfile patch; name_ne).
    split; [exact Hd2dat|]. split; [exact Hd2tl|]. split.
    + intros x. now rewrite lookup_delete_eq.
    + split; [|split; reflexivity].
      intros k H1 H2 H3. rewrite lookup_delete_ne by congruence. now apply Hd2.
  - eexists. split; [reflexivity|]. sproj.
    split; [exact Hd2dat|]. split; [exact Hd2tl|]. split.
    + intros x. rewrite Hp. discriminate.
    + split; [|split; reflexivity]. intros k H1 H2 H3. now apply Hd2.
  - eexists. split; [reflexivity|]. sproj.
    split; [exact Hd2dat|]. split; [exact Hd2tl|]. split.
    + intros x. rewrite Hp. discriminate.
    + split; [|split; reflexivity]. intros k H1 H2 H3. now apply Hd2.
Qed.

Lemma replay_transfer_consumes_inputs_witness :
  let E := sample_env [] [] in
  let s := start_state dir_transfer in
  let d' := <["system.img" := File (bytes "erofs.blocks")]> dir_transfer in
  exists s',
    replay_transfer E "/rom/" "system" s = Val tt s' /\
    fs s' !! ("system" +:+ ".new.dat") = None /\
    fs s' !! ("system" +:+ ".transfer.list") = None /\
    (forall x, fs s' !! ("system" +:+ ".patch.dat") <> Some (File x)) /\
    (forall k, k <> "system" +:+ ".new.dat" -> k <> "system" +:+ ".transfer.list" ->
               k <> "system" +:+ ".patch.dat" -> fs s' !! k = d' !! k) /\
    parts s' = <["dat_ver" := RDatVer 4]> (parts s) /\
    parts_info s' = parts_info s.
Proof.
  apply (replay_transfer_consumes_inputs (sample_env [] []) "/rom/" "system"
           (start_state dir_transfer) (bytes "erofs.blocks")
           (<["system.img" := File (bytes "erofs.blocks")]> dir_transfer) 4).
  - reflexivity.
  - discriminate.
  - vm_compute. eauto.
  - reflexivity.
  - vm_compute. eauto.
  - vm_compute. eauto.
  - vm_compute. eauto.
Defined.

(** X3: Replay without the sidecar: when [<i>.transfer.list] is missing the
    replay only prints (the last line is the "transfer file missing"
    message), invokes no collaborator and touches neither the directory
    nor the registry. *)
Theorem replay_transfer_missing_list (E : env) (work i : string) (s : state)
    (data : list byte) :
  let dat := i +:+ ".new.dat" in
  fs s !! dat = Some (File data) -> data <> [] ->
  fs s !! (i +:+ ".transfer.list") = None ->
  replay_transfer E work i s
  = Val tt (State (fs s) (parts s) (parts_info s)
                  (events s ++ [ Printed (lang E "text79" +:+ path work dat);
                                 Printed ("transferfile" +:+ lang E "text84") ])).
Proof.
  intros dat Hdat Hne Htl. unfold replay_transfer. fold dat. munfold.
  rewrite exists_true by (rewrite Hdat; eauto).
  unfold with_event. sproj. unfold getsize. sproj. rewrite Hdat.
  assert ((Z.of_nat (length data) =? 0) = false) as ->.
  { apply Z.eqb_neq. destruct data; [contradiction|]. simpl. lia. }
  cbn [negb]. rewrite exists_false by (sproj; exact Htl).
  sproj. now rewrite <- app_assoc.
Qed.

Lemma replay_transfer_missing_list_witness :
  let E := sample_env [] [] in
  let s := start_state dir_no_list in
  replay_transfer E "/rom/" "system" s
  = Val tt (State (fs s) (parts s) (parts_info s)
                  (events s ++ [ Printed (lang E "text79"
                                          +:+ path "/rom/" ("system" +:+ ".new.dat"));
                                 Printed ("transferfile" +:+ lang E "text84") ])).
Proof.
  apply (replay_transfer_missing_list (sample_env [] []) "/rom/" "system"
           (start_state dir_no_list) (bytes "erofs.blocks")).
  - reflexivity.
  - discriminate.
  - reflexivity.
Defined.

(** X4: An empty [<i>.new.dat] is passed over without invoking [Sdat2img],
    even when the transfer list is there; no message says so. *)
Theorem replay_transfer_empty_dat (E : env) (work i : string) (s : state) :
  fs s !! (i +:+ ".new.dat") = Some (File []) ->
  replay_transfer E work i s
  = Val tt (State (fs s) (parts s) (parts_info s)
                  (events s ++ [ Printed (lang E "text79"
                                          +:+ path work (i +:+ ".new.dat")) ])).
Proof.
  intros Hdat. unfold replay_transfer. munfold.
  rewrite exists_true by (rewrite Hdat; eauto).
  unfold with_event. sproj. unfold getsize. sproj. rewrite Hdat.
  reflexivity.
Qed.

Lemma replay_transfer_empty_dat_witness :
  let d : dir := {[ "system.new.dat" := File [];
                    "system.transfer.list" := File (bytes "4") ]} in
  let E := sample_env [] [] in
  let s := start_state d in
  replay_transfer E "/rom/" "system" s
  = Val tt (State (fs s) (parts s) (parts_info s)
                  (events s ++ [ Printed (lang E "text79"
                                          +:+ path "/rom/" ("system" +:+ ".new.dat")) ])).
Proof.
  apply (replay_transfer_empty_dat (sample_env [] []) "/rom/" "system"
           (start_state {[ "system.new.dat" := File [];
                           "system.transfer.list" := File (bytes "4") ]})).
  reflexivity.
Defined.

(** *** The loop over the selection *)

(** Symbolic execution of the monadic code: unfold the control
    operators, reduce the state projections, decide comparisons of
    string constants. *)
Ltac mrun :=
  cbv beta iota zeta delta
    [bind mbind M_bind ret mret M_ret when type_of get_parts set_parts set_part
     with_parts with_event with_fs print emit message_pop collab continue_ return_
     negb andb orb];
  cbn [fs parts parts_info events].

Ltac eqb_consts :=
  repeat match goal with
  | |- context [String.eqb ?a ?b] =>
      let v := eval vm_compute in (String.eqb a b) in
      match v with
      | true => change (String.eqb a b) with true
      | false => change (String.eqb a b) with false
      end
  end.

(** A loop that runs through a first part of its list goes on with
    the rest. *)
Lemma for_each_app {A : Type} (body : A -> M unit) (l1 l2 : list A) (s s1 : state) :
  for_each body l1 s = Val tt s1 ->
  for_each body (l1 ++ l2) s = for_each body l2 s1.
Proof.
  revert s. induction l1 as [|x l1 IH]; intros s H; cbn [for_each app] in *.
  - injection H as ->. reflexivity.
  - destruct (body x s); try discriminate H; now apply IH.
Qed.


Lemma try_Raised (m : M unit) (s s' : state) :
  m s = Raised s' -> try_ m s = Val tt s'.
Proof. intros H. unfold try_. now rewrite H. Qed.

Lemma step_zst_absent (E : env) (work i : string) (s : state) :
  fs s !! (i +:+ ".zst") = None -> step_zst E work i s = Val tt s.
Proof. intros H. unfold step_zst. munfold. now rewrite exists_false. Qed.

Lemma step_xz_absent (E : env) (work i : string) (s : state) :
  fs s !! (i +:+ ".new.dat.xz") = None -> step_xz E work i s = Val tt s.
Proof. intros H. unfold step_xz. munfold. now rewrite exists_false. Qed.

Lemma step_br_absent (E : env) (work i : string) (s : state) :
  fs s !! (i +:+ ".new.dat.br") = None -> step_br E work i s = Val tt s.
Proof. intros H. unfold step_br. munfold. now rewrite exists_false. Qed.

Lemma reassemble_absent (E : env) (i : string) (s : state) :
  fs s !! (i +:+ ".new.dat.1") = None -> reassemble E i s = Val tt s.
Proof. intros H. unfold reassemble. munfold. now rewrite exists_false. Qed.

Lemma replay_transfer_absent (E : env) (work i : string) (s : state) :
  fs s !! (i +:+ ".new.dat") = None -> replay_transfer E work i s = Val tt s.
Proof. intros H. unfold replay_transfer. munfold. now rewrite exists_false. Qed.

(** A plain image reaches [process_image] unchanged. *)
Lemma unpack_one_plain (E : env) (work i : string) (s : state) :
  no_sidecars (fs s) i -> is_Some (fs s !! (i +:+ ".img")) ->
  unpack_one E work i s = process_image E work i s.
Proof.
  intros (Hzst & Hxz & Hbr & Hseg & Hdat) Himg.
  unfold unpack_one. unfold mbind, M_bind.
  unfold bind at 1. rewrite step_zst_absent by assumption. cbv beta iota.
  unfold bind at 1. rewrite step_xz_absent by assumption. cbv beta iota.
  unfold bind at 1. rewrite step_br_absent by assumption. cbv beta iota.
  unfold bind at 1. rewrite reassemble_absent by assumption. cbv beta iota.
  unfold bind at 1. rewrite replay_transfer_absent by assumption. cbv beta iota.
  unfold bind at 1. rewrite exists_true by assumption. reflexivity.
Qed.

(** X5: A failing extractor does not stop the batch: for a plain [erofs] or
    [f2fs] image whose extractor exits non-zero, the iteration prints
    "Unpack failed...", records the partition's type, performs no
    removal after the tool has run, and the loop goes on with the rest
    of the selection. *)
Theorem unpack_failed_extractor_continues (E : env) (work i file_type : string)
    (s : state) (d' : dir) (rc : Z) :
  file_type = "erofs" \/ file_type = "f2fs" ->
  no_sidecars (fs s) i ->
  is_Some (fs s !! (i +:+ ".img")) ->
  gettype E (fs s) (i +:+ ".img") = file_type ->
  i <> "logo" ->
  call E (extractor_argv work file_type i) (fs s) = (d', rc) ->
  rc <> 0 ->
  let s' :=
    State d' (<[i := RType file_type]> (delete i (parts s))) (parts_info s)
          (events s
           ++ [ Printed (lang E "text79" +:+ i +:+ ".img[" +:+ file_type +:+ "]");
                Invoked "call" (extractor_argv work file_type i);
                Printed "Unpack failed..." ]) in
  unpack_one E work i s = Skip s' /\
  forall rest : list string,
    for_each (unpack_one E work) (i :: rest) s
    = for_each (unpack_one E work) rest s'.
Proof.
  intros Hft Hplain Himg Hty Hlogo Hcall Hrc s'.
  assert (unpack_one E work i s = Skip s') as Hone.
  { rewrite unpack_one_plain by assumption.
    assert (String.eqb i "logo" = false) as Hl by (now apply String.eqb_neq).
    assert ((rc =? 0) = false) as Hz by (now apply Z.eqb_neq).
    unfold process_image.
    destruct Hft as [-> | ->]; unfold extractor_argv in Hcall, s';
      revert Hcall; eqb_consts; intros Hcall; mrun;
      repeat (progress (rewrite ?Hty, ?Hl; eqb_consts; mrun));
      rewrite lookup_insert_eq;
      rewrite bool_decide_eq_true_2 by eauto;
      repeat (progress (rewrite ?Hty, ?Hl; eqb_consts; mrun));
      unfold extract_by_tool, run_call; mrun; rewrite Hcall, Hz; mrun;
      unfold s'; rewrite <- !app_assoc; reflexivity. }
  split; [exact Hone|].
  intros rest. cbn [for_each]. now rewrite Hone.
Qed.

Lemma unpack_failed_extractor_continues_witness :
  let E := sample_env [ "vendor" ] [] in
  let s := start_state dir_three in
  let s' :=
    State dir_three (<["vendor" := RType "erofs"]> (delete "vendor" (parts s)))
          (parts_info s)
          (events s
           ++ [ Printed (lang E "text79" +:+ "vendor" +:+ ".img[" +:+ "erofs" +:+ "]");
                Invoked "call" (extractor_argv "/rom/" "erofs" "vendor");
                Printed "Unpack failed..." ]) in
  unpack_one E "/rom/" "vendor" s = Skip s' /\
  forall rest : list string,
    for_each (unpack_one E "/rom/") ("vendor" :: rest) s
    = for_each (unpack_one E "/rom/") rest s'.
Proof.
  apply (unpack_failed_extractor_continues (sample_env [ "vendor" ] []) "/rom/"
           "vendor" "erofs" (start_state dir_three) dir_three 1).
  - now left.
  - repeat split.
  - vm_compute. eauto.
  - reflexivity.
  - discriminate.
  - reflexivity.
  - discriminate.
Defined.

(** The batch of the specification: three images, the middle extractor
    fails; the first and third are extracted and all three are recorded
    in the registry file. *)
Example unpack_three_middle_fails :
  match unpack (sample_env [ "vendor" ] []) "/rom/" true true
               [ "system"; "vendor"; "product" ] "" (start_state dir_three) with
  | Done true s' =>
      fs s' = {[ "system" := Folder; "vendor.img" := File (bytes "erofs.v");
                 "product" := Folder; "config" := Folder ]} /\
      parts_info s' = Some {[ "system" := RType "erofs"; "vendor" := RType "erofs";
                              "product" := RType "f2fs" ]}
  | _ => False
  end.
Proof. vm_compute. split; reflexivity. Qed.



Lemma unpack_guard_stops (E : env) (work : string) (project_exists
    work_exists : bool) (chose : list string) (form : string) (s : state) :
  project_exists = false \/ work_exists = false \/ chose = [] ->
  exists s',
    unpack E work project_exists work_exists chose form s = Done false s' /\
    fs s' = fs s /\ parts_info s' = parts_info s /\
    (forall tool args, Invoked tool args ∈ events s' -> Invoked tool args ∈ events s).
Proof.
  intros H. unfold unpack, try_, unpack_body.
  destruct project_exists.
  2:{ mrun. eexists. split; [reflexivity|]. sproj. split; [reflexivity|].
      split; [reflexivity|]. intros tool args Hin.
      apply elem_of_app in Hin as [Hin|Hin]; [exact Hin|].
      apply list_elem_of_singleton in Hin. discriminate. }
  destruct work_exists.
  2:{ mrun. eexists. split; [reflexivity|]. sproj. split; [reflexivity|].
      split; [reflexivity|]. intros tool args Hin.
      apply elem_of_app in Hin as [Hin|Hin]; [exact Hin|].
      apply list_elem_of_singleton in Hin. discriminate. }
  destruct H as [H|[H|H]]; try discriminate. subst chose.
  unfold json_read. mrun. eexists. split; [reflexivity|]. sproj. auto.
Qed.

(** X7: Preconditions, on a host other than Windows.  With no project
    selected, or in the single layout with a missing work directory, or
    with an empty selection, [unpack] returns [False]; it runs no
    collaborator and changes neither the directory nor the registry
    file, and in the first two cases the project is left as it was (no
    directory is created).  In the split layout with a project
    selected the guard itself creates a missing work directory, so
    that both guards pass and the call goes on. *)
Theorem unpack_preconditions (E : env) (work : string) (p : project)
    (chose : list string) (form : string) (s : state) :
  let run := unpack_project E work p chose form in
  (project_name p = "" \/ (struct p = Single /\ work_dir_exists p = false)
   \/ chose = [] ->
   exists s',
     snd run s = Done false s' /\
     fs s' = fs s /\ parts_info s' = parts_info s /\
     (forall tool args, Invoked tool args ∈ events s' -> Invoked tool args ∈ events s) /\
     (project_name p = "" \/ struct p = Single -> fst run = p)) /\
  (project_name p <> "" -> struct p = Split ->
   run = (Project (project_name p) Split true, unpack E work true true chose form)).
Proof.
  intros run. subst run. unfold unpack_project, exist.
  destruct p as [name layout present]. cbn [project_name struct work_dir_exists].
  split.
  - intros H. destruct (String.eqb_spec name "") as [->|Hname].
    + cbn [negb fst snd].
      destruct (unpack_guard_stops E work false false chose form s)
        as (s' & Hs & Hrest); [now left|].
      exists s'. split; [exact Hs|]. now repeat split; try apply Hrest.
    + destruct layout; unfold current_work_path;
        cbn [project_name struct work_dir_exists].
      * destruct present; cbn [negb fst snd].
        -- destruct H as [H|[[_ H]|H]]; [contradiction|discriminate|].
           destruct (unpack_guard_stops E work true true chose form s)
             as (s' & Hs & Hrest); [now right; right|].
           exists s'. split; [exact Hs|]. now repeat split; try apply Hrest.
        -- destruct (unpack_guard_stops E work false false chose form s)
             as (s' & Hs & Hrest); [now left|].
           exists s'. split; [exact Hs|]. now repeat split; try apply Hrest.
      * destruct H as [H|[[H _]|H]]; [contradiction|discriminate|].
        assert (String.eqb name "" = false) as Hn by (now apply String.eqb_neq).
        destruct present; cbn [negb andb project_name struct work_dir_exists];
          rewrite ?Hn; cbn [negb andb fst snd project_name struct work_dir_exists];
          (destruct (unpack_guard_stops E work true true chose form s)
             as (s' & Hs & Hrest); [now right; right|]);
          exists s'; (split; [exact Hs|]);
          (repeat split; try apply Hrest); intros [Hc|Hc]; congruence.
  - intros Hname ->. apply String.eqb_neq in Hname. rewrite Hname.
    unfold current_work_path; cbn [project_name struct work_dir_exists].
    destruct present; cbn [negb andb project_name struct work_dir_exists];
      rewrite ?Hname; cbn [negb andb fst snd project_name struct work_dir_exists];
      reflexivity.
Qed.

Lemma unpack_preconditions_witness :
  let p := Project "rom" Single false in
  let run := unpack_project (sample_env [] []) "/rom/" p [ "system" ] "" in
  exists s',
    snd run (start_state dir_three) = Done false s' /\
    fs s' = fs (start_state dir_three) /\
    parts_info s' = parts_info (start_state dir_three) /\
    (forall tool args, Invoked tool args ∈ events s' ->
                       Invoked tool args ∈ events (start_state dir_three)) /\
    (project_name p = "" \/ struct p = Single -> fst run = p).
Proof.
  apply (proj1 (unpack_preconditions (sample_env [] []) "/rom/"
                  (Project "rom" Single false) [ "system" ] ""
                  (start_state dir_three))).
  right. left. split; reflexivity.
Defined.

(** The split layout: the same call on a project whose work directory
    is missing creates it and unpacks. *)
Example unpack_split_creates_work_dir :
  let run := unpack_project (sample_env [] []) "/rom/" (Project "rom" Split false)
                            [ "system" ] "" in
  fst run = Project "rom" Split true /\
  match snd run (start_state dir_three) with
  | Done true s' => is_Some (fs s' !! "system")
  | _ => False
  end.
Proof. vm_compute. split; [reflexivity|eauto]. Qed.

Lemma img_ne_config (i : string) : i +:+ ".img" <> "config".
Proof.
  intros H. assert (String.length (i +:+ ".img") = 6%nat) as Hlen by now rewrite H.
  rewrite str_length_app in Hlen. simpl in Hlen.
  destruct i as [|a [|b [|c i]]]; simpl in Hlen; try lia.
  simpl in H. discriminate.
Qed.

(** A successful extraction: for a plain [erofs] or [f2fs] image whose
    extractor exits 0 and leaves the output directory, the image is
    removed and its type recorded. *)
Lemma unpack_one_extracted (E : env) (work i file_type : string)
    (s : state) (d' : dir) (x : list byte) :
  file_type = "erofs" \/ file_type = "f2fs" ->
  no_sidecars (fs s) i ->
  is_Some (fs s !! (i +:+ ".img")) ->
  gettype E (fs s) (i +:+ ".img") = file_type ->
  i <> "logo" ->
  call E (extractor_argv work file_type i) (fs s) = (d', 0) ->
  is_Some (d' !! i) ->
  d' !! (i +:+ ".img") = Some (File x) ->
  unpack_one E work i s
  = Val tt
      (State (delete (i +:+ ".img") d')
             (<[i := RType file_type]> (delete i (parts s))) (parts_info s)
             (events s
              ++ [ Printed (lang E "text79" +:+ i +:+ ".img[" +:+ file_type +:+ "]");
                   Invoked "call" (extractor_argv work file_type i) ])).
Proof.
  intros Hft Hplain Himg Hty Hlogo Hcall Hout Hfile.
  rewrite unpack_one_plain by assumption.
  assert (String.eqb i "logo" = false) as Hl by (now apply String.eqb_neq).
  unfold process_image.
  destruct Hft as [-> | ->]; unfold extractor_argv in *;
    revert Hcall; eqb_consts; intros Hcall; mrun;
    repeat (progress (rewrite ?Hty, ?Hl; eqb_consts; mrun));
    rewrite lookup_insert_eq;
    rewrite bool_decide_eq_true_2 by eauto;
    repeat (progress (rewrite ?Hty, ?Hl; eqb_consts; mrun));
    unfold extract_by_tool, run_call; mrun; rewrite Hcall;
    change (0 =? 0) with true; mrun;
    rewrite exists_true by (sproj; exact Hout);
    unfold try_catch, remove; mrun; rewrite Hfile; mrun;
    rewrite <- !app_assoc; reflexivity.
Qed.

(** X8: The registry is read, modified and written back: after a batch of
    one successfully extracted image, the registry file holds what it
    held before, with the entry of that partition replaced by its type;
    the [config] directory is created when missing. *)
Theorem unpack_records_extracted (E : env) (work i file_type : string)
    (s : state) (d' : dir) (x : list byte) :
  file_type = "erofs" \/ file_type = "f2fs" ->
  no_sidecars (fs s) i ->
  is_Some (fs s !! (i +:+ ".img")) ->
  gettype E (fs s) (i +:+ ".img") = file_type ->
  i <> "logo" ->
  call E (extractor_argv work file_type i) (fs s) = (d', 0) ->
  is_Some (d' !! i) ->
  d' !! (i +:+ ".img") = Some (File x) ->
  d' !! "config" = None \/ d' !! "config" = Some Folder ->
  exists s',
    unpack E work true true [ i ] "" s = Done true s' /\
    parts_info s'
      = Some (<[i := RType file_type]> (delete i (default ∅ (parts_info s)))) /\
    parts s' = ∅ /\
    fs s' = <["config" := Folder]> (delete (i +:+ ".img") d').
Proof.
  intros Hft Hplain Himg Hty Hlogo Hcall Hout Hfile Hconfig.
  unfold unpack, try_, unpack_body, json_read. eqb_consts. mrun. cbn [for_each].
  erewrite unpack_one_extracted; try eassumption.
  unfold finish. mrun.
  assert (delete (i +:+ ".img") d' !! "config" = d' !! "config") as Hc
    by (apply lookup_delete_ne, img_ne_config).
  destruct Hconfig as [Hnone|Hdir].
  - rewrite exists_false by (sproj; now rewrite Hc).
    mrun. unfold makedirs, json_write. sproj. rewrite Hc, Hnone. mrun.
    rewrite lookup_insert_eq. mrun.
    eexists. split; [reflexivity|]. sproj. auto.
  - rewrite exists_true by (sproj; rewrite Hc, Hdir; eauto).
    mrun. unfold json_write. sproj. rewrite Hc, Hdir. mrun.
    eexists. split; [reflexivity|]. sproj. split; [reflexivity|].
    split; [reflexivity|]. symmetry. apply insert_id. now rewrite Hc.
Qed.

Lemma unpack_records_extracted_witness :
  let s := State dir_three {[ "vendor" := RType "ext" ]}
                 (Some {[ "vendor" := RType "ext"; "boot" := RType "boot" ]}) [] in
  let d' := <["vendor" := Folder]> dir_three in
  exists s',
    unpack (sample_env [] []) "/rom/" true true [ "vendor" ] "" s = Done true s' /\
    parts_info s'
      = Some (<["vendor" := RType "erofs"]>
                (delete "vendor" (default ∅ (parts_info s)))) /\
    parts s' = ∅ /\
    fs s' = <["config" := Folder]> (delete ("vendor" +:+ ".img") d').
Proof.
  apply (unpack_records_extracted (sample_env [] []) "/rom/" "vendor" "erofs"
           (State dir_three {[ "vendor" := RType "ext" ]}
                  (Some {[ "vendor" := RType "ext"; "boot" := RType "boot" ]}) [])
           (<["vendor" := Folder]> dir_three) (bytes "erofs.v")).
  - now left.
  - repeat split.
  - vm_compute. eauto.
  - reflexivity.
  - discriminate.
  - reflexivity.
  - vm_compute. eauto.
  - reflexivity.
  - now left.
Defined.

(** *** Sparse images in the loose path *)

(** X9: A sparse image whose conversion to raw fails stays in the batch:
    the failure is shown in a pop-up, the image is left as it is and
    recorded in the registry under the type [sparse]; nothing is
    extracted and the loop goes on. *)
Theorem unpack_sparse_codec_fails (E : env) (work i : string) (s : state) :
  let img := i +:+ ".img" in
  no_sidecars (fs s) i ->
  is_Some (fs s !! img) ->
  gettype E (fs s) img = "sparse" ->
  i <> "logo" ->
  simg2img E img (fs s) = None ->
  unpack_one E work i s
  = Val tt
      (State (fs s) (<[i := RType "sparse"]> (delete i (parts s))) (parts_info s)
             (events s
              ++ [ Printed (lang E "text79" +:+ i +:+ ".img[" +:+ "sparse" +:+ "]");
                   Invoked "simg2img" [ path work img ];
                   Popup (fmt E (lang E "warn11") [ img ]);
                   Printed (lang E "text79" +:+ i +:+ ".img[" +:+ "sparse" +:+ "]") ])).
Proof.
  intros img Hplain Himg Hty Hlogo Hfail.
  rewrite unpack_one_plain by assumption.
  assert (String.eqb i "logo" = false) as Hl by (now apply String.eqb_neq).
  unfold process_image. fold img. mrun.
  repeat (progress (rewrite ?Hty, ?Hl; eqb_consts; mrun)).
  unfold run_simg2img. mrun. rewrite Hfail. mrun.
  rewrite lookup_delete_eq.
  rewrite bool_decide_eq_false_2 by (now intros [x Hx]).
  repeat (progress (rewrite ?Hty, ?Hl; eqb_consts; mrun)).
  rewrite <- !app_assoc. reflexivity.
Qed.

Lemma unpack_sparse_codec_fails_witness :
  let E := broken_codec_env in
  let s := start_state dir_sparse in
  let img := "system" +:+ ".img" in
  unpack_one E "/rom/" "system" s
  = Val tt
      (State (fs s) (<["system" := RType "sparse"]> (delete "system" (parts s)))
             (parts_info s)
             (events s
              ++ [ Printed (lang E "text79" +:+ "system" +:+ ".img[" +:+ "sparse" +:+ "]");
                   Invoked "simg2img" [ path "/rom/" img ];
                   Popup (fmt E (lang E "warn11") [ img ]);
                   Printed (lang E "text79" +:+ "system" +:+ ".img[" +:+ "sparse" +:+ "]") ])).
Proof.
  apply (unpack_sparse_codec_fails broken_codec_env "/rom/" "system"
           (start_state dir_sparse)).
  - repeat split.
  - vm_compute. eauto.
  - reflexivity.
  - discriminate.
  - reflexivity.
Defined.

(** X10: A sparse [erofs] or [f2fs] image is first converted to raw, then
    recorded under the type the raw image has, extracted and removed. *)
Theorem unpack_sparse_then_extracted (E : env) (work i file_type : string)
    (s : state) (d1 d2 : dir) (x : list byte) :
  let img := i +:+ ".img" in
  file_type = "erofs" \/ file_type = "f2fs" ->
  no_sidecars (fs s) i ->
  is_Some (fs s !! img) ->
  gettype E (fs s) img = "sparse" ->
  i <> "logo" ->
  simg2img E img (fs s) = Some d1 ->
  gettype E d1 img = file_type ->
  call E (extractor_argv work file_type i) d1 = (d2, 0) ->
  is_Some (d2 !! i) ->
  d2 !! img = Some (File x) ->
  unpack_one E work i s
  = Val tt
      (State (delete img d2)
             (<[i := RType file_type]> (delete i (parts s))) (parts_info s)
             (events s
              ++ [ Printed (lang E "text79" +:+ i +:+ ".img[" +:+ "sparse" +:+ "]");
                   Invoked "simg2img" [ path work img ];
                   Printed (lang E "text79" +:+ i +:+ ".img[" +:+ "sparse" +:+ "]");
                   Invoked "call" (extractor_argv work file_type i) ])).
Proof.
  intros img Hft Hplain Himg Hty Hlogo Hconv Hraw Hcall Hout Hfile. subst img.
  rewrite unpack_one_plain by assumption.
  assert (String.eqb i "logo" = false) as Hl by (now apply String.eqb_neq).
  unfold process_image.
  destruct Hft as [-> | ->]; unfold extractor_argv in *;
    revert Hcall; eqb_consts; intros Hcall; mrun;
    repeat (progress (rewrite ?Hty, ?Hl; eqb_consts; mrun));
    unfold run_simg2img; mrun; rewrite Hconv; mrun;
    rewrite lookup_delete_eq;
    rewrite bool_decide_eq_false_2 by (now intros [y Hy]);
    repeat (progress (rewrite ?Hraw, ?Hl; eqb_consts; mrun));
    unfold extract_by_tool, run_call; mrun; rewrite Hcall;
    change (0 =? 0) with true; mrun;
    rewrite exists_true by (sproj; exact Hout);
    unfold try_catch, remove; mrun; rewrite Hfile; mrun;
    rewrite <- !app_assoc; reflexivity.
Qed.

Lemma unpack_sparse_then_extracted_witness :
  let E := sample_env [] [] in
  let s := start_state dir_sparse in
  let img := "system" +:+ ".img" in
  let d1 : dir := <[img := File (bytes "erofs.s")]> dir_sparse in
  let d2 : dir := <["system" := Folder]> d1 in
  unpack_one E "/rom/" "system" s
  = Val tt
      (State (delete img d2)
             (<["system" := RType "erofs"]> (delete "system" (parts s)))
             (parts_info s)
             (events s
              ++ [ Printed (lang E "text79" +:+ "system" +:+ ".img[" +:+ "sparse" +:+ "]");
                   Invoked "simg2img" [ path "/rom/" img ];
                   Printed (lang E "text79" +:+ "system" +:+ ".img[" +:+ "sparse" +:+ "]");
                   Invoked "call" (extractor_argv "/rom/" "erofs" "system") ])).
Proof.
  apply (unpack_sparse_then_extracted (sample_env [] []) "/rom/" "system" "erofs"
           (start_state dir_sparse)
           (<["system" +:+ ".img" := File (bytes "erofs.s")]> dir_sparse)
           (<["system" := Folder]>
              (<["system" +:+ ".img" := File (bytes "erofs.s")]> dir_sparse))
           (bytes "erofs.s")).
  - now left.
  - repeat split.
  - vm_compute. eauto.
  - reflexivity.
  - discriminate.
  - reflexivity.
  - reflexivity.
  - reflexivity.
  - vm_compute. eauto.
  - reflexivity.
Defined.

(** *** Slot normalisation after unpacking a super image *)

(** X11: In the [form == 'super'] branch an [_a] image whose stem holds no
    further [_a] is renamed to the unsuffixed name when that name is
    free, and left alone when it is taken: an existing image is never
    overwritten there. *)
Theorem normalize_super_a_slot (E : env) (stem : string) (s : state) (n : node) :
  contains (chars "_a") (chars stem) = false ->
  fs s !! (stem +:+ "_a.img") = Some n ->
  (fs s !! (stem +:+ ".img") = None ->
     normalize_super E (stem +:+ "_a.img") s
     = Val tt (with_fs (<[stem +:+ ".img" := n]>
                          (delete (stem +:+ "_a.img") (fs s))) s)) /\
  (is_Some (fs s !! (stem +:+ ".img")) ->
     normalize_super E (stem +:+ "_a.img") s = Val tt s).
Proof.
  intros Hclean Hsrc.
  assert (endswith (stem +:+ "_a.img") "_a.img" = true) as Ha
    by (now rewrite endswith_app).
  assert (endswith (stem +:+ "_a.img") "_b.img" = false) as Hb
    by (now rewrite endswith_app).
  split.
  - intros Hfree. unfold normalize_super, drop_empty_b.
    rewrite (str_replace_slot _ Hclean), Ha, Hb. mrun.
    rewrite exists_false by exact Hfree. mrun.
    unfold rename. rewrite Hsrc, Hfree. destruct n; reflexivity.
  - intros Htaken. unfold normalize_super, drop_empty_b.
    rewrite (str_replace_slot _ Hclean), Ha, Hb. mrun.
    rewrite exists_true by exact Htaken. reflexivity.
Qed.

Lemma normalize_super_a_slot_witness :
  let E := sample_env [] [] in
  let s := start_state dir_slots in
  (fs s !! ("system" +:+ ".img") = None ->
     normalize_super E ("system" +:+ "_a.img") s
     = Val tt (with_fs (<["system" +:+ ".img" := File (bytes "erofs.s")]>
                          (delete ("system" +:+ "_a.img") (fs s))) s)) /\
  (is_Some (fs s !! ("system" +:+ ".img")) ->
     normalize_super E ("system" +:+ "_a.img") s = Val tt s).
Proof.
  apply (normalize_super_a_slot (sample_env [] []) "system" (start_state dir_slots)
           (File (bytes "erofs.s"))).
  - reflexivity.
  - reflexivity.
Defined.

(** X12: A [_b] image is removed exactly when it is a zero-length file. *)
Theorem normalize_super_b_slot (E : env) (stem : string) (s : state)
    (data : list byte) :
  fs s !! (stem +:+ "_b.img") = Some (File data) ->
  normalize_super E (stem +:+ "_b.img") s
  = Val tt (if decide (data = [])
            then with_fs (delete (stem +:+ "_b.img") (fs s)) s
            else s).
Proof.
  intros Hfile.
  assert (endswith (stem +:+ "_b.img") "_a.img" = false) as Ha
    by (now rewrite endswith_app).
  assert (endswith (stem +:+ "_b.img") "_b.img" = true) as Hb
    by (now rewrite endswith_app).
  unfold normalize_super, drop_empty_b. rewrite Ha, Hb. mrun.
  unfold exists_. mrun. unfold getsize. rewrite Hfile.
  destruct data as [|b data].
  - change (Z.of_nat (length []) =? 0) with true. mrun.
    unfold remove. now rewrite Hfile.
  - replace (Z.of_nat (length (b :: data)) =? 0) with false
      by (symmetry; apply Z.eqb_neq; simpl; lia).
    reflexivity.
Qed.

Lemma normalize_super_b_slot_witness :
  normalize_super (sample_env [] []) ("system" +:+ "_b.img") (start_state dir_slots)
  = Val tt (if decide (@nil byte = [])
            then with_fs (delete ("system" +:+ "_b.img") (fs (start_state dir_slots)))
                         (start_state dir_slots)
            else start_state dir_slots).
Proof.
  apply (normalize_super_b_slot (sample_env [] []) "system" (start_state dir_slots) []).
  reflexivity.
Defined.

(** The whole [form == 'super'] branch on an A/B image: the filled
    [_a] slot becomes the unsuffixed image and the empty [_b] slot is
    removed.  A stem that holds [_a] itself loses every occurrence:
    [oem_apps_a.img] ends up as [oempps.img]. *)
Example unpack_super_slots :
  match unpack (sample_env [] [ ("system_a", bytes "erofs.s"); ("system_b", []);
                                ("oem_apps_a", bytes "erofs.o") ])
               "/rom/" true true [ "system" ] "super"
               (start_state {[ "super.img" := File (bytes "super.meta");
                               "config" := Folder ]}) with
  | Done true s' =>
      fs s' = {[ "super.img" := File (bytes "super.meta"); "config" := Folder;
                 "system.img" := File (bytes "erofs.s");
                 "oempps.img" := File (bytes "erofs.o") ]}
  | _ => False
  end.
Proof. vm_compute. reflexivity. Qed.

(** *** Slot normalisation for a nested super image *)

Lemma slot_ne_plain (stem : string) : stem +:+ "_a.img" <> stem +:+ ".img".
Proof.
  intros H. apply (f_equal String.length) in H.
  rewrite !str_length_app in H. simpl in H. lia.
Qed.

(** X13: For a nested super image an [_a] image takes the unsuffixed
    name when that name is free.  When the unsuffixed image exists as
    well, the code goes on to [pathlib.Path(...)], a name tool.py never
    binds: a [NameError] is raised there, and nothing is renamed or
    removed. *)
Theorem normalize_nested_a_slot (E : env) (stem : string) (s : state) (n : node) :
  contains (chars "_a") (chars stem) = false ->
  fs s !! (stem +:+ "_a.img") = Some n ->
  (fs s !! (stem +:+ ".img") = None ->
     normalize_nested E (stem +:+ "_a.img") s
     = Val tt (with_fs (<[stem +:+ ".img" := n]>
                          (delete (stem +:+ "_a.img") (fs s))) s)) /\
  (is_Some (fs s !! (stem +:+ ".img")) ->
     normalize_nested E (stem +:+ "_a.img") s = Raised s).
Proof.
  intros Hclean Hsrc.
  assert (endswith (stem +:+ "_a.img") "_a.img" = true) as Ha
    by (now rewrite endswith_app).
  assert (endswith (stem +:+ "_a.img") "_b.img" = false) as Hb
    by (now rewrite endswith_app).
  split.
  - intros Hfree. unfold normalize_nested, drop_empty_b.
    rewrite (str_replace_slot _ Hclean), Ha, Hb. mrun.
    rewrite exists_true by (rewrite Hsrc; eauto).
    rewrite exists_false by exact Hfree. mrun.
    unfold rename. rewrite Hsrc, Hfree. destruct n; reflexivity.
  - intros Htaken. unfold normalize_nested, drop_empty_b.
    rewrite (str_replace_slot _ Hclean), Ha, Hb. mrun.
    rewrite exists_true by (rewrite Hsrc; eauto).
    rewrite exists_true by exact Htaken. reflexivity.
Qed.

Lemma normalize_nested_a_slot_witness :
  let E := sample_env [] [] in
  let s := start_state {[ "system_a.img" := File (bytes "erofs.new");
                          "system.img" := File (bytes "erofs.old") ]} in
  (fs s !! ("system" +:+ ".img") = None ->
     normalize_nested E ("system" +:+ "_a.img") s
     = Val tt (with_fs (<["system" +:+ ".img" := File (bytes "erofs.new")]>
                          (delete ("system" +:+ "_a.img") (fs s))) s)) /\
  (is_Some (fs s !! ("system" +:+ ".img")) ->
     normalize_nested E ("system" +:+ "_a.img") s = Raised s).
Proof.
  apply (normalize_nested_a_slot (sample_env [] []) "system"
           (start_state {[ "system_a.img" := File (bytes "erofs.new");
                           "system.img" := File (bytes "erofs.old") ]})
           (File (bytes "erofs.new"))).
  - reflexivity.
  - reflexivity.
Defined.

(** Both cases on concrete directories: the rename, and the exception
    that leaves both images in place. *)
Example normalize_nested_renames :
  normalize_nested (sample_env [] []) "system_a.img" (start_state dir_slots)
  = Val tt (start_state {[ "system.img" := File (bytes "erofs.s");
                           "system_b.img" := File [] ]}).
Proof. vm_compute. reflexivity. Qed.

Example normalize_nested_both_present :
  let d : dir := {[ "system_a.img" := File (bytes "erofs.new");
                    "system.img" := File (bytes "erofs.old") ]} in
  normalize_nested (sample_env [] []) "system_a.img" (start_state d)
  = Raised (start_state d).
Proof. vm_compute. reflexivity. Qed.

End UnpackProofs.

(** ** The Compressed-Transfer Pipeline *)

Module ConversionProofs.
Import Engine Unpack Conversion UnpackProofs.

Lemma name_ne_temp (name : string) : name +:+ "s" <> name.
Proof.
  intros H. assert (String.length (name +:+ "s") = String.length name) as Hlen
    by now rewrite H.
  rewrite str_length_app in Hlen. simpl in Hlen. lia.
Qed.

(** X14: [img2simg] replaces its source only by a finished output: when the
    codec leaves no [<name>s] file the directory stays as the codec
    left it; when it does, that file takes the place of the source and
    the temporary name is gone.  The exit status plays no part. *)
Theorem img2simg_replaces_source (E : env) (work name : string) (s : state)
    (d' : dir) (rc : Z) :
  call E [ "img2simg"; path work name; path work name +:+ "s" ] (fs s) = (d', rc) ->
  exists s',
    img2simg E work name s = Val tt s' /\
    parts s' = parts s /\ parts_info s' = parts_info s /\
    (d' !! (name +:+ "s") = None -> fs s' = d') /\
    (forall x y, d' !! (name +:+ "s") = Some (File x) -> d' !! name = Some (File y) ->
       fs s' !! name = Some (File x) /\ fs s' !! (name +:+ "s") = None /\
       forall k, k <> name -> k <> name +:+ "s" -> fs s' !! k = d' !! k).
Proof.
  intros Hcall. unfold img2simg, run_call. mrun. rewrite Hcall. mrun.
  destruct (d' !! (name +:+ "s")) as [[x|]|] eqn:Htmp.
  - rewrite exists_true by (sproj; rewrite Htmp; eauto). mrun.
    unfold try_, remove, rename. mrun.
    destruct (d' !! name) as [[y|]|] eqn:Hsrc.
    + mrun. rewrite lookup_delete_ne by (apply not_eq_sym, name_ne_temp).
      rewrite Htmp, lookup_delete_eq.
      eexists. split; [reflexivity|]. sproj.
      split; [reflexivity|]. split; [reflexivity|]. split; [discriminate|].
      intros x' y' [= <-] _. split; [apply lookup_insert_eq|]. split.
      * rewrite lookup_insert_ne by (apply not_eq_sym, name_ne_temp).
        apply lookup_delete_eq.
      * intros k Hk1 Hk2.
        now rewrite lookup_insert_ne, !lookup_delete_ne by congruence.
    + eexists. split; [reflexivity|]. sproj.
      split; [reflexivity|]. split; [reflexivity|]. split; [discriminate|].
      intros x' y' _ [=].
    + eexists. split; [reflexivity|]. sproj.
      split; [reflexivity|]. split; [reflexivity|]. split; [discriminate|].
      intros x' y' _ [=].
  - rewrite exists_true by (sproj; rewrite Htmp; eauto). mrun.
    unfold try_, remove, rename. mrun.
    destruct (d' !! name) as [[y|]|] eqn:Hsrc.
    + mrun. rewrite lookup_delete_ne by (apply not_eq_sym, name_ne_temp).
      rewrite Htmp, lookup_delete_eq.
      eexists. split; [reflexivity|]. sproj.
      split; [reflexivity|]. split; [reflexivity|]. split; [discriminate|].
      intros x' y' [=].
    + eexists. split; [reflexivity|]. sproj.
      split; [reflexivity|]. split; [reflexivity|]. split; [discriminate|].
      intros x' y' [=].
    + eexists. split; [reflexivity|]. sproj.
      split; [reflexivity|]. split; [reflexivity|]. split; [discriminate|].
      intros x' y' [=].
  - rewrite exists_false by (sproj; exact Htmp). mrun.
    eexists. split; [reflexivity|]. sproj.
    split; [reflexivity|]. split; [reflexivity|]. split; [reflexivity|].
    intros x' y' [=].
Qed.

Lemma img2simg_replaces_source_witness :
  let E := sample_env [] [] in
  let s := start_state dir_raw in
  let d' := <["system.imgs" := File (bytes "sparse.erofs.s")]> dir_raw in
  exists s',
    img2simg E "/rom/" "system.img" s = Val tt s' /\
    parts s' = parts s /\ parts_info s' = parts_info s /\
    (d' !! ("system.img" +:+ "s") = None -> fs s' = d') /\
    (forall x y, d' !! ("system.img" +:+ "s") = Some (File x) ->
                 d' !! "system.img" = Some (File y) ->
       fs s' !! "system.img" = Some (File x) /\
       fs s' !! ("system.img" +:+ "s") = None /\
       forall k, k <> "system.img" -> k <> "system.img" +:+ "s" ->
                 fs s' !! k = d' !! k).
Proof.
  apply (img2simg_replaces_source (sample_env [] []) "/rom/" "system.img"
           (start_state dir_raw)
           (<["system.imgs" := File (bytes "sparse.erofs.s")]> dir_raw) 0).
  reflexivity.
Defined.

(** *** [datbr] *)

(** X15: Without [<name>.img], [datbr] prints that it is missing and does
    nothing else, whatever the requested encoding. *)
Theorem datbr_missing_image (E : env) (work name : string) (brl : option Z)
    (dat_ver : Z) (s : state) :
  fs s !! (name +:+ ".img") = None ->
  datbr E work name brl dat_ver s
  = Val tt (State (fs s) (parts s) (parts_info s)
                  (events s
                   ++ [ Printed (fmt E (lang E "text86") [ name; name ]);
                        Printed (path work (name +:+ ".img") +:+ lang E "text84") ])).
Proof.
  intros Himg. unfold datbr, datbr_body, try_. mrun.
  rewrite exists_false by (sproj; exact Himg). mrun.
  now rewrite <- app_assoc.
Qed.

Lemma datbr_missing_image_witness :
  let E := sample_env [] [] in
  let s := start_state dir_no_list in
  datbr E "/rom/" "system" (Some 5) 4 s
  = Val tt (State (fs s) (parts s) (parts_info s)
                  (events s
                   ++ [ Printed (fmt E (lang E "text86") [ "system"; "system" ]);
                        Printed (path "/rom/" ("system" +:+ ".img")
                                 +:+ lang E "text84") ])).
Proof.
  apply (datbr_missing_image (sample_env [] []) "/rom/" "system" (Some 5) 4
           (start_state dir_no_list)).
  reflexivity.
Defined.

(** X16: In ["dat"] mode [datbr] runs [img2sdat] and no subprocess; the
    source image is removed exactly when [<name>.new.dat] exists
    afterwards. *)
Theorem datbr_dat_mode (E : env) (work name : string) (dat_ver : Z) (s : state)
    (y : list byte) :
  let img := name +:+ ".img" in
  let d' := img2sdat E img dat_ver name (fs s) in
  is_Some (fs s !! img) ->
  d' !! img = Some (File y) ->
  datbr E work name None dat_ver s
  = Val tt (State (if decide (is_Some (d' !! (name +:+ ".new.dat")))
                   then delete img d' else d')
                  (parts s) (parts_info s)
                  (events s
                   ++ [ Printed (fmt E (lang E "text86") [ name; name ]);
                        Invoked "img2sdat" [ path work img; work; str_int dat_ver; name ];
                        Printed (fmt E (lang E "text87") [ name ]) ])).
Proof.
  intros img d' Himg Hkept. unfold datbr, datbr_body, try_. fold img. mrun.
  rewrite exists_true by (sproj; exact Himg). mrun. fold d'.
  case_decide as Hdat.
  - rewrite exists_true by (sproj; exact Hdat). mrun.
    unfold try_catch, remove. sproj. rewrite Hkept. mrun.
    now rewrite <- !app_assoc.
  - rewrite exists_false
      by (sproj; destruct (d' !! (name +:+ ".new.dat")) eqn:Hd;
          [exfalso; apply Hdat; eauto|reflexivity]).
    mrun. now rewrite <- !app_assoc.
Qed.

Lemma datbr_dat_mode_witness :
  let E := sample_env [] [] in
  let s := start_state dir_raw in
  let img := "system" +:+ ".img" in
  let d' := img2sdat E img 4 "system" (fs s) in
  datbr E "/rom/" "system" None 4 s
  = Val tt (State (if decide (is_Some (d' !! ("system" +:+ ".new.dat")))
                   then delete img d' else d')
                  (parts s) (parts_info s)
                  (events s
                   ++ [ Printed (fmt E (lang E "text86") [ "system"; "system" ]);
                        Invoked "img2sdat" [ path "/rom/" img; "/rom/"; str_int 4;
                                             "system" ];
                        Printed (fmt E (lang E "text87") [ "system" ]) ])).
Proof.
  apply (datbr_dat_mode (sample_env [] []) "/rom/" "system" 4 (start_state dir_raw)
           (bytes "erofs.s")).
  - vm_compute. eauto.
  - reflexivity.
Defined.

(** *** Which collaborators a conversion can invoke *)

Lemma emits_ret {A : Type} (P : event -> Prop) (a : A) : emits P (ret a).
Proof. intros s. exists []. split; [now rewrite app_nil_r|constructor]. Qed.

Lemma emits_bind {A B : Type} (P : event -> Prop) (m : M A) (k : A -> M B) :
  emits P m -> (forall a, emits P (k a)) -> emits P (bind m k).
Proof.
  intros Hm Hk s. unfold bind. destruct (Hm s) as (l1 & He1 & Hl1).
  destruct (m s) as [a s'| s' | b s' | s']; simpl in He1; simpl;
    try (exists l1; split; assumption).
  destruct (Hk a s') as (l2 & He2 & Hl2).
  exists (l1 ++ l2). split.
  - now rewrite He2, He1, app_assoc.
  - now apply Forall_app.
Qed.

Lemma emits_when (P : event -> Prop) (c : bool) (m : M unit) :
  emits P m -> emits P (when c m).
Proof. intros Hm. destruct c; [exact Hm|apply emits_ret]. Qed.

Lemma emits_try (P : event -> Prop) (m : M unit) : emits P m -> emits P (try_ m).
Proof.
  intros Hm s. unfold try_. destruct (Hm s) as (l & He & Hl).
  destruct (m s); simpl in *; exists l; split; assumption.
Qed.

Lemma emits_try_catch (P : event -> Prop) (m h : M unit) :
  emits P m -> emits P h -> emits P (try_catch m h).
Proof.
  intros Hm Hh s. unfold try_catch. destruct (Hm s) as (l & He & Hl).
  destruct (m s) as [a s'| s' | b s' | s']; simpl in *;
    try (exists l; split; assumption).
  destruct (Hh s') as (l2 & He2 & Hl2).
  exists (l ++ l2). split.
  - now rewrite He2, He, app_assoc.
  - now apply Forall_app.
Qed.

Lemma emits_event (P : event -> Prop) (e : event) : P e -> emits P (emit e).
Proof.
  intros He s. exists [ e ]. split; [reflexivity|]. now repeat constructor.
Qed.

Lemma emits_collab (P : event -> Prop) (tool : string) (args : list string)
    (f : dir -> dir) :
  P (Invoked tool args) -> emits P (collab tool args f).
Proof.
  intros He s. exists [ Invoked tool args ]. split; [reflexivity|].
  now repeat constructor.
Qed.

Lemma emits_run_call (P : event -> Prop) (E : env) (argv : list string) :
  P (Invoked "call" argv) -> emits P (run_call E argv).
Proof.
  intros He s. exists [ Invoked "call" argv ]. unfold run_call.
  destruct (call E argv (fs s)). split; [reflexivity|]. now repeat constructor.
Qed.

(** The file-system primitives emit nothing. *)
Lemma emits_silent {A : Type} (P : event -> Prop) (m : M A) :
  (forall s, events (final_state (m s)) = events s) -> emits P m.
Proof.
  intros H s. exists []. split; [now rewrite H, app_nil_r|constructor].
Qed.

Lemma emits_exists (P : event -> Prop) (name : string) : emits P (exists_ name).
Proof. now apply emits_silent. Qed.

Lemma emits_getsize (P : event -> Prop) (E : env) (name : string) :
  emits P (getsize E name).
Proof.
  apply emits_silent. intros s. unfold getsize.
  now destruct (fs s !! name) as [[?|]|].
Qed.

Lemma emits_remove (P : event -> Prop) (name : string) : emits P (remove name).
Proof.
  apply emits_silent. intros s. unfold remove.
  now destruct (fs s !! name) as [[?|]|].
Qed.

Lemma emits_rename (P : event -> Prop) (src dst : string) :
  emits P (rename src dst).
Proof.
  apply emits_silent. intros s. unfold rename.
  destruct (fs s !! src) as [[?|]|]; [| |reflexivity];
    now destruct (fs s !! dst) as [[?|]|].
Qed.

Lemma emits_for_each {A : Type} (P : event -> Prop) (body : A -> M unit)
    (l : list A) :
  (forall x, emits P (body x)) -> emits P (for_each body l).
Proof.
  intros Hb. induction l as [|x l IH]; [apply emits_ret|].
  intros s. cbn [for_each]. destruct (Hb x s) as (l1 & He1 & Hl1).
  destruct (body x s) as [a s'| s' | b s' | s']; simpl in He1;
    try (exists l1; split; assumption).
  - destruct (IH s') as (l2 & He2 & Hl2). exists (l1 ++ l2). split.
    + now rewrite He2, He1, app_assoc.
    + now apply Forall_app.
  - destruct (IH s') as (l2 & He2 & Hl2). exists (l1 ++ l2). split.
    + now rewrite He2, He1, app_assoc.
    + now apply Forall_app.
Qed.

(** Decompose a computation into its primitives. *)
Ltac emits_auto :=
  repeat first
    [ apply emits_ret
    | apply emits_exists
    | apply emits_getsize
    | apply emits_remove
    | apply emits_rename
    | apply emits_when
    | apply emits_try
    | apply emits_try_catch
    | apply emits_for_each; intros
    | apply emits_bind; [|intros]
    | apply emits_event; simpl; try exact I; try discriminate
    | apply emits_collab; simpl; try exact I; try discriminate
    | apply emits_run_call; simpl; try exact I; try discriminate
    | match goal with
      | |- emits _ (if ?c then _ else _) => destruct c
      | |- emits _ (match ?c with _ => _ end) => destruct c
      end ].

Lemma emits_img2simg (E : env) (work name : string) :
  emits not_simg2img (img2simg E work name).
Proof.
  unfold img2simg. unfold mbind, M_bind, mret, M_ret, print. emits_auto.
Qed.

Lemma emits_datbr_dat (E : env) (work name : string) (dat_ver : Z) :
  emits (fun e => not_simg2img e /\ not_subprocess e)
        (datbr E work name None dat_ver).
Proof.
  unfold datbr, datbr_body. unfold mbind, M_bind, mret, M_ret, print.
  emits_auto; split; simpl; try exact I; discriminate.
Qed.

Lemma bind_assoc {A B C : Type} (m : M A) (k1 : A -> M B) (k2 : B -> M C)
    (s : state) :
  bind (bind m k1) k2 s = bind m (fun a => bind (k1 a) k2) s.
Proof. unfold bind. now destruct (m s). Qed.

Lemma emits_weaken {A : Type} (P Q : event -> Prop) (m : M A) :
  (forall e, P e -> Q e) -> emits P m -> emits Q m.
Proof.
  intros HPQ Hm s. destruct (Hm s) as (l & He & Hl).
  exists l. split; [exact He|]. eapply Forall_impl; eassumption.
Qed.

(** X17: Towards [dat], the source is never turned into a raw image: no
    conversion from [raw] or [sparse] to [dat] runs the sparse-to-raw
    codec.  A [raw] entry is first passed to [img2simg]; a [sparse]
    entry goes to [datbr] as it is, which there runs no subprocess at
    all, only [img2sdat]. *)
Theorem conversion_to_dat_never_unsparses (E : env) (work : string)
    (work_exists : bool) (hget : string) (selection : list string) :
  hget = "raw" \/ hget = "sparse" ->
  emits not_simg2img (conversion E work work_exists hget "dat" selection) /\
  (forall i s,
     exists l,
       events (final_state (convert_one E work work_exists "raw" "dat" i s))
       = events s
         ++ Printed ("[" +:+ "raw" +:+ "->" +:+ "dat" +:+ "]" +:+ i)
            :: Invoked "call" [ "img2simg"; path work i; path work i +:+ "s" ]
            :: l) /\
  (forall i,
     emits (fun e => not_simg2img e /\ not_subprocess e)
           (convert_one E work work_exists "sparse" "dat" i)).
Proof.
  intros Hh. split; [|split].
  - unfold conversion, conversion_body. apply emits_try.
    assert (String.eqb "dat" hget = false) as ->
      by (destruct Hh as [-> | ->]; reflexivity).
    unfold mbind, M_bind, print. apply emits_bind; [|intros; now apply emits_event].
    apply emits_for_each. intros i. unfold convert_one. eqb_consts.
    unfold mbind, M_bind, print, unbrotli, unxz.
    apply emits_bind; [now apply emits_event|intros _].
    apply emits_bind; [apply emits_when, emits_img2simg|intros _].
    apply emits_bind.
    { apply emits_when.
      eapply emits_weaken; [|apply emits_datbr_dat]. now intros e [He _]. }
    intros _. unfold mbind, M_bind, mret, M_ret, print. emits_auto.
  - intros i s. unfold convert_one. eqb_consts. cbn [when orb].
    unfold mbind, M_bind. unfold bind at 1. unfold print, emit at 1. cbv beta iota.
    unfold img2simg. unfold mbind, M_bind. rewrite bind_assoc.
    unfold bind at 1. unfold run_call at 1.
    destruct (call E _ _) as [d' rc]. cbv beta iota.
    match goal with
    | |- context [ final_state (?K ?st) ] =>
        assert (emits (fun _ => True) K) as Hrest
    end.
    { unfold datbr, datbr_body, unbrotli, unxz.
      unfold mbind, M_bind, mret, M_ret, print. emits_auto. }
    match goal with
    | |- context [ final_state (?K ?st) ] => destruct (Hrest st) as (l & He & _)
    end.
    exists l. rewrite He. unfold with_event, with_fs. sproj.
    now rewrite <- !app_assoc.
  - intros i. unfold convert_one. eqb_consts. cbn [when orb].
    unfold mbind, M_bind, print, unbrotli, unxz.
    apply emits_bind; [apply emits_event; now split|intros _].
    apply emits_bind; [apply emits_ret|intros _].
    apply emits_bind; [apply emits_datbr_dat|intros _].
    apply emits_bind; apply emits_ret || (intros; apply emits_ret).
Qed.

Lemma conversion_to_dat_never_unsparses_witness :
  let E := sample_env [] [] in
  emits not_simg2img (conversion E "/rom/" true "raw" "dat" [ "system.img" ]) /\
  (forall i s,
     exists l,
       events (final_state (convert_one E "/rom/" true "raw" "dat" i s))
       = events s
         ++ Printed ("[" +:+ "raw" +:+ "->" +:+ "dat" +:+ "]" +:+ i)
            :: Invoked "call" [ "img2simg"; path "/rom/" i; path "/rom/" i +:+ "s" ]
            :: l) /\
  (forall i,
     emits (fun e => not_simg2img e /\ not_subprocess e)
           (convert_one E "/rom/" true "sparse" "dat" i)).
Proof.
  apply (conversion_to_dat_never_unsparses (sample_env [] []) "/rom/" true "raw"
           [ "system.img" ]).
  now left.
Defined.

(** A [raw] image converted to [dat] with the sample codecs: the image
    is made sparse, then turned into transfer data, and is gone. *)
Example conversion_raw_to_dat :
  match conversion (sample_env [] []) "/rom/" true "raw" "dat" [ "system.img" ]
                   (start_state dir_raw) with
  | Val _ s' =>
      fs s' = {[ "system.new.dat" := File (bytes "sparse.erofs.s");
                 "system.transfer.list" := File (bytes "4") ]}
  | _ => False
  end.
Proof. vm_compute. reflexivity. Qed.

(** *** [dat] to [raw] *)

Lemma before_dot_app (base rest : string) :
  forallb (fun c => negb (Ascii.eqb c ".")) (chars base) = true ->
  before_dot (base +:+ String "." rest) = base.
Proof.
  induction base as [|c base IH]; intros H; [reflexivity|].
  cbn [chars list_ascii_of_string forallb] in H.
  apply andb_true_iff in H as [Hc Hrest]. apply negb_true_iff in Hc.
  change (String c base +:+ String "." rest)
    with (String c (base +:+ String "." rest)).
  cbn [before_dot]. rewrite Hc. now rewrite IH.
Qed.

Lemma basename_no_slash (p : string) :
  existsb (Ascii.eqb "/") (chars p) = false -> basename p = p.
Proof.
  destruct p as [|c p]; [reflexivity|]. cbn [chars list_ascii_of_string existsb].
  intros H. apply orb_false_iff in H as [Hc Hp]. cbn [basename].
  rewrite Ascii.eqb_sym in Hc. rewrite Hc. unfold chars. now rewrite Hp.
Qed.

Lemma plain_name_no_dot (base : string) :
  plain_name base = true ->
  forallb (fun c => negb (Ascii.eqb c ".")) (chars base) = true.
Proof.
  unfold plain_name. induction (chars base) as [|c l IH]; [reflexivity|].
  cbn [forallb]. intros H. apply andb_true_iff in H as [Hc Hl].
  apply andb_true_iff in Hc as [Hdot _]. now rewrite Hdot, IH.
Qed.

Lemma plain_name_no_slash (base suffix : string) :
  plain_name base = true ->
  existsb (Ascii.eqb "/") (chars suffix) = false ->
  existsb (Ascii.eqb "/") (chars (base +:+ suffix)) = false.
Proof.
  unfold plain_name. rewrite chars_append, existsb_app. intros H ->.
  rewrite orb_false_r.
  induction (chars base) as [|c l IH]; [reflexivity|].
  cbn [forallb existsb] in *. apply andb_true_iff in H as [Hc Hl].
  apply andb_true_iff in Hc as [_ Hslash]. apply negb_true_iff in Hslash.
  rewrite Ascii.eqb_sym, Hslash. cbn [orb]. now apply IH.
Qed.

(** The partition name the conversion derives from an entry name. *)
Lemma dat_basename (base : string) :
  plain_name base = true -> before_dot (basename (base +:+ ".new.dat")) = base.
Proof.
  intros H. rewrite basename_no_slash by (now apply plain_name_no_slash).
  now apply (before_dot_app base "new.dat"), plain_name_no_dot.
Qed.

(** X18: [dat] to [raw] without the transfer list: the conversion prints the
    "transfer file missing" line and leaves the directory as it is. *)
Theorem conversion_dat_to_raw_missing_list (E : env) (work base : string)
    (s : state) :
  let i := base +:+ ".new.dat" in
  plain_name base = true ->
  fs s !! (base +:+ ".transfer.list") = None ->
  convert_one E work true "dat" "raw" i s
  = Val tt (State (fs s) (parts s) (parts_info s)
                  (events s
                   ++ [ Printed ("[" +:+ "dat" +:+ "->" +:+ "raw" +:+ "]" +:+ i);
                        Printed (lang E "text79" +:+ path work i);
                        Printed ("transferfile" +:+ lang E "text84") ])).
Proof.
  intros i Hplain Hlist. unfold convert_one. eqb_consts.
  assert (before_dot (basename i) = base) as -> by exact (dat_basename _ Hplain).
  unfold replay_to_raw. mrun.
  rewrite exists_false by (sproj; exact Hlist). mrun.
  now rewrite <- !app_assoc.
Qed.

Lemma conversion_dat_to_raw_missing_list_witness :
  let E := sample_env [] [] in
  let s := start_state dir_no_list in
  let i := "system" +:+ ".new.dat" in
  convert_one E "/rom/" true "dat" "raw" i s
  = Val tt (State (fs s) (parts s) (parts_info s)
                  (events s
                   ++ [ Printed ("[" +:+ "dat" +:+ "->" +:+ "raw" +:+ "]" +:+ i);
                        Printed (lang E "text79" +:+ path "/rom/" i);
                        Printed ("transferfile" +:+ lang E "text84") ])).
Proof.
  apply (conversion_dat_to_raw_missing_list (sample_env [] []) "/rom/" "system"
           (start_state dir_no_list)).
  - reflexivity.
  - reflexivity.
Defined.

(** X19: [dat] to [raw] with the transfer list: once [Sdat2img] has produced
    the image, the transfer data and the list are removed; the patch
    file is removed only when it is empty, a patch file that holds data
    is kept. *)
Theorem conversion_dat_to_raw_consumes (E : env) (work base : string)
    (s : state) (data x t p : list byte) (d' : dir) (version : Z) :
  let i := base +:+ ".new.dat" in
  let transferfile := base +:+ ".transfer.list" in
  let img := base +:+ ".img" in
  let patch := base +:+ ".patch.dat" in
  plain_name base = true ->
  fs s !! i = Some (File data) -> data <> [] ->
  is_Some (fs s !! transferfile) ->
  Sdat2img E transferfile i img (fs s) = (d', version) ->
  is_Some (d' !! img) ->
  d' !! i = Some (File x) ->
  d' !! transferfile = Some (File t) ->
  d' !! patch = Some (File p) ->
  exists s',
    convert_one E work true "dat" "raw" i s = Val tt s' /\
    fs s' !! i = None /\ fs s' !! transferfile = None /\
    fs s' !! patch = (if decide (p = []) then None else Some (File p)) /\
    (forall k, k <> i -> k <> transferfile -> k <> patch -> fs s' !! k = d' !! k) /\
    parts s' = parts s /\ parts_info s' = parts_info s.
Proof.
  intros i transferfile img patch Hplain Hdat Hne Hlist Hrun Himg Hi Ht Hp.
  unfold convert_one. eqb_consts.
  assert (before_dot (basename i) = base) as -> by exact (dat_basename _ Hplain).
  unfold replay_to_raw. fold transferfile img patch. mrun.
  rewrite exists_true by (sproj; exact Hlist). mrun.
  unfold getsize at 1. sproj. rewrite Hdat.
  assert ((Z.of_nat (length data) =? 0) = false) as ->.
  { apply Z.eqb_neq. destruct data; [contradiction|]. simpl. lia. }
  mrun. rewrite Hrun. cbn [fst].
  rewrite exists_true by (sproj; exact Himg). mrun.
  unfold try_, remove at 1. sproj. mrun. rewrite Hi. mrun.
  unfold remove at 1. sproj.
  rewrite lookup_delete_ne by (subst i transferfile; name_ne).
  rewrite Ht. mrun.
  unfold getsize. sproj.
  rewrite !lookup_delete_ne by (subst i transferfile patch; name_ne).
  rewrite Hp. mrun.
  assert (forall m : dir, (delete transferfile (delete i m)) !! i = None) as Hgone_i.
  { intros m. rewrite lookup_delete_ne by (subst i transferfile; name_ne).
    apply lookup_delete_eq. }
  destruct p as [|b p].
  - change (Z.of_nat (length []) =? 0) with true. mrun.
    unfold remove. sproj.
    rewrite !lookup_delete_ne by (subst i transferfile patch; name_ne).
    rewrite Hp. mrun.
    eexists. split; [reflexivity|]. sproj.
    rewrite decide_True by reflexivity.
    split; [|split; [|split; [|split; [|split; reflexivity]]]].
    + rewrite lookup_delete_ne by (subst i patch; name_ne). apply Hgone_i.
    + rewrite lookup_delete_ne by (subst transferfile patch; name_ne).
      apply lookup_delete_eq.
    + apply lookup_delete_eq.
    + intros k H1 H2 H3. now rewrite !lookup_delete_ne by congruence.
  - replace (Z.of_nat (length (b :: p)) =? 0) with false
      by (symmetry; apply Z.eqb_neq; simpl; lia).
    mrun. eexists. split; [reflexivity|]. sproj.
    rewrite decide_False by discriminate.
    split; [|split; [|split; [|split; [|split; reflexivity]]]].
    + apply Hgone_i.
    + apply lookup_delete_eq.
    + now rewrite !lookup_delete_ne by (subst i transferfile patch; name_ne).
    + intros k H1 H2 H3. now rewrite !lookup_delete_ne by congruence.
Qed.

Lemma conversion_dat_to_raw_consumes_witness :
  let E := sample_env [] [] in
  let s := start_state dir_patch in
  let d' := <["system.img" := File (bytes "erofs.blocks")]> dir_patch in
  let i := "system" +:+ ".new.dat" in
  let transferfile := "system" +:+ ".transfer.list" in
  let patch := "system" +:+ ".patch.dat" in
  exists s',
    convert_one E "/rom/" true "dat" "raw" i s = Val tt s' /\
    fs s' !! i = None /\ fs s' !! transferfile = None /\
    fs s' !! patch
      = (if decide (bytes "delta" = []) then None else Some (File (bytes "delta"))) /\
    (forall k, k <> i -> k <> transferfile -> k <> patch -> fs s' !! k = d' !! k) /\
    parts s' = parts s /\ parts_info s' = parts_info s.
Proof.
  apply (conversion_dat_to_raw_consumes (sample_env [] []) "/rom/" "system"
           (start_state dir_patch) (bytes "erofs.blocks") (bytes "erofs.blocks")
           (bytes "4") (bytes "delta")
           (<["system.img" := File (bytes "erofs.blocks")]> dir_patch) 4).
  - reflexivity.
  - reflexivity.
  - discriminate.
  - vm_compute. eauto.
  - reflexivity.
  - vm_compute. eauto.
  - reflexivity.
  - reflexivity.
  - reflexivity.
Defined.

(** X20: [sparse] to [raw]: a failing sparse-to-raw codec is not caught
    inside the loop, wherever its entry stands in the selection.  The
    exception leaves the loop at that entry: the directory is as the
    entries before it left it, the entries that follow are not
    converted and the closing message is not printed.  The [@animation]
    decorator then catches it: the call itself returns normally. *)
Theorem conversion_sparse_to_raw_aborts (E : env) (work : string)
    (work_exists : bool) (pre : list string) (i : string) (rest : list string)
    (s s1 : state) :
  for_each (convert_one E work work_exists "sparse" "raw") pre s = Val tt s1 ->
  simg2img E i (fs s1) = None ->
  let stopped :=
    State (fs s1) (parts s1) (parts_info s1)
          (events s1
           ++ [ Printed ("[" +:+ "sparse" +:+ "->" +:+ "raw" +:+ "]" +:+ i);
                Invoked "simg2img" [ path work i ] ]) in
  conversion_body E work work_exists "sparse" "raw" (pre ++ i :: rest) s
  = Raised stopped /\
  conversion E work work_exists "sparse" "raw" (pre ++ i :: rest) s
  = Val tt stopped.
Proof.
  intros Hpre Hfail stopped.
  assert (conversion_body E work work_exists "sparse" "raw" (pre ++ i :: rest) s
          = Raised stopped) as Hbody.
  { unfold conversion_body. eqb_consts. cbv iota.
    unfold mbind, M_bind. unfold bind at 1.
    rewrite (for_each_app _ _ _ _ _ Hpre). cbn [for_each].
    unfold convert_one. eqb_consts. mrun. rewrite Hfail.
    subst stopped. now rewrite <- app_assoc. }
  split; [exact Hbody|]. now apply try_Raised.
Qed.

Lemma conversion_sparse_to_raw_aborts_witness :
  let E := sample_env [] [] in
  let s := start_state dir_sparse in
  let s1 :=
    State {[ "system.img" := File (bytes "erofs.s") ]} ∅ None
          [ Printed ("[" +:+ "sparse" +:+ "->" +:+ "raw" +:+ "]" +:+ "system.img");
            Invoked "simg2img" [ path "/rom/" "system.img" ] ] in
  let stopped :=
    State (fs s1) (parts s1) (parts_info s1)
          (events s1
           ++ [ Printed ("[" +:+ "sparse" +:+ "->" +:+ "raw" +:+ "]" +:+ "vendor.img");
                Invoked "simg2img" [ path "/rom/" "vendor.img" ] ]) in
  conversion_body E "/rom/" true "sparse" "raw"
                  ([ "system.img" ] ++ "vendor.img" :: [ "product.img" ]) s
  = Raised stopped /\
  conversion E "/rom/" true "sparse" "raw"
             ([ "system.img" ] ++ "vendor.img" :: [ "product.img" ]) s
  = Val tt stopped.
Proof.
  intros E s s1.
  apply (conversion_sparse_to_raw_aborts E "/rom/" true [ "system.img" ] "vendor.img"
           [ "product.img" ] s s1).
  - vm_compute. reflexivity.
  - reflexivity.
Defined.

End ConversionProofs.
